(** * Agent dispatch lifecycle and log rate limiting

    A shallow embedding of TypeScript units of the voice to-do
    application and the properties stated about them:

    - [Tracker]  : voice-todo-app/lib/agent-tracker.ts   (class AgentTracker)
    - [Cleanup]  : voice-todo-app/lib/cleanup-worker.ts  (one cleanup cycle)
    - [Worker]   : voice-todo-app/lib/cleanup-worker.ts  (start, stop, singleton)
    - [Dispatch] : voice-todo-app/app/api/livekit/dispatch-agent/route.ts (POST)
    - [Status]   : voice-todo-app/app/api/livekit/agent-status/route.ts (GET)
    - [Cache]    : voice-todo-app/lib/cache.ts
    - [Limiter]  : agent-starter-node/src/log-rate-limiter.ts (class LogRateLimiter)

    Modelling conventions.
    - Every synchronous method body receives the clock reading it makes
      as an explicit argument [now], a [Z] of milliseconds; readings made
      after an [await] are a separate argument.
    - An external service is a function from what it has seen so far to
      the outcome of the call.  [Cleanup.runCleanup] is a cleanup cycle
      during which nothing else runs; [Cleanup.runCleanupAmid] is the
      cycle with the tracker calls of other handlers landing at its
      awaits.
    - A JavaScript [Map] is an association list kept in insertion order
      ([JsMap]); mutating an object fetched from a map is written as
      re-setting its key, which keeps the entry's position.
    - [console.*] output is returned by each operation as the list of lines
      it printed, each line kept structured (template and interpolated
      values) instead of rendered to text.
    - A JavaScript [number] that only ever holds counts or clock
      readings is a [Z].  A [number] that enters floating-point
      arithmetic (the token count and the rate of the limiter, a TTL in
      seconds) is a binary64 value ([Number.number]): NaN, the two
      infinities, the two zeros, or a non-zero rational; every operation
      returns the exact result rounded to the nearest binary64 value, ties
      to even.
    - A computed [Date] is a time value in milliseconds or an Invalid Date
      ([Date.t]); a [Date] made by [new Date()] is its millisecond value.
    - A string is a Rocq [string]: a sequence of code units below 256. *)

From Stdlib Require Import ZArith List String Ascii Bool Lia.
From Stdlib Require Import QArith Qminmax Lqa Qround Qpower Qabs Qreduction.
From Stdlib Require Import DecimalString Permutation Sorted SpecFloat.
Import ListNotations.

Local Open Scope string_scope.
Local Open Scope list_scope.
Local Open Scope Z_scope.

(** ** JavaScript values that cross the HTTP boundary *)

Inductive JsValue : Type :=
| VUndefined
| VNull
| VBool (b : bool)
| VNumber (n : Z)
| VString (s : string)
| VObject.

(** ToBoolean. [VObject] stands for any array or object. *)
Definition truthy (v : JsValue) : bool :=
  match v with
  | VUndefined | VNull => false
  | VBool b => b
  | VNumber n => negb (n =? 0)
  | VString s => negb (String.eqb s EmptyString)
  | VObject => true
  end.

(** [a || b] *)
Definition js_or (a b : JsValue) : JsValue := if truthy a then a else b.

Inductive Stream : Type := StdLog | StdInfo | StdWarn | StdError.

(** An exception a method lets escape. *)
Inductive Thrown : Type :=
| RangeError (message : string).

(** ** Map: an association list in insertion order *)

Module JsMap.
Section WithKey.
Context {K V : Type} (eqb : K -> K -> bool).

Definition t : Type := list (K * V).

Definition empty : t := [].

Fixpoint get (k : K) (m : t) : option V :=
  match m with
  | [] => None
  | (k', v) :: rest => if eqb k k' then Some v else get k rest
  end.

(** [Map.prototype.set]: an existing key keeps its position, a new key goes
    last. *)
Fixpoint set (k : K) (v : V) (m : t) : t :=
  match m with
  | [] => [(k, v)]
  | (k', v') :: rest =>
      if eqb k k' then (k', v) :: rest else (k', v') :: set k v rest
  end.

Fixpoint delete (k : K) (m : t) : t :=
  match m with
  | [] => []
  | (k', v') :: rest =>
      if eqb k k' then delete k rest else (k', v') :: delete k rest
  end.

Definition keys (m : t) : list K := map fst m.
Definition values (m : t) : list V := map snd m.
Definition size (m : t) : Z := Z.of_nat (List.length m).

End WithKey.
End JsMap.

(** ** number: IEEE 754 binary64 *)

(** The arithmetic of JavaScript numbers.  A finite non-zero value is kept
    as the rational it denotes; [round] is the rounding every operation
    applies to its exact result (roundTiesToEven, with gradual underflow
    and overflow to infinity). *)
Module Number.

Inductive number : Type :=
| NaN
| Infinity (negative : bool)
| Zero (negative : bool)
| Finite (q : Q).

(** 2^k, k of any sign *)
Definition pow2 (k : Z) : Q := Qpower 2 k.

(** floor (log2 q), q > 0 *)
Definition ilog2 (q : Q) : Z :=
  let k := Z.log2 (Qnum q) - Z.log2 (Zpos (Qden q)) in
  if Qle_bool (pow2 k) q then k else k - 1.

(** The exponent of the unit in the last place of the binary64 numbers
    around q > 0. *)
Definition ulp_exponent (q : Q) : Z := Z.max (ilog2 q - 52) (-1074).

(** The integer nearest to x >= 0, ties to the even one. *)
Definition nearest_even (x : Q) : Z :=
  let f := Qfloor x in
  match Qcompare (x - inject_Z f) (1 # 2) with
  | Lt => f
  | Gt => f + 1
  | Eq => if Z.even f then f else f + 1
  end.

Definition overflow : Q := pow2 1024.

(** The binary64 value nearest to q > 0, before the test for overflow. *)
Definition nearest_value (q : Q) : Q :=
  let e := ulp_exponent q in
  inject_Z (nearest_even (q * pow2 (- e))) * pow2 e.

(** The number with magnitude v >= 0 and the given sign. *)
Definition with_sign (negative : bool) (v : Q) : number :=
  if Qeq_bool v 0 then Zero negative
  else if Qle_bool overflow v then Infinity negative
  else Finite (Qred (if negative then - v else v)).

(** q > 0 rounded to the nearest binary64 number, ties to even. *)
Definition round_positive (negative : bool) (q : Q) : number :=
  with_sign negative (nearest_value q).

Definition round (q : Q) : number :=
  match Qcompare q 0 with
  | Eq => Zero false
  | Gt => round_positive false q
  | Lt => round_positive true (- q)
  end.

Definition of_int (z : Z) : number := round (inject_Z z).

Definition negative_of (q : Q) : bool := Qnum q <? 0.

Definition add (x y : number) : number :=
  match x, y with
  | NaN, _ | _, NaN => NaN
  | Infinity a, Infinity b => if Bool.eqb a b then x else NaN
  | Infinity _, _ => x
  | _, Infinity _ => y
  | Zero a, Zero b => Zero (a && b)
  | Zero _, Finite _ => y
  | Finite _, Zero _ => x
  | Finite p, Finite q => round (p + q)
  end.

Definition opp (x : number) : number :=
  match x with
  | NaN => NaN
  | Infinity a => Infinity (negb a)
  | Zero a => Zero (negb a)
  | Finite q => Finite (Qred (- q))
  end.

Definition sub (x y : number) : number := add x (opp y).

Definition mul (x y : number) : number :=
  match x, y with
  | NaN, _ | _, NaN => NaN
  | Infinity _, Zero _ | Zero _, Infinity _ => NaN
  | Infinity a, Infinity b => Infinity (xorb a b)
  | Infinity a, Finite q => Infinity (xorb a (negative_of q))
  | Finite p, Infinity b => Infinity (xorb (negative_of p) b)
  | Zero a, Zero b => Zero (xorb a b)
  | Zero a, Finite q => Zero (xorb a (negative_of q))
  | Finite p, Zero b => Zero (xorb (negative_of p) b)
  | Finite p, Finite q => round (p * q)
  end.

Definition div (x y : number) : number :=
  match x, y with
  | NaN, _ | _, NaN => NaN
  | Infinity _, Infinity _ | Zero _, Zero _ => NaN
  | Infinity a, Zero b => Infinity (xorb a b)
  | Infinity a, Finite q => Infinity (xorb a (negative_of q))
  | Zero a, Infinity b => Zero (xorb a b)
  | Zero a, Finite q => Zero (xorb a (negative_of q))
  | Finite p, Infinity b => Zero (xorb (negative_of p) b)
  | Finite p, Zero b => Infinity (xorb (negative_of p) b)
  | Finite p, Finite q => round (p / q)
  end.

(** [x <= y] *)
Definition le (x y : number) : bool :=
  match x, y with
  | NaN, _ | _, NaN => false
  | Infinity true, _ | _, Infinity false => true
  | Infinity false, _ | _, Infinity true => false
  | Zero _, Zero _ => true
  | Zero _, Finite q => Qle_bool 0 q
  | Finite p, Zero _ => Qle_bool p 0
  | Finite p, Finite q => Qle_bool p q
  end.

Definition ge (x y : number) : bool := le y x.

(** [x] is a binary64 number: rounding leaves it as it is. *)
Definition binary64 (x : number) : bool :=
  match x with
  | Finite q =>
      match round q with
      | Finite q' => Qeq_bool q q'
      | _ => false
      end
  | _ => true
  end.

Definition is_finite (x : number) : bool :=
  match x with
  | Zero _ | Finite _ => true
  | _ => false
  end.

(** [0 <= x] *)
Definition nonneg (x : number) : Prop := le (Zero false) x = true.

Definition one : number := Finite 1.

(** [Math.min(x, y)] *)
Definition min (x y : number) : number :=
  match x, y with
  | NaN, _ | _, NaN => NaN
  | Zero a, Zero b => Zero (a || b)
  | _, _ => if le x y then x else y
  end.

(** The positive binary64 values, subnormal ones included: m * 2^e with
    m below 2^53 and e at least -1074. *)
Definition representable (v : Q) : Prop :=
  exists m e, (0 < m < 2 ^ 53)%Z /\ (-1074 <= e)%Z /\
              (v == inject_Z m * pow2 e)%Q.

(** The value of a [spec_float], for comparison with the library's
    reference implementation. *)
Definition of_spec (f : spec_float) : number :=
  match f with
  | S754_nan => NaN
  | S754_infinity s => Infinity s
  | S754_zero s => Zero s
  | S754_finite s m e =>
      Finite (Qred ((if s then -1 else 1) * inject_Z (Zpos m) * pow2 e))
  end.

(** Equality of numbers as values. *)
Definition same (x y : number) : bool :=
  match x, y with
  | NaN, NaN => true
  | Infinity a, Infinity b => Bool.eqb a b
  | Zero a, Zero b => Bool.eqb a b
  | Finite p, Finite q => Qeq_bool p q
  | _, _ => false
  end.

(** The binary64 format of [SpecFloat]: 53 bits of precision, exponents
    below 1024. *)
Definition spec (m e : Z) : spec_float := binary_normalize 53 1024 m e false.

(** Numbers on which the operations above are compared with those of
    [SpecFloat]: zeros, NaN, infinities, whole numbers, decimal fractions
    that are not binary64 values before rounding, the largest whole number
    below 2^53, the largest finite number, and subnormal numbers. *)
Definition samples : list spec_float :=
  [ S754_zero false; S754_zero true; S754_nan;
    S754_infinity false; S754_infinity true;
    spec 1 0; spec (-1) 0; spec 400 0; spec 1000 0; spec 200 0;
    SFdiv 53 1024 (spec 1 0) (spec 5 0);
    SFdiv 53 1024 (spec 7999999999999999 0) (spec 10000000000000000 0);
    SFdiv 53 1024 (spec 1 0) (spec 3 0);
    spec (2 ^ 53 - 1) 0; spec (2 ^ 53 - 1) 971; spec 3 (-1074);
    spec (-5) (-1074); spec 8640000000000000 0 ].

Definition agree (op : spec_float -> spec_float -> spec_float)
  (op' : number -> number -> number) : bool :=
  forallb
    (fun a =>
       forallb
         (fun b => same (of_spec (op a b)) (op' (of_spec a) (of_spec b)))
         samples)
    samples.

Definition agree_on_order : bool :=
  forallb
    (fun a =>
       forallb
         (fun b => Bool.eqb (SFleb a b) (le (of_spec a) (of_spec b)))
         samples)
    samples.

End Number.

(** ** Date *)

Module Date.

(** A [Date] object: a time value in milliseconds since the epoch, or an
    Invalid Date (time value NaN). *)
Inductive t : Type :=
| At (ms : Z)
| Invalid.

(** The largest time value, 8.64e15 ms. *)
Definition max_time : Z := 8640000000000000.

(** [z] is a time value, as [Date.now()] returns. *)
Definition time_value (z : Z) : Prop := 0 <= z <= max_time.

(** [new Date(value)] for a number: TimeClip, which truncates a finite
    value within range towards zero. *)
Definition of_number (x : Number.number) : t :=
  match x with
  | Number.Zero _ => At 0
  | Number.Finite q =>
      if Qle_bool (Qabs q) (inject_Z max_time)
      then At (Z.quot (Qnum q) (Zpos (Qden q)))
      else Invalid
  | _ => Invalid
  end.

(** [date <= new Date()] and [date > new Date()], the other date having
    time value [now]: both are false of an Invalid Date. *)
Definition le_time (d : t) (now : Z) : bool :=
  match d with
  | At ms => ms <=? now
  | Invalid => false
  end.

Definition gt_time (d : t) (now : Z) : bool :=
  match d with
  | At ms => now <? ms
  | Invalid => false
  end.

(** The message of the RangeError [toISOString()] throws on an Invalid
    Date. *)
Definition invalid_time_value : string := "Invalid time value".

End Date.

(** ** agent-tracker.ts *)

Module Tracker.

Record AgentActivity : Type := mkActivity {
  dispatchId : string;
  roomName : string;
  agentName : string;
  createdAt : Z;
  lastActivityAt : Z;
  participantCount : Z;
  ttlExpiresAt : option Date.t
}.

Record AgentTracker : Type := mkTracker {
  activities : list (string * AgentActivity);
  defaultTtlSeconds : Number.number
}.

(** Lines printed by the tracker; the first field is the timestamp. *)
Inductive Line : Type :=
| UpdatedActivity (ts : Z) (dispatch room : string) (participants : Z)
| StartedTracking (ts : Z) (dispatch room agent : string)
| CannotMarkUnknown (ts : Z) (dispatch : string)
| MarkedForCleanup (ts : Z) (dispatch room : string) (ttl : Number.number)
    (expires : Z)
| CancelledCleanup (ts : Z) (dispatch room : string)
| RemovedFromTracking (ts : Z) (dispatch room : string).

Definition Output : Type := list (Stream * Line).

(** What a call that may throw leaves behind: the tracker, the lines it
    printed, and the exception that escaped, if any. *)
Record Effect : Type := mkEffect {
  after : AgentTracker;
  printed : Output;
  thrown : option Thrown
}.

Definition get := @JsMap.get string AgentActivity String.eqb.
Definition set := @JsMap.set string AgentActivity String.eqb.
Definition delete := @JsMap.delete string AgentActivity String.eqb.

Definition with_activities (t : AgentTracker)
  (m : list (string * AgentActivity)) : AgentTracker :=
  mkTracker m (defaultTtlSeconds t).

(** [constructor(ttlSeconds = 300)] *)
Definition new (ttlSeconds : option Number.number) : AgentTracker :=
  mkTracker []
    (match ttlSeconds with Some s => s | None => Number.of_int 300 end).

Definition default_agent : string := "task-assistant".

(** [trackActivity(dispatchId, roomName, agentName = 'task-assistant',
    participantCount = 1)] *)
Definition trackActivity (dispatch room : string) (agent : option string)
  (participants : option Z) (now : Z) (t : AgentTracker)
  : AgentTracker * Output :=
  let agent := match agent with Some a => a | None => default_agent end in
  let participants := match participants with Some p => p | None => 1 end in
  match get dispatch (activities t) with
  | Some existing =>
      let updated :=
        mkActivity (dispatchId existing) (roomName existing)
          (agentName existing) (createdAt existing)
          now participants None in
      (with_activities t (set dispatch updated (activities t)),
       [(StdLog, UpdatedActivity now dispatch room participants)])
  | None =>
      let fresh := mkActivity dispatch room agent now now participants None in
      (with_activities t (set dispatch fresh (activities t)),
       [(StdLog, StartedTracking now dispatch room agent)])
  end.

Fixpoint first_match (room agent : string) (vs : list AgentActivity)
  : option AgentActivity :=
  match vs with
  | [] => None
  | a :: rest =>
      if String.eqb (roomName a) room && String.eqb (agentName a) agent
      then Some a
      else first_match room agent rest
  end.

(** [getActivity(roomName, agentName = 'task-assistant')] *)
Definition getActivity (room : string) (agent : option string)
  (t : AgentTracker) : option AgentActivity :=
  let agent := match agent with Some a => a | None => default_agent end in
  first_match room agent (JsMap.values (activities t)).

Definition getActivityByDispatchId (dispatch : string) (t : AgentTracker)
  : option AgentActivity :=
  get dispatch (activities t).

(** [markForCleanup(dispatchId, ttlSeconds?)].  The entry is updated
    before the log line is built; building it calls [toISOString()] on the
    new date, which throws on an Invalid Date. *)
Definition markForCleanup (dispatch : string)
  (ttlSeconds : option Number.number) (now : Z) (t : AgentTracker)
  : Effect :=
  match get dispatch (activities t) with
  | None => mkEffect t [(StdWarn, CannotMarkUnknown now dispatch)] None
  | Some activity =>
      let ttl :=
        match ttlSeconds with Some s => s | None => defaultTtlSeconds t end in
      let expiresAt :=
        Date.of_number
          (Number.add (Number.of_int now)
             (Number.mul ttl (Number.of_int 1000))) in
      let marked :=
        mkActivity (dispatchId activity) (roomName activity)
          (agentName activity) (createdAt activity)
          (lastActivityAt activity) 0 (Some expiresAt) in
      let t' := with_activities t (set dispatch marked (activities t)) in
      match expiresAt with
      | Date.At expires =>
          mkEffect t'
            [(StdLog,
              MarkedForCleanup now dispatch (roomName activity) ttl expires)]
            None
      | Date.Invalid =>
          mkEffect t' [] (Some (RangeError Date.invalid_time_value))
      end
  end.

(** [cancelCleanup(dispatchId)] *)
Definition cancelCleanup (dispatch : string) (now : Z) (t : AgentTracker)
  : AgentTracker * Output :=
  match get dispatch (activities t) with
  | Some activity =>
      let hadTTL :=
        match ttlExpiresAt activity with Some _ => true | None => false end in
      let cleared :=
        mkActivity (dispatchId activity) (roomName activity)
          (agentName activity) (createdAt activity)
          now (participantCount activity) None in
      (with_activities t (set dispatch cleared (activities t)),
       if hadTTL
       then [(StdLog, CancelledCleanup now dispatch (roomName activity))]
       else [])
  | None => (t, [])
  end.

Definition is_expired (now : Z) (a : AgentActivity) : bool :=
  match ttlExpiresAt a with
  | Some e => Date.le_time e now
  | None => false
  end.

(** [getExpiredAgents()] *)
Definition getExpiredAgents (now : Z) (t : AgentTracker)
  : list AgentActivity :=
  filter (is_expired now) (JsMap.values (activities t)).

(** [removeAgent(dispatchId)] *)
Definition removeAgent (dispatch : string) (now : Z) (t : AgentTracker)
  : AgentTracker * Output :=
  (with_activities t (delete dispatch (activities t)),
   match get dispatch (activities t) with
   | Some activity =>
       [(StdLog, RemovedFromTracking now dispatch (roomName activity))]
   | None => []
   end).

Definition getAllActivities (t : AgentTracker) : list AgentActivity :=
  JsMap.values (activities t).

Definition getActiveCount (t : AgentTracker) : Z :=
  JsMap.size (activities t).

Definition clear (t : AgentTracker) : AgentTracker := with_activities t [].

(** The calls a client of the tracker can make, each with the clock
    reading it observes. *)
Inductive Call : Type :=
| CTrack (dispatch room : string) (agent : option string)
    (participants : option Z) (now : Z)
| CMark (dispatch : string) (ttlSeconds : option Number.number) (now : Z)
| CCancel (dispatch : string) (now : Z)
| CRemove (dispatch : string) (now : Z)
| CClear.

Definition step (c : Call) (t : AgentTracker) : AgentTracker * Output :=
  match c with
  | CTrack d r a p now => trackActivity d r a p now t
  | CMark d ttl now =>
      (after (markForCleanup d ttl now t),
       printed (markForCleanup d ttl now t))
  | CCancel d now => cancelCleanup d now t
  | CRemove d now => removeAgent d now t
  | CClear => (clear t, [])
  end.

Fixpoint run (cs : list Call) (t : AgentTracker) : AgentTracker * Output :=
  match cs with
  | [] => (t, [])
  | c :: rest =>
      let '(t1, o1) := step c t in
      let '(t2, o2) := run rest t1 in
      (t2, o1 ++ o2)
  end.

(** The property "at most one entry per (roomName, agentName)". *)
Definition one_per_room_agent (t : AgentTracker) : Prop :=
  forall i j a b,
    nth_error (JsMap.values (activities t)) i = Some a ->
    nth_error (JsMap.values (activities t)) j = Some b ->
    roomName a = roomName b -> agentName a = agentName b -> i = j.

(** The property the map does maintain: keys are pairwise distinct and
    every entry sits under its own [dispatchId]. *)
Definition one_per_dispatch (t : AgentTracker) : Prop :=
  NoDup (JsMap.keys (activities t)) /\
  Forall (fun kv => dispatchId (snd kv) = fst kv) (activities t).

(** Some line of the output went to [console.warn]. *)
Definition warns (o : Output) : Prop :=
  exists l, In (StdWarn, l) o.

End Tracker.

(** ** cleanup-worker.ts *)

Module Cleanup.
Import Tracker.

(** What [await agentDispatchClient.deleteDispatch(id, room)] does: it
    resolves, or it throws ([message] is the thrown value's [message] when it
    is an [Error]). *)
Inductive DeleteOutcome : Type :=
| DeleteOk
| DeleteThrows (message : option string).

(** The external dispatch service, as far as the worker uses it.  The
    outcome may depend on the delete calls issued so far. *)
Definition Service : Type :=
  list (string * string) -> string -> string -> DeleteOutcome.

Inductive Line : Type :=
| FromTracker (l : Tracker.Line)
| NoExpiredFound (ts : Z)
| FoundExpired (ts : Z) (n : Z)
| CleanupCompleted (ts : Z) (n : Z)
| NoLongerExpired (ts : Z) (dispatch : string)
| TtlExtended (ts : Z) (dispatch : string)
| DeletingExpired (ts : Z) (dispatch room : string) (expiredAt : Z)
| CleanedUp (ts : Z) (dispatch room : string) (expiredAt : Z)
| FailedCleanup (ts : Z) (dispatch room message : string).

(** The process as the worker sees it: the tracker singleton, the
    [deleteDispatch] calls issued so far (dispatch id, room), the console. *)
Record World : Type := mkWorld {
  tracker : AgentTracker;
  deleted : list (string * string);
  console : list (Stream * Line)
}.

Definition say (w : World) (ls : list (Stream * Line)) : World :=
  mkWorld (tracker w) (deleted w) (console w ++ ls).

Definition lift (o : Tracker.Output) : list (Stream * Line) :=
  map (fun sl => (fst sl, FromTracker (snd sl))) o.

(** [cleanupAgent(agentDispatchClient, agent)].  [now] is the clock before
    the [await], [later] the clock after it.  An Invalid Date is neither
    null nor later than now, so the method goes on to build the log line of
    the deletion, where [toISOString()] throws before the delete call is
    made; the [catch] block prints the failure. *)
Definition cleanupAgent (svc : Service) (now later : Z)
  (agent : AgentActivity) (w : World) : World :=
  match getActivityByDispatchId (dispatchId agent) (tracker w) with
  | None => say w [(StdLog, NoLongerExpired now (dispatchId agent))]
  | Some currentActivity =>
      match ttlExpiresAt currentActivity with
      | None => say w [(StdLog, NoLongerExpired now (dispatchId agent))]
      | Some (Date.At expires) =>
          if now <? expires
          then say w [(StdLog, TtlExtended now (dispatchId agent))]
          else
            let w1 :=
              say w [(StdLog, DeletingExpired now (dispatchId agent)
                                (roomName agent) expires)] in
            let w2 :=
              mkWorld (tracker w1)
                (deleted w1 ++ [(dispatchId agent, roomName agent)])
                (console w1) in
            match svc (deleted w) (dispatchId agent) (roomName agent) with
            | DeleteOk =>
                let '(t', o) :=
                  removeAgent (dispatchId agent) later (tracker w2) in
                say (mkWorld t' (deleted w2) (console w2))
                  (lift o ++
                   [(StdLog, CleanedUp later (dispatchId agent)
                               (roomName agent) expires)])
            | DeleteThrows message =>
                say w2
                  [(StdError,
                    FailedCleanup later (dispatchId agent) (roomName agent)
                      (match message with
                       | Some m => m
                       | None => "Unknown error"
                       end))]
            end
      | Some Date.Invalid =>
          say w
            [(StdError,
              FailedCleanup now (dispatchId agent) (roomName agent)
                Date.invalid_time_value)]
      end
  end.

(** The [for ... of expiredAgents] loop; the [i]-th clock reading of the
    cycle is [clock i]. *)
Fixpoint cleanupEach (svc : Service) (clock : nat -> Z) (i : nat)
  (agents : list AgentActivity) (w : World) : World :=
  match agents with
  | [] => w
  | agent :: rest =>
      cleanupEach svc clock (S (S i)) rest
        (cleanupAgent svc (clock i) (clock (S i)) agent w)
  end.

(** [runCleanup()] *)
Definition runCleanup (svc : Service) (clock : nat -> Z) (w : World)
  : World :=
  let start := clock O in
  let expiredAgents := getExpiredAgents start (tracker w) in
  match expiredAgents with
  | [] => say w [(StdLog, NoExpiredFound start)]
  | _ =>
      let n := Z.of_nat (List.length expiredAgents) in
      let w1 := say w [(StdLog, FoundExpired start n)] in
      let w2 := cleanupEach svc clock 1%nat expiredAgents w1 in
      say w2
        [(StdLog,
          CleanupCompleted (clock (S (2 * List.length expiredAgents))) n)]
  end.

(** The worker is suspended at every [await]: the one on [deleteDispatch]
    inside [cleanupAgent], and the one on [cleanupAgent] in the loop of
    [runCleanup].  Request handlers of the same process can run there and
    call the tracker.  [meanwhile calls w] is the world after such
    calls. *)
Definition meanwhile (calls : list Tracker.Call) (w : World) : World :=
  let '(t', o) := Tracker.run calls (tracker w) in
  mkWorld t' (deleted w) (console w ++ lift o).

(** [currentActivity] is the object the map holds, not a copy: the
    tracker's methods change the fields of an entry in place, so calls
    made during an [await] show in [currentActivity] afterwards, as long as
    the object is the map's entry.  [removeAgent] and [clear] take it out
    of the map, and a later [trackActivity] makes a new object.
    [follow calls d obj t] is the object [obj], the entry under [d] of
    [t], after [calls]. *)
Fixpoint follow (calls : list Tracker.Call) (d : string)
  (obj : AgentActivity) (t : AgentTracker) : AgentActivity :=
  match calls with
  | [] => obj
  | c :: rest =>
      let t1 := fst (Tracker.step c t) in
      match get d (activities t1) with
      | Some entry => follow rest d entry t1
      | None => obj
      end
  end.

(** The message of the TypeError thrown by [x.toISOString()] when [x] is
    null, as Node.js words it. *)
Definition null_has_no_properties : string :=
  "Cannot read properties of null (reading 'toISOString')".

(** [cleanupAgent] with the tracker calls [during] landing while the
    delete call is awaited: after the call is issued, before
    [removeAgent] or the [catch] block runs.  The last log line reads
    [currentActivity.ttlExpiresAt] again; when that throws, the [catch]
    block prints the failure, after the entry has been removed. *)
Definition cleanupAgentAmid (svc : Service) (now later : Z)
  (during : list Tracker.Call) (agent : AgentActivity) (w : World) : World :=
  match getActivityByDispatchId (dispatchId agent) (tracker w) with
  | None => say w [(StdLog, NoLongerExpired now (dispatchId agent))]
  | Some currentActivity =>
      match ttlExpiresAt currentActivity with
      | None => say w [(StdLog, NoLongerExpired now (dispatchId agent))]
      | Some (Date.At expires) =>
          if now <? expires
          then say w [(StdLog, TtlExtended now (dispatchId agent))]
          else
            let w1 :=
              say w [(StdLog, DeletingExpired now (dispatchId agent)
                                (roomName agent) expires)] in
            let w2 :=
              mkWorld (tracker w1)
                (deleted w1 ++ [(dispatchId agent, roomName agent)])
                (console w1) in
            let w3 := meanwhile during w2 in
            match svc (deleted w) (dispatchId agent) (roomName agent) with
            | DeleteOk =>
                let '(t', o) :=
                  removeAgent (dispatchId agent) later (tracker w3) in
                let fails message :=
                  (StdError,
                   FailedCleanup later (dispatchId agent) (roomName agent)
                     message) in
                say (mkWorld t' (deleted w3) (console w3))
                  (lift o ++
                   [match
                      ttlExpiresAt
                        (follow during (dispatchId agent) currentActivity
                           (tracker w2))
                    with
                    | Some (Date.At expiredAt) =>
                        (StdLog, CleanedUp later (dispatchId agent)
                                   (roomName agent) expiredAt)
                    | Some Date.Invalid => fails Date.invalid_time_value
                    | None => fails null_has_no_properties
                    end])
            | DeleteThrows message =>
                say w3
                  [(StdError,
                    FailedCleanup later (dispatchId agent) (roomName agent)
                      (match message with
                       | Some m => m
                       | None => "Unknown error"
                       end))]
            end
      | Some Date.Invalid =>
          say w
            [(StdError,
              FailedCleanup now (dispatchId agent) (roomName agent)
                Date.invalid_time_value)]
      end
  end.

(** The loop with other handlers running: [others i] are the tracker calls
    that land at the await reached with clock reading [clock i] behind it;
    an even [i] is the await on the loop's [cleanupAgent], an odd [i] the
    one on [deleteDispatch]. *)
Fixpoint cleanupEachAmid (svc : Service) (clock : nat -> Z)
  (others : nat -> list Tracker.Call) (i : nat)
  (agents : list AgentActivity) (w : World) : World :=
  match agents with
  | [] => w
  | agent :: rest =>
      cleanupEachAmid svc clock others (S (S i)) rest
        (meanwhile (others (S i))
           (cleanupAgentAmid svc (clock i) (clock (S i)) (others i) agent w))
  end.

(** [runCleanup()] with other handlers running at its awaits. *)
Definition runCleanupAmid (svc : Service) (clock : nat -> Z)
  (others : nat -> list Tracker.Call) (w : World) : World :=
  let start := clock O in
  let expiredAgents := getExpiredAgents start (tracker w) in
  match expiredAgents with
  | [] => say w [(StdLog, NoExpiredFound start)]
  | _ =>
      let n := Z.of_nat (List.length expiredAgents) in
      let w1 := say w [(StdLog, FoundExpired start n)] in
      let w2 := cleanupEachAmid svc clock others 1%nat expiredAgents w1 in
      say w2
        [(StdLog,
          CleanupCompleted (clock (S (2 * List.length expiredAgents))) n)]
  end.

(** No other handler touches the tracker while the cycle runs. *)
Definition undisturbed (others : nat -> list Tracker.Call) : Prop :=
  forall i, others i = [].

End Cleanup.

(** ** app/api/livekit/dispatch-agent/route.ts *)

Module Dispatch.

Definition AGENT_NAME : string := "task-assistant".

Record Env : Type := mkEnv {
  LIVEKIT_API_KEY : option string;
  LIVEKIT_API_SECRET : option string;
  NEXT_PUBLIC_LIVEKIT_URL : option string
}.

(** [!x] on an environment variable is false exactly when it is set and
    not empty. *)
Definition configured (x : option string) : option string :=
  match x with
  | Some s => if String.eqb s EmptyString then None else Some s
  | None => None
  end.

(** The fields the handler destructures from the parsed body. *)
Record Body : Type := mkBody {
  roomName : JsValue;
  timezone : JsValue;
  timezoneOffset : JsValue
}.

(** [await req.json()] followed by the destructuring either throws or
    yields the three fields. *)
Inductive Request : Type :=
| BodyThrows (message : option string)
| BodyParsed (b : Body).

Record Metadata : Type := mkMetadata {
  type : string;
  features : list string;
  meta_timezone : JsValue;
  meta_timezoneOffset : JsValue
}.

Record DispatchRec : Type := mkDispatch {
  id : string;
  room : string;
  agent : string;
  metadata : Metadata
}.

(** Everything the handler could ask of the outside world.  The handler
    below only ever issues [CreateDispatch]. *)
Inductive Effect : Type :=
| CreateDispatch (host room agent : string) (metadata : Metadata)
| ListDispatch (host room : string)
| DeleteDispatch (host dispatch room : string)
| Sleep (ms : Z).

(** What [await agentDispatchClient.createDispatch(...)] does: it resolves
    with the new dispatch; or it throws with nothing registered; or it
    throws although the server has registered the dispatch (its reply is
    lost or late). *)
Inductive CreateOutcome : Type :=
| Created (id : string)
| CreateThrows (message : option string)
| CreateThrowsAfterRegistering (id : string) (message : option string).

(** The [message] of the error the create call throws, if it throws. *)
Definition thrown (o : CreateOutcome) : option (option string) :=
  match o with
  | Created _ => None
  | CreateThrows message => Some message
  | CreateThrowsAfterRegistering _ message => Some message
  end.

Inductive Line : Type :=
| CredentialsNotConfigured
| CreatingDispatch (room : string)
| DispatchedSuccessfully (id : string)
| ErrorDispatching (message : option string).

Record World : Type := mkWorld {
  registry : list DispatchRec;
  effects : list Effect;
  tracker : Tracker.AgentTracker;
  console : list (Stream * Line)
}.

(** The external dispatch service: the outcome of a create call may depend
    on the registered dispatches and on the calls made so far. *)
Definition Service : Type :=
  list DispatchRec -> list Effect -> string -> string -> Metadata ->
  CreateOutcome.

Record Response : Type := mkResponse {
  status : Z;
  body : list (string * JsValue)
}.

Fixpoint strip_prefix (p s : string) : option string :=
  match p with
  | EmptyString => Some s
  | String a p' =>
      match s with
      | EmptyString => None
      | String b s' => if Ascii.eqb a b then strip_prefix p' s' else None
      end
  end.

(** [s.replace(pat, rep)] for a string pattern: the first occurrence only. *)
Fixpoint replace_first (pat rep s : string) : string :=
  match strip_prefix pat s with
  | Some rest => String.append rep rest
  | None =>
      match s with
      | EmptyString => EmptyString
      | String c s' => String c (replace_first pat rep s')
      end
  end.

Definition livekitHost (wsUrl : string) : string :=
  replace_first "ws://" "http://" (replace_first "wss://" "https://" wsUrl).

Definition say (w : World) (ls : list (Stream * Line)) : World :=
  mkWorld (registry w) (effects w) (tracker w) (console w ++ ls).

Definition failure (message : option string) (w : World)
  : Response * World :=
  (mkResponse 500
     [("error", VString "Failed to dispatch agent");
      ("details",
       VString (match message with
                | Some m => m
                | None => "Unknown error"
                end))],
   say w [(StdError, ErrorDispatching message)]).

(** The text [Missing or invalid "roomName" parameter]. *)
Definition missing_room_name : string :=
  String.append "Missing or invalid "
    (String (Ascii.ascii_of_nat 34)
       (String.append "roomName"
          (String (Ascii.ascii_of_nat 34) " parameter"))).

(** The [metadata] object literal of the handler. *)
Definition metadata_of (b : Body) : Metadata :=
  mkMetadata "voice-assistant"
    ["task-management"; "voice-commands"]
    (js_or (timezone b) (VString "UTC"))
    (js_or (timezoneOffset b) (VNumber 0)).

(** [POST(req)] *)
Definition POST (svc : Service) (env : Env) (req : Request) (w : World)
  : Response * World :=
  match req with
  | BodyThrows message => failure message w
  | BodyParsed b =>
      match roomName b with
      | VString name =>
          if String.eqb name EmptyString
          then
            (mkResponse 400
               [("error", VString missing_room_name)],
             w)
          else
            match configured (LIVEKIT_API_KEY env),
                  configured (LIVEKIT_API_SECRET env),
                  configured (NEXT_PUBLIC_LIVEKIT_URL env) with
            | Some apiKey, Some apiSecret, Some wsUrl =>
                let host := livekitHost wsUrl in
                let metadata := metadata_of b in
                let w1 := say w [(StdLog, CreatingDispatch name)] in
                let w2 :=
                  mkWorld (registry w1)
                    (effects w1 ++
                     [CreateDispatch host name AGENT_NAME metadata])
                    (tracker w1) (console w1) in
                match svc (registry w) (effects w) name AGENT_NAME
                        metadata with
                | Created dispatch_id =>
                    let w3 :=
                      mkWorld
                        (registry w2 ++
                         [mkDispatch dispatch_id name AGENT_NAME metadata])
                        (effects w2) (tracker w2) (console w2) in
                    (mkResponse 200
                       [("success", VBool true);
                        ("dispatchId", VString dispatch_id)],
                     say w3 [(StdLog, DispatchedSuccessfully dispatch_id)])
                | CreateThrows message => failure message w2
                | CreateThrowsAfterRegistering dispatch_id message =>
                    failure message
                      (mkWorld
                         (registry w2 ++
                          [mkDispatch dispatch_id name AGENT_NAME metadata])
                         (effects w2) (tracker w2) (console w2))
                end
            | _, _, _ =>
                (mkResponse 500
                   [("error",
                     VString
                       "Server misconfigured: Missing LiveKit credentials")],
                 say w [(StdError, CredentialsNotConfigured)])
            end
      | _ =>
          (mkResponse 400
             [("error", VString missing_room_name)],
           w)
      end
  end.

Definition field (name : string) (r : Response) : option JsValue :=
  JsMap.get String.eqb name (body r).

(** lib/useLivekit.ts: [dispatchData.reused === true] *)
Definition client_sees_reused (r : Response) : bool :=
  match field "reused" r with
  | Some (VBool true) => true
  | _ => false
  end.

Definition dispatches_for (r : string) (reg : list DispatchRec)
  : list DispatchRec :=
  filter (fun d => String.eqb (room d) r) reg.

Definition is_create (e : Effect) : bool :=
  match e with CreateDispatch _ _ _ _ => true | _ => false end.

Definition is_sleep (e : Effect) : bool :=
  match e with Sleep _ => true | _ => false end.

(** The create calls / timer delays a handler run added to the world. *)
Definition creates_issued (w w' : World) : nat :=
  (List.length (filter is_create (effects w')) -
   List.length (filter is_create (effects w)))%nat.

Definition delays_issued (w w' : World) : list Effect :=
  skipn (List.length (filter is_sleep (effects w)))
    (filter is_sleep (effects w')).

(** What "the connect reports reuse of [existing]" means for one run of
    the handler from [w] to [w']. *)
Definition reports_reuse_of (existing : DispatchRec) (r : Response)
  (w w' : World) : Prop :=
  field "reused" r = Some (VBool true) /\
  field "dispatchId" r = Some (VString (id existing)) /\
  creates_issued w w' = 0%nat.

(** What "creation was retried" means for one run of the handler. *)
Definition retried (w w' : World) : Prop :=
  (1 < creates_issued w w')%nat.

End Dispatch.

(** ** log-rate-limiter.ts *)

Module Limiter.

Inductive LogLevel : Type := ERROR | WARN | INFO | DEBUG.

Definition level_eqb (a b : LogLevel) : bool :=
  match a, b with
  | ERROR, ERROR | WARN, WARN | INFO, INFO | DEBUG, DEBUG => true
  | _, _ => false
  end.

Record AggregatedMessage : Type := mkAggregated {
  count : Z;
  firstSeen : Z;
  lastSeen : Z;
  level : LogLevel
}.

Record LogRateLimiter : Type := mkLimiter {
  maxLogsPerSecond : Number.number;
  bucketSize : Number.number;
  tokens : Number.number;
  lastRefillTime : Z;
  droppedCount : Z;
  droppedByLevel : list (LogLevel * Z);
  lastDroppedReportTime : Z;
  messageAggregation : list (string * AggregatedMessage);
  lastAggregationCleanup : Z
}.

Definition droppedReportIntervalMs : Z := 60000.
Definition aggregationWindowMs : Z := 60000.

(** *** The regular expressions of the class *)

(** The fragment of regular expressions [aggregationPatterns] uses:
    literals, concatenation, alternation; all matched with the [i] flag. *)
Inductive Re : Type :=
| Lit (s : string)
| Seq (a b : Re)
| Alt (a b : Re).

Definition is_digit (c : ascii) : bool :=
  let n := nat_of_ascii c in (48 <=? n)%nat && (n <=? 57)%nat.

(** Case folding of the [i] flag restricted to code units: only the ASCII
    letters have a partner. *)
Definition fold_case (c : ascii) : ascii :=
  let n := nat_of_ascii c in
  if (65 <=? n)%nat && (n <=? 90)%nat then ascii_of_nat (n + 32) else c.

Fixpoint strip_prefix_ci (p s : string) : option string :=
  match p with
  | EmptyString => Some s
  | String a p' =>
      match s with
      | EmptyString => None
      | String b s' =>
          if Ascii.eqb (fold_case a) (fold_case b)
          then strip_prefix_ci p' s'
          else None
      end
  end.

(** The suffixes left after each way [r] matches at the start of [s]. *)
Fixpoint match_here (r : Re) (s : string) : list string :=
  match r with
  | Lit l =>
      match strip_prefix_ci l s with
      | Some rest => [rest]
      | None => []
      end
  | Seq a b => flat_map (match_here b) (match_here a s)
  | Alt a b => match_here a s ++ match_here b s
  end.

Definition matches_here (r : Re) (s : string) : bool :=
  match match_here r s with
  | [] => false
  | _ :: _ => true
  end.

(** [pattern.test(message)]: a match starting anywhere. *)
Fixpoint test (r : Re) (s : string) : bool :=
  matches_here r s ||
  match s with
  | EmptyString => false
  | String _ s' => test r s'
  end.

Definition aggregationPatterns : list Re :=
  [ Lit "process memory usage";
    Lit "connection event";
    Seq (Lit "participant ") (Alt (Lit "connected") (Lit "disconnected"));
    Lit "health check" ].

(** [shouldAggregate(message)] *)
Definition shouldAggregate (message : string) : bool :=
  existsb (fun pattern => test pattern message) aggregationPatterns.

(** [.replace(/\d+/g, 'N')]; [in_run] says the previous code unit was a
    digit of the run being replaced. *)
Fixpoint replace_digit_runs (in_run : bool) (s : string) : string :=
  match s with
  | EmptyString => EmptyString
  | String c s' =>
      if is_digit c
      then if in_run
           then replace_digit_runs true s'
           else String "N" (replace_digit_runs true s')
      else String c (replace_digit_runs false s')
  end.

(** One step of the timestamp pattern: [d] for a digit, a character for
    itself. *)
Inductive Shape : Type := D | C (c : ascii).

Fixpoint shaped (shape : list Shape) (s : string) : bool :=
  match shape with
  | [] => true
  | x :: shape' =>
      match s with
      | EmptyString => false
      | String c s' =>
          match x with
          | D => is_digit c
          | C c' => Ascii.eqb c c'
          end && shaped shape' s'
      end
  end.

(** [/\d{4}-\d{2}-\d{2}T\d{2}:\d{2}:\d{2}/] *)
Definition timestamp_shape : list Shape :=
  [D; D; D; D; C "-"; D; D; C "-"; D; D; C "T";
   D; D; C ":"; D; D; C ":"; D; D]%char.

(** [.replace(/\d{4}-\d{2}-\d{2}T\d{2}:\d{2}:\d{2}/g, 'TIMESTAMP')];
    [skip] counts the code units of the current match still to be
    consumed. *)
Fixpoint replace_timestamps (skip : nat) (s : string) : string :=
  match s with
  | EmptyString => EmptyString
  | String c s' =>
      match skip with
      | S k => replace_timestamps k s'
      | O =>
          if shaped timestamp_shape (String c s')
          then String.append "TIMESTAMP"
                 (replace_timestamps (List.length timestamp_shape - 1) s')
          else String c (replace_timestamps O s')
      end
  end.

(** [getAggregationKey(message)] *)
Definition getAggregationKey (message : string) : string :=
  String.substring 0 100
    (replace_timestamps 0 (replace_digit_runs false message)).

(** *** Console *)

Inductive Line : Type :=
| Plain (level : LogLevel) (message : string) (args : list string)
| AggregatedSummary (level : LogLevel) (count : Z) (windowSeconds : Z)
    (key : string)
| DroppedReport (total : Z) (windowSeconds : Z)
    (breakdown : list (LogLevel * Z)).

Definition Output : Type := list (Stream * Line).

(** *** Methods *)

Definition initial_dropped : list (LogLevel * Z) :=
  JsMap.set level_eqb DEBUG 0
    (JsMap.set level_eqb INFO 0
       (JsMap.set level_eqb WARN 0
          (JsMap.set level_eqb ERROR 0 []))).

(** The default value of the constructor's parameter. *)
Definition configured_rate (maxLogsPerSecond : option Number.number)
  : Number.number :=
  match maxLogsPerSecond with Some r => r | None => Number.of_int 400 end.

(** [constructor(maxLogsPerSecond = 400)], run at clock reading [now]. *)
Definition new (maxLogsPerSecond : option Number.number) (now : Z)
  : LogRateLimiter :=
  let rate := configured_rate maxLogsPerSecond in
  mkLimiter rate rate rate now 0 initial_dropped now [] now.

(** [refillTokens()].  The two clock readings are whole numbers of
    milliseconds, so their difference is computed exactly before it enters
    the floating-point division. *)
Definition refillTokens (now : Z) (s : LogRateLimiter) : LogRateLimiter :=
  let elapsedMs := Number.of_int (now - lastRefillTime s) in
  let elapsedSeconds := Number.div elapsedMs (Number.of_int 1000) in
  let tokensToAdd := Number.mul elapsedSeconds (maxLogsPerSecond s) in
  mkLimiter (maxLogsPerSecond s) (bucketSize s)
    (Number.min (bucketSize s) (Number.add (tokens s) tokensToAdd))
    now
    (droppedCount s) (droppedByLevel s) (lastDroppedReportTime s)
    (messageAggregation s) (lastAggregationCleanup s).

Definition with_tokens (s : LogRateLimiter) (t : Number.number)
  : LogRateLimiter :=
  mkLimiter (maxLogsPerSecond s) (bucketSize s) t (lastRefillTime s)
    (droppedCount s) (droppedByLevel s) (lastDroppedReportTime s)
    (messageAggregation s) (lastAggregationCleanup s).

Definition with_dropped (s : LogRateLimiter) (n : Z)
  (by_level : list (LogLevel * Z)) : LogRateLimiter :=
  mkLimiter (maxLogsPerSecond s) (bucketSize s) (tokens s) (lastRefillTime s)
    n by_level (lastDroppedReportTime s)
    (messageAggregation s) (lastAggregationCleanup s).

Definition with_aggregation (s : LogRateLimiter)
  (m : list (string * AggregatedMessage)) (cleanup : Z) : LogRateLimiter :=
  mkLimiter (maxLogsPerSecond s) (bucketSize s) (tokens s) (lastRefillTime s)
    (droppedCount s) (droppedByLevel s) (lastDroppedReportTime s)
    m cleanup.

Definition with_report_time (s : LogRateLimiter) (t : Z) : LogRateLimiter :=
  mkLimiter (maxLogsPerSecond s) (bucketSize s) (tokens s) (lastRefillTime s)
    (droppedCount s) (droppedByLevel s) t
    (messageAggregation s) (lastAggregationCleanup s).

(** [aggregateMessage(level, message)] *)
Definition aggregateMessage (level : LogLevel) (message : string) (now : Z)
  (s : LogRateLimiter) : LogRateLimiter :=
  let key := getAggregationKey message in
  match JsMap.get String.eqb key (messageAggregation s) with
  | Some existing =>
      with_aggregation s
        (JsMap.set String.eqb key
           (mkAggregated (count existing + 1) (firstSeen existing) now
              (Limiter.level existing))
           (messageAggregation s))
        (lastAggregationCleanup s)
  | None =>
      with_aggregation s
        (JsMap.set String.eqb key (mkAggregated 1 now now level)
           (messageAggregation s))
        (lastAggregationCleanup s)
  end.

Definition summary_lines (m : list (string * AggregatedMessage)) : Output :=
  flat_map
    (fun entry =>
       let '(key, data) := entry in
       if 1 <? count data
       then [(StdLog,
              AggregatedSummary (level data) (count data)
                (aggregationWindowMs / 1000) key)]
       else [])
    m.

(** [flushAggregatedMessages()] *)
Definition flushAggregatedMessages (now : Z) (s : LogRateLimiter)
  : LogRateLimiter * Output :=
  if now - lastAggregationCleanup s <? aggregationWindowMs
  then (s, [])
  else (with_aggregation s [] now, summary_lines (messageAggregation s)).

(** [shouldLog(level)] *)
Definition shouldLog (level : LogLevel) (now : Z) (s : LogRateLimiter)
  : bool * LogRateLimiter :=
  let s := refillTokens now s in
  match level with
  | ERROR =>
      if Number.ge (tokens s) Number.one
      then (true, with_tokens s (Number.sub (tokens s) Number.one))
      else (true, s)
  | _ =>
      if Number.ge (tokens s) Number.one
      then (true, with_tokens s (Number.sub (tokens s) Number.one))
      else
        let currentCount :=
          match JsMap.get level_eqb level (droppedByLevel s) with
          | Some n => n
          | None => 0
          end in
        (false,
         with_dropped s (droppedCount s + 1)
           (JsMap.set level_eqb level (currentCount + 1) (droppedByLevel s)))
  end.

Definition stream_of (level : LogLevel) : Stream :=
  match level with
  | ERROR => StdError
  | WARN => StdWarn
  | INFO => StdInfo
  | DEBUG => StdLog
  end.

(** [log(level, message, ...args)] *)
Definition log (level : LogLevel) (message : string) (args : list string)
  (now : Z) (s : LogRateLimiter) : LogRateLimiter * Output :=
  if shouldAggregate message
  then (aggregateMessage level message now s, [])
  else
    let '(allowed, s') := shouldLog level now s in
    if allowed
    then (s', [(stream_of level, Plain level message args)])
    else (s', []).

(** [resetDroppedCount()] *)
Definition resetDroppedCount (s : LogRateLimiter) : LogRateLimiter :=
  with_dropped s 0
    (JsMap.set level_eqb DEBUG 0
       (JsMap.set level_eqb INFO 0
          (JsMap.set level_eqb WARN 0
             (JsMap.set level_eqb ERROR 0 (droppedByLevel s))))).

(** The callback [startDroppedLogReporting()] hands to [setInterval]. *)
Definition reportTick (now : Z) (s : LogRateLimiter)
  : LogRateLimiter * Output :=
  let '(s1, flushed) := flushAggregatedMessages now s in
  if droppedReportIntervalMs <=? now - lastDroppedReportTime s1
  then
    if 0 <? droppedCount s1
    then
      let breakdown :=
        filter (fun entry => 0 <? snd entry) (droppedByLevel s1) in
      (with_report_time (resetDroppedCount s1) now,
       flushed ++
       [(StdWarn,
         DroppedReport (droppedCount s1) (droppedReportIntervalMs / 1000)
           breakdown)])
    else (with_report_time s1 now, flushed)
  else (s1, flushed).

(** The events that drive a limiter, each with its clock reading. *)
Inductive Call : Type :=
| CLog (level : LogLevel) (message : string) (args : list string) (now : Z)
| CTick (now : Z)
| CReset.

Definition step (c : Call) (s : LogRateLimiter) : LogRateLimiter * Output :=
  match c with
  | CLog level message args now => log level message args now s
  | CTick now => reportTick now s
  | CReset => (resetDroppedCount s, [])
  end.

Fixpoint run (cs : list Call) (s : LogRateLimiter)
  : LogRateLimiter * Output :=
  match cs with
  | [] => (s, [])
  | c :: rest =>
      let '(s1, o1) := step c s in
      let '(s2, o2) := run rest s1 in
      (s2, o1 ++ o2)
  end.

(** Successive clock readings never decrease, starting from [t]. *)
Fixpoint clock_monotone (t : Z) (cs : list Call) : Prop :=
  match cs with
  | [] => True
  | CLog _ _ _ now :: rest => t <= now /\ clock_monotone now rest
  | CTick now :: rest => t <= now /\ clock_monotone now rest
  | CReset :: rest => clock_monotone t rest
  end.

(** Every clock reading of the calls is at most [limit]. *)
Fixpoint clock_below (limit : Z) (cs : list Call) : Prop :=
  match cs with
  | [] => True
  | CLog _ _ _ now :: rest => now <= limit /\ clock_below limit rest
  | CTick now :: rest => now <= limit /\ clock_below limit rest
  | CReset :: rest => clock_below limit rest
  end.

(** The bucket invariant [0 <= tokens <= bucketSize], with the
    comparisons of JavaScript: both fail on NaN. *)
Definition bucket_ok (s : LogRateLimiter) : Prop :=
  Number.le (Number.Zero false) (tokens s) = true /\
  Number.le (tokens s) (bucketSize s) = true.

(** A rate the bound can be kept for: a finite binary64 number that is
    not negative. *)
Definition rate_ok (rate : Number.number) : Prop :=
  Number.binary64 rate = true /\
  Number.is_finite rate = true /\
  Number.nonneg rate.

(** The invariant carried along a run: the bucket bound on binary64
    numbers, a finite bucket size, a rate that is finite and not negative,
    and a refill time between 0 and the clock [t]. *)
Definition inv (t : Z) (s : LogRateLimiter) : Prop :=
  bucket_ok s /\
  Number.binary64 (tokens s) = true /\
  Number.binary64 (bucketSize s) = true /\
  Number.is_finite (bucketSize s) = true /\
  Number.is_finite (maxLogsPerSecond s) = true /\
  Number.nonneg (maxLogsPerSecond s) /\
  0 <= lastRefillTime s <= t.

(** The line [log] prints for an admitted message was printed. *)
Definition emitted (level : LogLevel) (message : string)
  (args : list string) (o : Output) : Prop :=
  In (stream_of level, Plain level message args) o.

(** Everything but [lastRefillTime] is the same in [s] and [s']. *)
Definition same_but_refill_time (s s' : LogRateLimiter) : Prop :=
  maxLogsPerSecond s' = maxLogsPerSecond s /\
  bucketSize s' = bucketSize s /\
  tokens s' = tokens s /\
  droppedCount s' = droppedCount s /\
  droppedByLevel s' = droppedByLevel s /\
  lastDroppedReportTime s' = lastDroppedReportTime s /\
  messageAggregation s' = messageAggregation s /\
  lastAggregationCleanup s' = lastAggregationCleanup s.

(** The occurrences counted so far under [key] in the current window. *)
Definition key_count (key : string) (s : LogRateLimiter) : Z :=
  match JsMap.get String.eqb key (messageAggregation s) with
  | Some data => count data
  | None => 0
  end.

(** [c] is a [log] call of a noisy message that normalises to [key]. *)
Definition occurrence_of (key : string) (c : Call) : Prop :=
  match c with
  | CLog _ message _ _ =>
      shouldAggregate message = true /\ getAggregationKey message = key
  | _ => False
  end.

(** [c] is a [log] call at ERROR level of a message that is not noisy. *)
Definition plain_error (c : Call) : Prop :=
  match c with
  | CLog ERROR message _ _ => shouldAggregate message = false
  | _ => False
  end.

Definition line_of (c : Call) : Output :=
  match c with
  | CLog level message args _ => [(stream_of level, Plain level message args)]
  | _ => []
  end.

Fixpoint no_digit (s : string) : bool :=
  match s with
  | EmptyString => true
  | String c s' => negb (is_digit c) && no_digit s'
  end.

End Limiter.

(** ** cleanup-worker.ts: the worker's life cycle and the singleton *)

Module Worker.
Import Tracker.

(** A [number] that may be [NaN]: what [parseInt] returns. *)
Inductive Interval : Type :=
| Ms (ms : Z)
| NotANumber.

Record CleanupWorker : Type := mkWorker {
  intervalId : option nat;
  intervalMs : Interval;
  livekitHost : string;
  apiKey : string;
  apiSecret : string;
  isRunning : bool
}.

Inductive Line : Type :=
| AlreadyRunning (ts : Z)
| Starting (ts : Z) (interval : Interval)
| NotRunning (ts : Z)
| Stopping (ts : Z)
| Cycle (l : Cleanup.Line)
| CredentialsMissing
| InitializedAndStarted (ts : Z)
| NotInitialized (ts : Z)
| WorkerStopped (ts : Z).

(** The process around the worker: the tracker singleton, the delete calls
    issued so far, the live [setInterval] handles with their period, the
    next handle the runtime will hand out, the console. *)
Record Process : Type := mkProcess {
  tracker : AgentTracker;
  deleted : list (string * string);
  timers : list (nat * Interval);
  next_handle : nat;
  console : list (Stream * Line)
}.

(** [constructor(livekitHost, apiKey, apiSecret, intervalMs = 60000)] *)
Definition new (host key secret : string) (interval : option Interval)
  : CleanupWorker :=
  mkWorker None
    (match interval with Some i => i | None => Ms 60000 end)
    host key secret false.

Definition say (p : Process) (ls : list (Stream * Line)) : Process :=
  mkProcess (tracker p) (deleted p) (timers p) (next_handle p)
    (console p ++ ls).

(** [this.runCleanup()], run to completion; its lines go to the process
    console. *)
Definition cycle (svc : Cleanup.Service) (clock : nat -> Z) (p : Process)
  : Process :=
  let w :=
    Cleanup.runCleanup svc clock
      (Cleanup.mkWorld (tracker p) (deleted p) []) in
  mkProcess (Cleanup.tracker w) (Cleanup.deleted w) (timers p)
    (next_handle p)
    (console p
     ++ map (fun sl => (fst sl, Cycle (snd sl))) (Cleanup.console w)).

(** [start()]; [clock 0] is read on entry, the later readings belong to
    the immediate cleanup run.  [start] does not await that run: the
    timer is registered when the run reaches its first [await], and the
    run ends later.  The run neither reads nor prints anything the
    registration changes, so it is written here before the registration,
    taken through to its end. *)
Definition start (svc : Cleanup.Service) (clock : nat -> Z)
  (wk : CleanupWorker) (p : Process) : CleanupWorker * Process :=
  if isRunning wk
  then (wk, say p [(StdLog, AlreadyRunning (clock O))])
  else
    let p1 := say p [(StdLog, Starting (clock O) (intervalMs wk))] in
    let p2 := cycle svc (fun i => clock (S i)) p1 in
    let handle := next_handle p2 in
    (mkWorker (Some handle) (intervalMs wk) (livekitHost wk) (apiKey wk)
       (apiSecret wk) true,
     mkProcess (tracker p2) (deleted p2)
       (timers p2 ++ [(handle, intervalMs wk)]) (S handle) (console p2)).

(** [clearInterval(handle)] *)
Definition clearInterval (handle : nat) (ts : list (nat * Interval))
  : list (nat * Interval) :=
  filter (fun t => negb (Nat.eqb (fst t) handle)) ts.

(** [stop()] *)
Definition stop (now : Z) (wk : CleanupWorker) (p : Process)
  : CleanupWorker * Process :=
  if negb (isRunning wk)
  then (wk, say p [(StdLog, NotRunning now)])
  else
    let p1 := say p [(StdLog, Stopping now)] in
    let p2 :=
      match intervalId wk with
      | Some handle =>
          mkProcess (tracker p1) (deleted p1)
            (clearInterval handle (timers p1)) (next_handle p1) (console p1)
      | None => p1
      end in
    (mkWorker None (intervalMs wk) (livekitHost wk) (apiKey wk)
       (apiSecret wk) false,
     p2).

(** [isActive()] *)
Definition isActive (wk : CleanupWorker) : bool := isRunning wk.

(** The runtime fires interval [handle]: the callback of [start] runs a
    cleanup cycle, provided the handle is still live. *)
Definition fire (svc : Cleanup.Service) (clock : nat -> Z) (handle : nat)
  (p : Process) : Process :=
  if existsb (fun t => Nat.eqb (fst t) handle) (timers p)
  then cycle svc clock p
  else p.

Record Env : Type := mkEnv {
  NEXT_PUBLIC_LIVEKIT_URL : option string;
  LIVEKIT_API_KEY : option string;
  LIVEKIT_API_SECRET : option string;
  CLEANUP_INTERVAL_MS : option string
}.

Section Singleton.

(** [parseInt(text, 10)], a built-in, is left abstract. *)
Variable parseInt10 : string -> Interval.

(** [getCleanupWorker()]; [instance] is the module variable
    [cleanupWorkerInstance]. *)
Definition getCleanupWorker (env : Env) (instance : option CleanupWorker)
  (p : Process) : option CleanupWorker * option CleanupWorker * Process :=
  match Dispatch.configured (NEXT_PUBLIC_LIVEKIT_URL env),
        Dispatch.configured (LIVEKIT_API_KEY env),
        Dispatch.configured (LIVEKIT_API_SECRET env) with
  | Some wsUrl, Some key, Some secret =>
      match instance with
      | Some wk => (Some wk, Some wk, p)
      | None =>
          let interval :=
            match Dispatch.configured (CLEANUP_INTERVAL_MS env) with
            | Some text => parseInt10 text
            | None => Ms 60000
            end in
          let wk :=
            new (Dispatch.livekitHost wsUrl) key secret (Some interval) in
          (Some wk, Some wk, p)
      end
  | _, _, _ => (None, instance, say p [(StdWarn, CredentialsMissing)])
  end.

(** [initializeCleanupWorker()]; the worker object is the one the module
    variable points to, so starting it updates the instance. *)
Definition initializeCleanupWorker (svc : Cleanup.Service)
  (clock : nat -> Z) (env : Env) (instance : option CleanupWorker)
  (p : Process) : option CleanupWorker * Process :=
  let '(worker, instance1, p1) := getCleanupWorker env instance p in
  match worker with
  | Some wk =>
      if negb (isActive wk)
      then
        let '(wk', p2) := start svc (fun i => clock (S i)) wk p1 in
        (Some wk', say p2 [(StdLog, InitializedAndStarted (clock O))])
      else (instance1, p1)
  | None => (instance1, say p1 [(StdWarn, NotInitialized (clock O))])
  end.

(** [shutdownCleanupWorker()] *)
Definition shutdownCleanupWorker (now : Z)
  (instance : option CleanupWorker) (p : Process)
  : option CleanupWorker * Process :=
  match instance with
  | Some wk =>
      if isActive wk
      then
        let '(wk', p1) := stop now wk p in
        (Some wk', say p1 [(StdLog, WorkerStopped now)])
      else (instance, p)
  | None => (instance, p)
  end.

End Singleton.

(** Every live handle was handed out before [next_handle]. *)
Definition handles_fresh (p : Process) : Prop :=
  Forall (fun t => (fst t < next_handle p)%nat) (timers p).

End Worker.

(** ** app/api/livekit/agent-status/route.ts *)

Module Status.
Import Tracker.

Definition AGENT_NAME : string := "task-assistant".

(** The values of the JSON answer; [SIso ms] is [date.toISOString()] of the
    date with millisecond value [ms]. *)
Inductive Value : Type :=
| SBool (b : bool)
| SNumber (n : Z)
| SString (s : string)
| SIso (ms : Z)
| SNull.

Inductive Line : Type :=
| InvalidRequest (ts : Z)
| Querying (ts : Z) (room : string)
| NoAgentFound (ts : Z) (room : string)
| FoundAgent (ts : Z) (room dispatch : string) (participants : Z)
    (ttl : option Z)
| ErrorQuerying (ts : Z) (message : string).

Record Response : Type := mkResponse {
  status : Z;
  body : list (string * Value)
}.

(** The text [Missing or invalid "roomName" query parameter]. *)
Definition missing_room_name : string :=
  String.append "Missing or invalid "
    (String (Ascii.ascii_of_nat 34)
       (String.append "roomName"
          (String (Ascii.ascii_of_nat 34) " query parameter"))).

(** [GET(req)]; [roomName] is [searchParams.get('roomName')].  Building
    the log line of a found agent calls [toISOString()] on its
    ttlExpiresAt, which throws on an Invalid Date; the [catch] block
    answers 500. *)
Definition GET (roomName : option string) (now : Z) (t : AgentTracker)
  : Response * list (Stream * Line) :=
  match Dispatch.configured roomName with
  | None =>
      (mkResponse 400 [("error", SString missing_room_name)],
       [(StdWarn, InvalidRequest now)])
  | Some room =>
      match getActivity room (Some AGENT_NAME) t with
      | None =>
          (mkResponse 200 [("hasAgent", SBool false)],
           [(StdLog, Querying now room); (StdLog, NoAgentFound now room)])
      | Some activity =>
          let found (ttl : option Z) :=
            (mkResponse 200
               [("hasAgent", SBool true);
                ("dispatchId", SString (dispatchId activity));
                ("createdAt", SIso (createdAt activity));
                ("lastActivityAt", SIso (lastActivityAt activity));
                ("participantCount", SNumber (participantCount activity));
                ("ttlExpiresAt",
                 match ttl with
                 | Some e => SIso e
                 | None => SNull
                 end)],
             [(StdLog, Querying now room);
              (StdLog,
               FoundAgent now room (dispatchId activity)
                 (participantCount activity) ttl)]) in
          match ttlExpiresAt activity with
          | None => found None
          | Some (Date.At e) => found (Some e)
          | Some Date.Invalid =>
              (mkResponse 500
                 [("error", SString "Failed to query agent status");
                  ("details", SString Date.invalid_time_value)],
               [(StdLog, Querying now room);
                (StdError, ErrorQuerying now Date.invalid_time_value)])
          end
      end
  end.

Definition field (name : string) (r : Response) : option Value :=
  JsMap.get String.eqb name (body r).

End Status.

(** ** lib/cache.ts *)

Module Cache.

(** [key.includes(pattern)] *)
Fixpoint includes (pattern s : string) : bool :=
  match Dispatch.strip_prefix pattern s with
  | Some _ => true
  | None =>
      match s with
      | EmptyString => false
      | String _ s' => includes pattern s'
      end
  end.

Section WithData.
Context {D : Type}.

Record CacheEntry : Type := mkEntry {
  data : D;
  timestamp : Z;
  ttl : Z
}.

(** The [cache] map of a [SimpleCache]. *)
Definition SimpleCache : Type := list (string * CacheEntry).

Definition new : SimpleCache := [].

(** [get(key)]: the value, or [None] for [null]; an expired entry is
    deleted on the way. *)
Definition get (key : string) (now : Z) (c : SimpleCache)
  : option D * SimpleCache :=
  match JsMap.get String.eqb key c with
  | None => (None, c)
  | Some entry =>
      if ttl entry <? now - timestamp entry
      then (None, JsMap.delete String.eqb key c)
      else (Some (data entry), c)
  end.

(** [set(key, data, ttl = 5000)] *)
Definition set (key : string) (value : D) (ttl : option Z) (now : Z)
  (c : SimpleCache) : SimpleCache :=
  JsMap.set String.eqb key
    (mkEntry value now (match ttl with Some t => t | None => 5000 end)) c.

(** [invalidate(pattern)]: a loop over a snapshot of the keys. *)
Definition invalidate (pattern : string) (c : SimpleCache) : SimpleCache :=
  fold_left
    (fun cache key =>
       if includes pattern key
       then JsMap.delete String.eqb key cache
       else cache)
    (JsMap.keys c) c.

(** [clear()] *)
Definition clear (c : SimpleCache) : SimpleCache := [].

(** [getStats()] *)
Definition getStats (c : SimpleCache) : Z * list string :=
  (JsMap.size c, JsMap.keys c).

(** The calls a client of the cache can make. *)
Inductive Call : Type :=
| CGet (key : string) (now : Z)
| CSet (key : string) (value : D) (ttl : option Z) (now : Z)
| CInvalidate (pattern : string)
| CClear.

Definition step (call : Call) (c : SimpleCache) : SimpleCache :=
  match call with
  | CGet key now => snd (get key now c)
  | CSet key value ttl now => set key value ttl now c
  | CInvalidate pattern => invalidate pattern c
  | CClear => clear c
  end.

Definition run (calls : list Call) (c : SimpleCache) : SimpleCache :=
  fold_left (fun cache call => step call cache) calls c.

End WithData.

(** The filter object of [generateTasksCacheKey]; an absent property is
    [None]. *)
Record TaskFilter : Type := mkFilter {
  query : option string;
  priority : option Z;
  scheduled : option string;
  completed : option bool;
  tags : option (list string)
}.

(** A string is truthy when it is present and not empty. *)
Definition nonempty (s : option string) : option string :=
  match s with
  | Some text => if String.eqb text EmptyString then None else Some text
  | None => None
  end.

(** [`${n}`] for a whole number [n] of magnitude below 10^21, which is
    printed in full, without an exponent. *)
Definition number_text (n : Z) : string :=
  NilZero.string_of_int (Z.to_int n).

Definition boolean_text (b : bool) : string :=
  if b then "true" else "false".

(** [Array.prototype.sort()] without a comparator orders strings by code
    units; on strings the order is total, so the sorted array is the same
    whatever the algorithm.  Written here as an insertion sort. *)
Fixpoint insert (x : string) (l : list string) : list string :=
  match l with
  | [] => [x]
  | y :: rest =>
      if String.leb x y then x :: y :: rest else y :: insert x rest
  end.

Definition sort (l : list string) : list string :=
  fold_right insert [] l.

(** [generateTasksCacheKey(filter?)] *)
Definition generateTasksCacheKey (filter : option TaskFilter) : string :=
  match filter with
  | None => "tasks:all"
  | Some f =>
      let parts :=
        ["tasks"]
        ++ match nonempty (query f) with
           | Some q => [String.append "q:" q]
           | None => []
           end
        ++ match priority f with
           | Some p => [String.append "p:" (number_text p)]
           | None => []
           end
        ++ match nonempty (scheduled f) with
           | Some s => [String.append "s:" s]
           | None => []
           end
        ++ match completed f with
           | Some c => [String.append "c:" (boolean_text c)]
           | None => []
           end
        ++ match tags f with
           | Some (t :: ts) =>
               [String.append "t:" (String.concat "," (sort (t :: ts)))]
           | _ => []
           end in
      String.concat ":" parts
  end.

(** The filter has at least one property that contributes a part. *)
Definition constrains (f : TaskFilter) : bool :=
  match nonempty (query f), priority f, nonempty (scheduled f),
        completed f, tags f with
  | None, None, None, None, None => false
  | None, None, None, None, Some [] => false
  | _, _, _, _, _ => true
  end.

End Cache.

(** ** Vocabulary for statements about the limiter and the worker *)

Module Accounting.
Import Limiter.

(** The sum of the per-level drop counters. *)
Definition per_level_sum (m : list (LogLevel * Z)) : Z :=
  fold_right (fun entry acc => snd entry + acc) 0 m.

(** The drop counters are consistent: the four levels are the keys, in
    declaration order, ERROR never counts a drop, no counter is negative,
    and the global counter is the sum of the per-level ones. *)
Definition counters_ok (s : LogRateLimiter) : Prop :=
  exists w i d,
    droppedByLevel s = [(ERROR, 0); (WARN, w); (INFO, i); (DEBUG, d)] /\
    0 <= w /\ 0 <= i /\ 0 <= d /\
    droppedCount s = w + i + d.

(** [c] is a [log] call below ERROR level, of a message that is not noisy,
    made at clock reading [now]. *)
Definition plain_at (now : Z) (c : Call) : Prop :=
  match c with
  | CLog level message _ t =>
      level <> ERROR /\ shouldAggregate message = false /\ t = now
  | _ => False
  end.

(** [c] is a [log] call. *)
Definition is_log (c : Call) : Prop :=
  match c with
  | CLog _ _ _ _ => True
  | _ => False
  end.

(** How many calls of [cs] are noisy messages that normalise to [key]. *)
Fixpoint noisy_under (key : string) (cs : list Call) : Z :=
  match cs with
  | [] => 0
  | CLog _ message _ _ :: rest =>
      (if shouldAggregate message
          && String.eqb (getAggregationKey message) key
       then 1 else 0)
      + noisy_under key rest
  | _ :: rest => noisy_under key rest
  end.

(** All code units of [s] are digits, and there is at least one. *)
Fixpoint number (s : string) : bool :=
  match s with
  | EmptyString => false
  | String c EmptyString => is_digit c
  | String c s' => is_digit c && number s'
  end.

(** [s] with its ASCII capitals replaced by small letters. *)
Fixpoint lower (s : string) : string :=
  match s with
  | EmptyString => EmptyString
  | String c s' => String (fold_case c) (lower s')
  end.

(** [pattern] occurs in [s] at no position. *)
Definition never_occurs (pattern s : string) : Prop :=
  Cache.includes pattern s = false.

(** The service under which every delete call resolves / throws. *)
Definition always_resolves (svc : Cleanup.Service) : Prop :=
  forall history dispatch room, svc history dispatch room = Cleanup.DeleteOk.

Definition always_throws (svc : Cleanup.Service) : Prop :=
  forall history dispatch room,
    exists message,
      svc history dispatch room = Cleanup.DeleteThrows message.

(** The clock readings of a cycle are never before its first one. *)
Definition after_start (clock : nat -> Z) : Prop :=
  forall i, clock O <= clock i.

End Accounting.

(** * Properties *)

(** ** Binary64 arithmetic *)

(** On the sample numbers, each operation returns the number the
    reference implementation of the Standard Library returns, and the
    order is the same. *)
Example arithmetic_agrees_with_SpecFloat :
  Number.agree (SFadd 53 1024) Number.add = true /\
  Number.agree (SFsub 53 1024) Number.sub = true /\
  Number.agree (SFmul 53 1024) Number.mul = true /\
  Number.agree (SFdiv 53 1024) Number.div = true /\
  Number.agree_on_order = true /\
  forallb (fun a => Number.binary64 (Number.of_spec a)) Number.samples = true.
Proof. vm_compute. repeat split. Qed.

(** 0.7999999999999999 + 0.2 is 1 in binary64, and 0.1 + 0.2 is not 0.3. *)
Example rounding_of_decimal_fractions :
  let ratio n d := Number.div (Number.of_int n) (Number.of_int d) in
  Number.add (ratio 7999999999999999 10000000000000000) (ratio 200 1000)
    = Number.one /\
  Number.same (Number.add (ratio 1 10) (ratio 2 10)) (ratio 3 10) = false.
Proof. vm_compute. split; reflexivity. Qed.

Lemma Qeq_bool_is_false (p q : Q) : Qeq_bool p q = false -> ~ (p == q)%Q.
Proof. intros H E. apply Qeq_bool_iff in E. congruence. Qed.

Lemma Qle_bool_is_false (p q : Q) : Qle_bool p q = false -> (q < p)%Q.
Proof.
  intros H. apply Qnot_le_lt. intros L. apply Qle_bool_iff in L. congruence.
Qed.

Ltac number_le_props :=
  repeat match goal with
  | H : Qle_bool _ _ = true |- _ => apply Qle_bool_iff in H
  | H : Qle_bool _ _ = false |- _ => apply Qle_bool_is_false in H
  | |- Qle_bool _ _ = true => apply Qle_bool_iff
  end.

Section Binary64.
Import Number.
Local Open Scope Q_scope.

Lemma pow2_pos (k : Z) : 0 < pow2 k.
Proof. apply Qpower_0_lt. reflexivity. Qed.

Lemma pow2_add (a b : Z) : pow2 (a + b) == pow2 a * pow2 b.
Proof. apply Qpower_plus. discriminate. Qed.

Lemma pow2_le (a b : Z) : (a <= b)%Z -> pow2 a <= pow2 b.
Proof. intros H. apply Qpower_le_compat_l; [exact H | discriminate]. Qed.

Lemma pow2_lt (a b : Z) : (a < b)%Z -> pow2 a < pow2 b.
Proof. intros H. apply Qpower_lt_compat_l; [exact H | reflexivity]. Qed.

Lemma pow2_lt_inv (a b : Z) : pow2 a < pow2 b -> (a < b)%Z.
Proof. intros H. apply (Qpower_lt_compat_l_inv 2); [exact H | reflexivity]. Qed.

Lemma pow2_Z (k : Z) : (0 <= k)%Z -> pow2 k == inject_Z (2 ^ k).
Proof. intros H. unfold pow2. rewrite (Zpower_Qpower 2 k H). reflexivity. Qed.

Lemma pow2_cancel (k : Z) : pow2 (- k) * pow2 k == 1.
Proof. rewrite <- pow2_add. replace (- k + k)%Z with 0%Z by lia. reflexivity. Qed.

Lemma pow2_succ (k : Z) : pow2 (k + 1) == 2 * pow2 k.
Proof. rewrite pow2_add. change (pow2 1) with 2. ring. Qed.

(** ** floor (log2 q) *)

Lemma Q_as_fraction (q : Q) : q * inject_Z (Zpos (Qden q)) == inject_Z (Qnum q).
Proof.
  destruct q as [n d]. unfold Qeq, Qmult, inject_Z. simpl. lia.
Qed.

Lemma ilog2_spec (q : Q) :
  0 < q -> pow2 (ilog2 q) <= q /\ q < pow2 (ilog2 q + 1).
Proof.
  intros Hq.
  assert (Hn : (0 < Qnum q)%Z).
  { destruct q as [n d]. unfold Qlt in Hq. simpl in *. lia. }
  pose proof (Q_as_fraction q) as Hfrac.
  set (n := Qnum q) in *. set (d := Zpos (Qden q)) in *.
  assert (Hd : (0 < d)%Z) by (subst d; lia).
  pose proof (Z.log2_spec n Hn) as [Hn1 Hn2].
  pose proof (Z.log2_spec d Hd) as [Hd1 Hd2].
  pose proof (Z.log2_nonneg n) as Ha. pose proof (Z.log2_nonneg d) as Hb.
  set (a := Z.log2 n) in *. set (b := Z.log2 d) in *.
  assert (Qn1 : pow2 a <= inject_Z n)
    by (rewrite (pow2_Z a Ha); rewrite <- Zle_Qle; exact Hn1).
  assert (Qn2 : inject_Z n < pow2 (a + 1)).
  { rewrite (pow2_Z (a + 1)) by lia. rewrite <- Zlt_Qlt.
    replace (a + 1)%Z with (Z.succ a) by lia. exact Hn2. }
  assert (Qd1 : pow2 b <= inject_Z d)
    by (rewrite (pow2_Z b Hb); rewrite <- Zle_Qle; exact Hd1).
  assert (Qd2 : inject_Z d < pow2 (b + 1)).
  { rewrite (pow2_Z (b + 1)) by lia. rewrite <- Zlt_Qlt.
    replace (b + 1)%Z with (Z.succ b) by lia. exact Hd2. }
  assert (Qd0 : 0 < inject_Z d) by (rewrite Zlt_Qlt in Hd; exact Hd).
  assert (Hlow : pow2 (a - b - 1) < q).
  { apply (Qmult_lt_r _ _ (pow2 (b + 1))); [apply pow2_pos|].
    rewrite <- pow2_add. replace (a - b - 1 + (b + 1))%Z with a by lia.
    apply Qle_lt_trans with (inject_Z n); [exact Qn1|].
    rewrite <- Hfrac. apply Qmult_lt_l; assumption. }
  assert (Hhigh : q < pow2 (a - b + 1)).
  { apply (Qmult_lt_r _ _ (inject_Z d)); [exact Qd0|].
    rewrite Hfrac. apply Qlt_le_trans with (pow2 (a + 1)); [exact Qn2|].
    replace (a + 1)%Z with (a - b + 1 + b)%Z by lia. rewrite pow2_add.
    apply Qmult_le_l; [apply pow2_pos | exact Qd1]. }
  unfold ilog2. fold n. fold d. fold a. fold b.
  destruct (Qle_bool (pow2 (a - b)) q) eqn:E.
  - apply Qle_bool_iff in E. split; assumption.
  - assert (Hlt : q < pow2 (a - b)).
    { apply Qnot_le_lt. intros H. apply Qle_bool_iff in H. congruence. }
    split.
    + apply Qlt_le_weak. exact Hlow.
    + replace (a - b - 1 + 1)%Z with (a - b)%Z by lia. exact Hlt.
Qed.

Lemma ilog2_unique (q : Q) (k : Z) :
  pow2 k <= q -> q < pow2 (k + 1) -> ilog2 q = k.
Proof.
  intros H1 H2.
  assert (Hq : 0 < q) by (apply Qlt_le_trans with (pow2 k); [apply pow2_pos | exact H1]).
  destruct (ilog2_spec q Hq) as [S1 S2].
  assert (A : (ilog2 q < k + 1)%Z)
    by (apply pow2_lt_inv; apply Qle_lt_trans with q; assumption).
  assert (B : (k < ilog2 q + 1)%Z)
    by (apply pow2_lt_inv; apply Qle_lt_trans with q; assumption).
  lia.
Qed.

Lemma ilog2_mono (p q : Q) : 0 < p -> p <= q -> (ilog2 p <= ilog2 q)%Z.
Proof.
  intros Hp Hpq.
  assert (Hq : 0 < q) by (apply Qlt_le_trans with p; assumption).
  destruct (ilog2_spec p Hp) as [P1 _]. destruct (ilog2_spec q Hq) as [_ Q2].
  assert (A : (ilog2 p < ilog2 q + 1)%Z).
  { apply pow2_lt_inv. apply Qle_lt_trans with p; [exact P1|].
    apply Qle_lt_trans with q; assumption. }
  lia.
Qed.

Lemma ilog2_comp (p q : Q) : 0 < p -> p == q -> ilog2 p = ilog2 q.
Proof.
  intros Hp E. destruct (ilog2_spec p Hp) as [P1 P2].
  symmetry. apply ilog2_unique; rewrite <- E; assumption.
Qed.

(** ** nearest_even *)

Lemma nearest_even_bounds (x : Q) :
  (Qfloor x <= nearest_even x <= Qfloor x + 1)%Z.
Proof.
  unfold nearest_even.
  destruct (Qcompare _ _); [destruct (Z.even _)| |]; lia.
Qed.

Lemma nearest_even_Z (z : Z) : nearest_even (inject_Z z) = z.
Proof.
  unfold nearest_even. rewrite Qfloor_Z.
  assert (E : inject_Z z - inject_Z z == 0) by ring.
  rewrite E. reflexivity.
Qed.

Lemma nearest_even_comp (x y : Q) : x == y -> nearest_even x = nearest_even y.
Proof.
  intros E. unfold nearest_even.
  assert (F : Qfloor x = Qfloor y) by (apply Qfloor_comp; exact E).
  rewrite F.
  assert (G : x - inject_Z (Qfloor y) == y - inject_Z (Qfloor y))
    by (rewrite E; reflexivity).
  rewrite G. reflexivity.
Qed.

Lemma nearest_even_mono (x y : Q) :
  x <= y -> (nearest_even x <= nearest_even y)%Z.
Proof.
  intros Hxy.
  pose proof (Qfloor_resp_le x y Hxy) as Hf.
  pose proof (nearest_even_bounds x) as Bx.
  pose proof (nearest_even_bounds y) as By.
  destruct (Z.eq_dec (Qfloor x) (Qfloor y)) as [E|N]; [|lia].
  unfold nearest_even in *. rewrite <- E in *.
  set (f := Qfloor x) in *.
  destruct (Qcompare_spec (x - inject_Z f) (1 # 2)) as [Cx|Cx|Cx];
    destruct (Qcompare_spec (y - inject_Z f) (1 # 2)) as [Cy|Cy|Cy];
    try (destruct (Z.even f)); try lia; exfalso; lra.
Qed.

Lemma nearest_even_nonneg (x : Q) : 0 <= x -> (0 <= nearest_even x)%Z.
Proof.
  intros H. rewrite <- (nearest_even_Z 0). apply nearest_even_mono. exact H.
Qed.

Lemma ulp_exponent_min (q : Q) : (-1074 <= ulp_exponent q)%Z.
Proof. unfold ulp_exponent. lia. Qed.

Lemma ulp_exponent_comp (p q : Q) :
  0 < p -> p == q -> ulp_exponent p = ulp_exponent q.
Proof. intros Hp E. unfold ulp_exponent. now rewrite (ilog2_comp p q Hp E). Qed.

Lemma ulp_exponent_mono (p q : Q) :
  0 < p -> p <= q -> (ulp_exponent p <= ulp_exponent q)%Z.
Proof.
  intros Hp Hpq. unfold ulp_exponent.
  pose proof (ilog2_mono p q Hp Hpq). lia.
Qed.

(** The scaled value lies below 2^53, and above 2^52 unless q is
    subnormal. *)
Lemma scaled_below (q : Q) :
  0 < q -> q * pow2 (- ulp_exponent q) < inject_Z (2 ^ 53).
Proof.
  intros Hq. destruct (ilog2_spec q Hq) as [_ Hhi].
  rewrite <- (pow2_Z 53) by lia.
  apply Qlt_le_trans with (pow2 (ilog2 q + 1) * pow2 (- ulp_exponent q)).
  - apply Qmult_lt_r; [apply pow2_pos | exact Hhi].
  - rewrite <- pow2_add. apply pow2_le. unfold ulp_exponent. lia.
Qed.

Lemma scaled_above (q : Q) :
  0 < q -> (-1074 < ulp_exponent q)%Z ->
  inject_Z (2 ^ 52) <= q * pow2 (- ulp_exponent q).
Proof.
  intros Hq He. destruct (ilog2_spec q Hq) as [Hlo _].
  rewrite <- (pow2_Z 52) by lia.
  apply Qle_trans with (pow2 (ilog2 q) * pow2 (- ulp_exponent q)).
  - rewrite <- pow2_add. apply pow2_le. unfold ulp_exponent in *. lia.
  - apply Qmult_le_r; [apply pow2_pos | exact Hlo].
Qed.

Lemma scaled_pos (q : Q) (e : Z) : 0 < q -> 0 < q * pow2 e.
Proof.
  intros Hq. apply Qmult_lt_0_compat; [exact Hq | apply pow2_pos].
Qed.

Lemma mantissa_bounds (q : Q) :
  0 < q ->
  (0 <= nearest_even (q * pow2 (- ulp_exponent q)) <= 2 ^ 53)%Z.
Proof.
  intros Hq. split.
  - apply nearest_even_nonneg. apply Qlt_le_weak. apply scaled_pos. exact Hq.
  - rewrite <- (nearest_even_Z (2 ^ 53)). apply nearest_even_mono.
    apply Qlt_le_weak. apply scaled_below. exact Hq.
Qed.

Lemma nearest_value_comp (p q : Q) :
  0 < p -> p == q -> nearest_value p == nearest_value q.
Proof.
  intros Hp E. unfold nearest_value.
  rewrite (ulp_exponent_comp p q Hp E).
  rewrite (nearest_even_comp (p * pow2 (- ulp_exponent q))
             (q * pow2 (- ulp_exponent q))); [reflexivity|].
  rewrite E. reflexivity.
Qed.

Lemma nearest_value_nonneg (q : Q) : 0 < q -> 0 <= nearest_value q.
Proof.
  intros Hq. unfold nearest_value.
  apply Qmult_le_0_compat.
  - change 0 with (inject_Z 0). rewrite <- Zle_Qle.
    apply (mantissa_bounds q Hq).
  - apply Qlt_le_weak. apply pow2_pos.
Qed.

Lemma nearest_value_mono (p q : Q) :
  0 < p -> p <= q -> nearest_value p <= nearest_value q.
Proof.
  intros Hp Hpq.
  assert (Hq : 0 < q) by (apply Qlt_le_trans with p; assumption).
  pose proof (ulp_exponent_mono p q Hp Hpq) as He.
  unfold nearest_value.
  set (ep := ulp_exponent p) in *. set (eq := ulp_exponent q) in *.
  destruct (Z.eq_dec ep eq) as [E|N].
  - rewrite E. apply Qmult_le_r; [apply pow2_pos|].
    rewrite <- Zle_Qle. apply nearest_even_mono.
    apply Qmult_le_r; [apply pow2_pos | exact Hpq].
  - assert (Hlt : (ep < eq)%Z) by lia.
    apply Qle_trans with (inject_Z (2 ^ 53) * pow2 ep).
    + apply Qmult_le_r; [apply pow2_pos|]. rewrite <- Zle_Qle.
      apply (mantissa_bounds p Hp).
    + apply Qle_trans with (inject_Z (2 ^ 52) * pow2 eq).
      * rewrite <- (pow2_Z 53), <- (pow2_Z 52) by lia.
        rewrite <- !pow2_add. apply pow2_le. lia.
      * apply Qmult_le_r; [apply pow2_pos|]. rewrite <- Zle_Qle.
        rewrite <- (nearest_even_Z (2 ^ 52)). apply nearest_even_mono.
        apply scaled_above; [exact Hq|].
        pose proof (ulp_exponent_min p). fold ep in H. fold eq. lia.
Qed.

Lemma nearest_value_exact (q : Q) : representable q -> nearest_value q == q.
Proof.
  intros [m [e [Hm [He E]]]].
  assert (Hq : 0 < q).
  { rewrite E. apply Qmult_lt_0_compat; [|apply pow2_pos].
    change 0 with (inject_Z 0). rewrite <- Zlt_Qlt. lia. }
  destruct (ilog2_spec q Hq) as [Hlo _].
  assert (Hil : (ilog2 q < 53 + e)%Z).
  { apply pow2_lt_inv. apply Qle_lt_trans with q; [exact Hlo|].
    rewrite E, pow2_add. apply Qmult_lt_r; [apply pow2_pos|].
    rewrite (pow2_Z 53) by lia. rewrite <- Zlt_Qlt. lia. }
  unfold nearest_value.
  set (u := ulp_exponent q).
  assert (Hu : (u <= e)%Z) by (subst u; unfold ulp_exponent; lia).
  assert (S : q * pow2 (- u) == inject_Z (m * 2 ^ (e - u))).
  { rewrite E, inject_Z_mult, <- (pow2_Z (e - u)) by lia.
    rewrite <- Qmult_assoc, <- pow2_add.
    replace (e + - u)%Z with (e - u)%Z by lia. reflexivity. }
  rewrite (nearest_even_comp _ _ S), nearest_even_Z.
  rewrite E, inject_Z_mult, <- (pow2_Z (e - u)) by lia.
  rewrite <- Qmult_assoc, <- pow2_add.
  replace (e - u + u)%Z with e by lia. reflexivity.
Qed.

Lemma nearest_value_representable (q : Q) :
  0 < q -> nearest_value q == 0 \/ representable (nearest_value q).
Proof.
  intros Hq. pose proof (mantissa_bounds q Hq) as [H0 H53].
  pose proof (ulp_exponent_min q) as He.
  unfold nearest_value.
  set (m := nearest_even (q * pow2 (- ulp_exponent q))) in *.
  set (e := ulp_exponent q) in *.
  destruct (Z.eq_dec m 0) as [Z0|NZ]; [left; rewrite Z0; ring|].
  right. destruct (Z.eq_dec m (2 ^ 53)) as [E|N].
  - exists (2 ^ 52)%Z, (e + 1)%Z. split; [lia|]. split; [lia|].
    rewrite E, pow2_succ.
    change (2 ^ 53)%Z with (2 * 2 ^ 52)%Z. rewrite inject_Z_mult.
    change (inject_Z 2) with 2. ring.
  - exists m, e. split; [lia|]. split; [lia | reflexivity].
Qed.

Lemma with_sign_cases (negative : bool) (v : Q) :
  (v == 0 /\ with_sign negative v = Zero negative) \/
  (~ v == 0 /\ overflow <= v /\ with_sign negative v = Infinity negative) \/
  (~ v == 0 /\ v < overflow /\
   with_sign negative v = Finite (Qred (if negative then - v else v))).
Proof.
  unfold with_sign.
  destruct (Qeq_bool v 0) eqn:Z.
  - left. split; [apply Qeq_bool_iff; exact Z | reflexivity].
  - apply Qeq_bool_is_false in Z. right.
    destruct (Qle_bool overflow v) eqn:O.
    + left. split; [exact Z|]. split; [apply Qle_bool_iff; exact O | reflexivity].
    + right. split; [exact Z|]. split; [apply Qle_bool_is_false; exact O | reflexivity].
Qed.

Lemma with_sign_comp (negative : bool) (v w : Q) :
  v == w -> with_sign negative v = with_sign negative w.
Proof.
  intros E. unfold with_sign.
  assert (A : Qeq_bool v 0 = Qeq_bool w 0).
  { destruct (Qeq_bool v 0) eqn:V; destruct (Qeq_bool w 0) eqn:W; auto.
    - apply Qeq_bool_iff in V. apply Qeq_bool_is_false in W. rewrite E in V. tauto.
    - apply Qeq_bool_iff in W. apply Qeq_bool_is_false in V. rewrite E in V. tauto. }
  assert (B : Qle_bool overflow v = Qle_bool overflow w).
  { destruct (Qle_bool overflow v) eqn:V; destruct (Qle_bool overflow w) eqn:W; auto.
    - apply Qle_bool_iff in V. apply Qle_bool_is_false in W. rewrite E in V. lra.
    - apply Qle_bool_iff in W. apply Qle_bool_is_false in V. rewrite E in V. lra. }
  rewrite A, B.
  destruct (Qeq_bool w 0); [reflexivity|].
  destruct (Qle_bool overflow w); [reflexivity|].
  f_equal. apply Qred_complete. destruct negative; rewrite E; reflexivity.
Qed.

Lemma round_cases (q : Q) :
  (q == 0 /\ round q = Zero false) \/
  (0 < q /\ round q = with_sign false (nearest_value q)) \/
  (q < 0 /\ round q = with_sign true (nearest_value (- q))).
Proof.
  unfold round, round_positive.
  destruct (Qcompare_spec q 0) as [E|L|G]; [left | right; right | right; left];
    split; auto.
Qed.

Lemma round_comp (p q : Q) : p == q -> round p = round q.
Proof.
  intros E.
  destruct (round_cases p) as [[P R]|[[P R]|[P R]]];
    destruct (round_cases q) as [[Q' S]|[[Q' S]|[Q' S]]];
    rewrite R, S; try reflexivity; try (exfalso; lra).
  - apply with_sign_comp. apply nearest_value_comp; assumption.
  - apply with_sign_comp. apply nearest_value_comp; [lra | rewrite E; reflexivity].
Qed.

(** ** Order *)

Lemma number_le_trans (x y z : number) :
  le x y = true -> le y z = true -> le x z = true.
Proof.
  destruct x as [|[|]|a|p], y as [|[|]|b|q], z as [|[|]|c|r]; simpl;
    intros H1 H2; try discriminate; try reflexivity; number_le_props; lra.
Qed.

Lemma number_le_refl (x : number) : x <> NaN -> le x x = true.
Proof.
  destruct x as [|[|]|a|p]; simpl; intros H; try reflexivity; try congruence.
  number_le_props. lra.
Qed.

Lemma nonneg_not_nan (x : number) : nonneg x -> x <> NaN.
Proof. unfold nonneg. destruct x; simpl; congruence. Qed.

Lemma number_le_not_nan (x y : number) : le x y = true -> x <> NaN /\ y <> NaN.
Proof.
  destruct x as [|[|]|a|p], y as [|[|]|b|q]; simpl; intros H;
    try discriminate; split; congruence.
Qed.

Lemma with_sign_nonneg (v : Q) : 0 <= v -> nonneg (with_sign false v).
Proof.
  intros Hv. unfold nonneg.
  destruct (with_sign_cases false v) as [[_ R]|[[_ [_ R]]|[N [_ R]]]];
    rewrite R; simpl; try reflexivity.
  number_le_props. rewrite Qred_correct. exact Hv.
Qed.

Lemma round_nonneg (q : Q) : 0 <= q -> nonneg (round q).
Proof.
  intros Hq.
  destruct (round_cases q) as [[P R]|[[P R]|[P R]]]; rewrite R.
  - reflexivity.
  - apply with_sign_nonneg. apply nearest_value_nonneg. exact P.
  - exfalso. lra.
Qed.

Lemma with_sign_mono (v w : Q) :
  0 <= v -> v <= w -> le (with_sign false v) (with_sign false w) = true.
Proof.
  intros Hv Hvw.
  assert (Ho : 0 < overflow) by apply pow2_pos.
  destruct (with_sign_cases false v) as [[V R]|[[V [V' R]]|[V [V' R]]]];
    destruct (with_sign_cases false w) as [[W S]|[[W [W' S]]|[W [W' S]]]];
    rewrite R, S; simpl; try reflexivity; try (exfalso; lra).
  - number_le_props. rewrite Qred_correct. lra.
  - number_le_props. rewrite !Qred_correct. exact Hvw.
Qed.

Lemma round_mono (p q : Q) : 0 <= p -> p <= q -> le (round p) (round q) = true.
Proof.
  intros Hp Hpq.
  destruct (round_cases p) as [[P R]|[[P R]|[P R]]]; try (exfalso; lra).
  - rewrite R. apply (round_nonneg q). lra.
  - destruct (round_cases q) as [[Q' S]|[[Q' S]|[Q' S]]]; try (exfalso; lra).
    rewrite R, S. apply with_sign_mono.
    + apply nearest_value_nonneg. exact P.
    + apply nearest_value_mono; assumption.
Qed.

(** ** Binary64 numbers *)

Lemma round_exact (q : Q) :
  representable q -> q < overflow -> round q = Finite (Qred q).
Proof.
  intros Hr Ho.
  assert (Hq : 0 < q).
  { destruct Hr as [m [e [Hm [_ E]]]]. rewrite E.
    apply Qmult_lt_0_compat; [|apply pow2_pos].
    change 0 with (inject_Z 0). rewrite <- Zlt_Qlt. lia. }
  destruct (round_cases q) as [[P R]|[[P R]|[P R]]]; try (exfalso; lra).
  rewrite R, (with_sign_comp false _ q (nearest_value_exact q Hr)).
  destruct (with_sign_cases false q) as [[V S]|[[V [V' S]]|[V [V' S]]]];
    try (exfalso; lra).
  exact S.
Qed.

Lemma round_exact_neg (q : Q) :
  representable q -> q < overflow -> round (- q) = Finite (Qred (- q)).
Proof.
  intros Hr Ho.
  assert (Hq : 0 < q).
  { destruct Hr as [m [e [Hm [_ E]]]]. rewrite E.
    apply Qmult_lt_0_compat; [|apply pow2_pos].
    change 0 with (inject_Z 0). rewrite <- Zlt_Qlt. lia. }
  destruct (round_cases (- q)) as [[P R]|[[P R]|[P R]]]; try (exfalso; lra).
  rewrite R.
  assert (E : nearest_value (- - q) == q).
  { rewrite (nearest_value_comp (- - q) q); [|lra|ring].
    apply nearest_value_exact. exact Hr. }
  rewrite (with_sign_comp true _ q E).
  destruct (with_sign_cases true q) as [[V S]|[[V [V' S]]|[V [V' S]]]];
    try (exfalso; lra).
  exact S.
Qed.

(** What [binary64] says of a positive number. *)
Lemma binary64_positive (q : Q) :
  binary64 (Finite q) = true -> 0 < q ->
  nearest_value q == q /\ q < overflow.
Proof.
  unfold binary64. intros H Hq.
  destruct (round_cases q) as [[P R]|[[P R]|[P R]]]; try (exfalso; lra).
  rewrite R in H.
  destruct (with_sign_cases false (nearest_value q))
    as [[V S]|[[V [V' S]]|[V [V' S]]]]; rewrite S in H; try discriminate.
  apply Qeq_bool_iff in H. rewrite Qred_correct in H.
  split; [symmetry; exact H | rewrite H; exact V'].
Qed.

Lemma with_sign_binary64 (negative : bool) (q : Q) :
  0 < q -> binary64 (with_sign negative (nearest_value q)) = true.
Proof.
  intros Hq.
  destruct (with_sign_cases negative (nearest_value q))
    as [[V S]|[[V [V' S]]|[V [V' S]]]]; rewrite S; try reflexivity.
  destruct (nearest_value_representable q Hq) as [Z|Hr]; [tauto|].
  unfold binary64.
  set (v := nearest_value q) in *.
  destruct negative.
  - rewrite (round_comp (Qred (- v)) (- v)) by apply Qred_correct.
    rewrite (round_exact_neg v Hr V'). apply Qeq_bool_iff. reflexivity.
  - rewrite (round_comp (Qred v) v) by apply Qred_correct.
    rewrite (round_exact v Hr V'). apply Qeq_bool_iff. reflexivity.
Qed.

Lemma round_binary64 (q : Q) : binary64 (round q) = true.
Proof.
  destruct (round_cases q) as [[P R]|[[P R]|[P R]]]; rewrite R.
  - reflexivity.
  - apply with_sign_binary64. exact P.
  - apply with_sign_binary64. lra.
Qed.

Lemma negative_of_nonneg (q : Q) : 0 <= q -> negative_of q = false.
Proof.
  intros H. unfold negative_of. apply Z.ltb_ge.
  destruct q as [n d]. unfold Qle in H. simpl in *. lia.
Qed.

Lemma nonneg_finite (q : Q) : nonneg (Finite q) -> 0 <= q.
Proof. unfold nonneg. simpl. intros H. apply Qle_bool_iff. exact H. Qed.

Lemma nonneg_add (x y : number) : nonneg x -> nonneg y -> nonneg (add x y).
Proof.
  destruct x as [|[|]|a|p], y as [|[|]|b|q]; unfold nonneg; simpl;
    intros Hx Hy; try discriminate; try reflexivity; try assumption.
  apply round_nonneg. number_le_props. lra.
Qed.

Lemma nonneg_mul (x y : number) :
  nonneg x -> nonneg y -> is_finite x = true -> is_finite y = true ->
  nonneg (mul x y).
Proof.
  destruct x as [|[|]|a|p], y as [|[|]|b|q]; unfold nonneg; simpl;
    intros Hx Hy Fx Fy; try discriminate; try reflexivity.
  apply round_nonneg. number_le_props. apply Qmult_le_0_compat; assumption.
Qed.

Lemma binary64_opp (x : number) : binary64 x = true -> binary64 (opp x) = true.
Proof.
  destruct x as [|s|s|q]; try (intros; reflexivity). intros H.
  cbn [opp binary64] in *.
  destruct (round_cases q) as [[P R]|[[P R]|[P R]]]; rewrite R in H.
  - discriminate.
  - destruct (binary64_positive q) as [E O];
      [cbn [binary64]; rewrite R; exact H | exact P |].
    destruct (nearest_value_representable q P) as [Z|Hr]; [exfalso; lra|].
    assert (Hq : representable q).
    { destruct Hr as [m [e [Hm [He Ev]]]]. exists m, e.
      split; [exact Hm|]. split; [exact He|]. rewrite <- E. exact Ev. }
    rewrite (round_comp (Qred (- q)) (- q)) by apply Qred_correct.
    rewrite (round_exact_neg q Hq O). apply Qeq_bool_iff. reflexivity.
  - destruct (with_sign_cases true (nearest_value (- q)))
      as [[V S]|[[V [V' S]]|[V [V' S]]]]; rewrite S in H; try discriminate.
    apply Qeq_bool_iff in H. rewrite Qred_correct in H.
    assert (Hv : 0 < - q) by lra.
    destruct (nearest_value_representable (- q) Hv) as [Z|Hr]; [tauto|].
    assert (E : nearest_value (- q) == - q) by lra.
    assert (Hq : representable (- q)).
    { destruct Hr as [m [e [Hm [He Ev]]]]. exists m, e.
      split; [exact Hm|]. split; [exact He|]. rewrite <- E. exact Ev. }
    rewrite (round_comp (Qred (- q)) (- q)) by apply Qred_correct.
    rewrite (round_exact (- q) Hq) by lra. apply Qeq_bool_iff. reflexivity.
Qed.

Lemma binary64_add (x y : number) :
  binary64 x = true -> binary64 y = true -> binary64 (add x y) = true.
Proof.
  destruct x as [|a|a|p], y as [|b|b|q]; intros Hx Hy; simpl;
    try reflexivity; try assumption.
  - destruct (Bool.eqb a b); reflexivity.
  - apply round_binary64.
Qed.

Lemma binary64_sub (x y : number) :
  binary64 x = true -> binary64 y = true -> binary64 (sub x y) = true.
Proof.
  intros Hx Hy. apply binary64_add; [exact Hx | apply binary64_opp; exact Hy].
Qed.

Lemma binary64_mul (x y : number) : binary64 (mul x y) = true.
Proof.
  destruct x as [|a|a|p], y as [|b|b|q]; simpl; try reflexivity.
  apply round_binary64.
Qed.

Lemma binary64_div (x y : number) : binary64 (div x y) = true.
Proof.
  destruct x as [|a|a|p], y as [|b|b|q]; simpl; try reflexivity.
  apply round_binary64.
Qed.

Lemma binary64_min (x y : number) :
  binary64 x = true -> binary64 y = true -> binary64 (min x y) = true.
Proof.
  intros Hx Hy. unfold min.
  destruct x as [|a|a|p], y as [|b|b|q]; try reflexivity;
    match goal with
    | |- context [if ?c then _ else _] => destruct c; assumption
    end.
Qed.

Lemma binary64_of_int (z : Z) : binary64 (of_int z) = true.
Proof. apply round_binary64. Qed.

(** ** Math.min *)

Lemma number_le_total (x y : number) :
  x <> NaN -> y <> NaN -> le x y = false -> le y x = true.
Proof.
  destruct x as [|[|]|a|p], y as [|[|]|b|q]; simpl; intros Hx Hy H;
    try congruence; number_le_props; lra.
Qed.

Lemma min_le_l (x y : number) :
  x <> NaN -> y <> NaN -> le (min x y) x = true.
Proof.
  intros Hx Hy.
  assert (Hgen : le (if le x y then x else y) x = true).
  { destruct (le x y) eqn:E; [apply number_le_refl; exact Hx|].
    apply number_le_total; assumption. }
  destruct x as [|a|a|p], y as [|b|b|q]; try congruence; exact Hgen.
Qed.

Lemma min_nonneg (x y : number) : nonneg x -> nonneg y -> nonneg (min x y).
Proof.
  unfold nonneg, min.
  destruct x as [|a|a|p], y as [|b|b|q]; intros Hx Hy; try discriminate;
    try reflexivity;
    match goal with
    | |- context [if ?c then _ else _] => destruct c; assumption
    end.
Qed.

(** ** Whole numbers *)

Lemma Qred_inject_Z (z : Z) : Qred (inject_Z z) = inject_Z z.
Proof.
  unfold Qred, inject_Z.
  pose proof (Z.ggcd_gcd z 1) as Hg.
  pose proof (Z.ggcd_correct_divisors z 1) as Hd.
  destruct (Z.ggcd z 1) as [g [a b]]. simpl in Hg, Hd.
  rewrite Z.gcd_1_r in Hg. subst g. destruct Hd as [Ha Hb].
  assert (a = z) by lia. assert (b = 1%Z) by lia. subst a b. reflexivity.
Qed.

Lemma representable_int (z : Z) :
  (0 < z < 2 ^ 53)%Z -> representable (inject_Z z).
Proof.
  intros H. exists z, 0%Z. split; [exact H|]. split; [lia|].
  change (pow2 0) with 1. ring.
Qed.

Lemma int_below_overflow (z : Z) : (z < 2 ^ 53)%Z -> inject_Z z < overflow.
Proof.
  intros H. apply Qlt_trans with (inject_Z (2 ^ 53)).
  - rewrite <- Zlt_Qlt. exact H.
  - rewrite <- (pow2_Z 53) by lia. apply pow2_lt. lia.
Qed.

Lemma of_int_exact (z : Z) :
  (- 2 ^ 53 < z < 2 ^ 53)%Z ->
  of_int z = if (z =? 0)%Z then Zero false else Finite (inject_Z z).
Proof.
  intros H. unfold of_int.
  destruct (Z.eqb_spec z 0) as [E|N]; [subst z; reflexivity|].
  destruct (Z_lt_le_dec 0 z) as [P|M].
  - rewrite round_exact.
    + now rewrite Qred_inject_Z.
    + apply representable_int. lia.
    + apply int_below_overflow. lia.
  - assert (E : inject_Z z == - inject_Z (- z))
      by (rewrite inject_Z_opp; ring).
    rewrite (round_comp _ _ E), round_exact_neg.
    + f_equal. rewrite <- (Qred_inject_Z z). apply Qred_complete.
      symmetry. exact E.
    + apply representable_int. lia.
    + apply int_below_overflow. lia.
Qed.

Lemma of_int_finite (z : Z) :
  (- 2 ^ 53 < z < 2 ^ 53)%Z -> is_finite (of_int z) = true.
Proof.
  intros H. rewrite (of_int_exact z H). destruct (z =? 0)%Z; reflexivity.
Qed.

Lemma of_int_nonneg (z : Z) : (0 <= z)%Z -> nonneg (of_int z).
Proof.
  intros H. apply round_nonneg. change 0 with (inject_Z 0).
  rewrite <- Zle_Qle. exact H.
Qed.

(** Rounding a value between 0 and 2^53 does not overflow. *)
Lemma round_finite (q : Q) :
  0 <= q -> q <= inject_Z (2 ^ 53) -> is_finite (round q) = true.
Proof.
  intros H0 H53.
  pose proof (round_mono q (inject_Z (2 ^ 53)) H0 H53) as Hle.
  pose proof (round_nonneg q H0) as Hnn.
  assert (E : round (inject_Z (2 ^ 53)) = Finite (inject_Z (2 ^ 53))).
  { rewrite round_exact.
    - now rewrite Qred_inject_Z.
    - exists (2 ^ 52)%Z, 1%Z. split; [lia|]. split; [lia|].
      change (pow2 1) with 2. change (2 ^ 53)%Z with (2 ^ 52 * 2)%Z.
      rewrite inject_Z_mult. reflexivity.
    - rewrite <- (pow2_Z 53) by lia. apply pow2_lt. lia. }
  rewrite E in Hle. clear E. unfold nonneg in Hnn.
  destruct (round q) as [|[|]|a|p]; cbn [le is_finite] in *;
    try discriminate; reflexivity.
Qed.

(** Taking one from a binary64 number that is at least one. *)
Lemma sub_one (x : number) :
  binary64 x = true -> is_finite x = true -> ge x one = true ->
  nonneg (sub x one) /\ le (sub x one) x = true /\
  is_finite (sub x one) = true.
Proof.
  intros Hb Hf Hge. unfold ge, one in Hge.
  destruct x as [|a|a|q]; simpl in Hf, Hge; try discriminate.
  number_le_props.
  assert (Hq : 0 < q) by lra.
  {
    destruct (binary64_positive q Hb Hq) as [E O].
    assert (S : sub (Finite q) one = round (q - 1)).
    { unfold sub, one, opp, add. apply round_comp.
      rewrite Qred_correct. ring. }
    rewrite S.
    assert (H0 : 0 <= q - 1) by lra.
    assert (Hq' : round q = Finite (Qred q)).
    { destruct (round_cases q) as [[P R]|[[P R]|[P R]]]; try (exfalso; lra).
      rewrite R, (with_sign_comp false _ q E).
      destruct (with_sign_cases false q) as [[V T]|[[V [V' T]]|[V [V' T]]]];
        try (exfalso; lra).
      exact T. }
    pose proof (round_mono (q - 1) q H0 ltac:(lra)) as Hle.
    rewrite Hq' in Hle.
    pose proof (round_nonneg (q - 1) H0) as Hnn.
    split; [exact Hnn|]. unfold nonneg in Hnn.
    destruct (round (q - 1)) as [|[|]|b|p]; simpl in *; try discriminate.
    + split; [number_le_props; lra | reflexivity].
    + split; [|reflexivity]. number_le_props. rewrite Qred_correct in Hle. exact Hle.
  }
Qed.

End Binary64.

Arguments Number.round : simpl never.
Arguments Number.add : simpl never.
Arguments Number.mul : simpl never.
Arguments Number.div : simpl never.
Arguments Number.min : simpl never.
Arguments Number.of_int : simpl never.


(** ** Map lemmas *)

Section JsMapFacts.
Context {K V : Type} (eqb : K -> K -> bool).
Hypothesis eqb_eq : forall a b, eqb a b = true <-> a = b.

Lemma eqb_refl_of (a : K) : eqb a a = true.
Proof. now apply eqb_eq. Qed.

Lemma eqb_false_of (a b : K) : a <> b -> eqb a b = false.
Proof.
  intros Hne. destruct (eqb a b) eqn:E; [|reflexivity].
  apply eqb_eq in E. contradiction.
Qed.

Lemma get_none_not_key (k : K) (m : list (K * V)) :
  JsMap.get eqb k m = None <-> ~ In k (JsMap.keys m).
Proof.
  induction m as [|[k' v'] m IH]; simpl.
  - tauto.
  - destruct (eqb k k') eqn:E.
    + apply eqb_eq in E. subst. split; [discriminate | intros H; elim H; auto].
    + rewrite IH. split.
      * intros H [H1 | H1]; [|tauto]. subst.
        rewrite eqb_refl_of in E. discriminate.
      * tauto.
Qed.

Lemma get_set_same (k : K) (v : V) (m : list (K * V)) :
  JsMap.get eqb k (JsMap.set eqb k v m) = Some v.
Proof.
  induction m as [|[k' v'] m IH]; simpl.
  - now rewrite eqb_refl_of.
  - destruct (eqb k k') eqn:E; simpl; now rewrite E.
Qed.

Lemma get_set_other (k k0 : K) (v : V) (m : list (K * V)) :
  k0 <> k ->
  JsMap.get eqb k0 (JsMap.set eqb k v m) = JsMap.get eqb k0 m.
Proof.
  intros Hne. induction m as [|[k' v'] m IH]; simpl.
  - now rewrite (eqb_false_of k0 k).
  - destruct (eqb k k') eqn:E; simpl.
    + apply eqb_eq in E. subst k'. now rewrite (eqb_false_of k0 k).
    + now rewrite IH.
Qed.

Lemma get_some_in (k : K) (v : V) (m : list (K * V)) :
  JsMap.get eqb k m = Some v -> In (k, v) m.
Proof.
  induction m as [|[k' v'] m IH]; simpl; [discriminate|].
  destruct (eqb k k') eqn:E.
  - apply eqb_eq in E. intros H. inversion H; subst. now left.
  - intros H. right. now apply IH.
Qed.

Lemma in_nodup_get (k : K) (v : V) (m : list (K * V)) :
  NoDup (JsMap.keys m) -> In (k, v) m -> JsMap.get eqb k m = Some v.
Proof.
  induction m as [|[k' v'] m IH]; simpl; [tauto|].
  intros Hnd Hin. inversion Hnd as [|x l Hnot Hnd']; subst.
  destruct Hin as [Heq | Hin].
  - inversion Heq; subst. now rewrite eqb_refl_of.
  - destruct (eqb k k') eqn:E; [|auto].
    apply eqb_eq in E. subst k'. elim Hnot.
    change k with (fst (k, v)). now apply in_map.
Qed.

Lemma set_absent_appends (k : K) (v : V) (m : list (K * V)) :
  JsMap.get eqb k m = None -> JsMap.set eqb k v m = m ++ [(k, v)].
Proof.
  induction m as [|[k' v'] m IH]; simpl; [reflexivity|].
  destruct (eqb k k'); [discriminate|].
  intros H. now rewrite IH.
Qed.

Lemma keys_set_present (k : K) (v v0 : V) (m : list (K * V)) :
  JsMap.get eqb k m = Some v0 ->
  JsMap.keys (JsMap.set eqb k v m) = JsMap.keys m.
Proof.
  induction m as [|[k' v'] m IH]; simpl; [discriminate|].
  destruct (eqb k k') eqn:E; simpl.
  - reflexivity.
  - intros H. f_equal. now apply IH.
Qed.

Lemma keys_delete_incl (k k0 : K) (m : list (K * V)) :
  In k0 (JsMap.keys (JsMap.delete eqb k m)) -> In k0 (JsMap.keys m).
Proof.
  induction m as [|[k' v'] m IH]; simpl; [tauto|].
  destruct (eqb k k'); simpl; tauto.
Qed.

Lemma nodup_keys_set (k : K) (v : V) (m : list (K * V)) :
  NoDup (JsMap.keys m) -> NoDup (JsMap.keys (JsMap.set eqb k v m)).
Proof.
  intros Hnd. destruct (JsMap.get eqb k m) as [v0|] eqn:G.
  - now rewrite (keys_set_present _ _ _ _ G).
  - rewrite (set_absent_appends _ _ _ G).
    unfold JsMap.keys. rewrite map_app. simpl.
    apply NoDup_app; [exact Hnd | repeat constructor; simpl; tauto |].
    intros x Hx [Hk | []]. subst x.
    now apply get_none_not_key in G.
Qed.

Lemma nodup_keys_delete (k : K) (m : list (K * V)) :
  NoDup (JsMap.keys m) -> NoDup (JsMap.keys (JsMap.delete eqb k m)).
Proof.
  induction m as [|[k' v'] m IH]; simpl; [auto|].
  intros Hnd. inversion Hnd as [|x l Hnot Hnd']; subst.
  destruct (eqb k k'); simpl; [auto|].
  constructor; [|auto].
  intros Hin. apply Hnot. eapply keys_delete_incl. exact Hin.
Qed.

Lemma forall_set (P : K * V -> Prop) (k : K) (v : V) (m : list (K * V)) :
  Forall P m -> P (k, v) -> Forall P (JsMap.set eqb k v m).
Proof.
  intros Hm Hkv. induction m as [|[k' v'] m IH]; simpl.
  - constructor; auto.
  - inversion Hm; subst. destruct (eqb k k') eqn:E.
    + apply eqb_eq in E. subst. constructor; auto.
    + constructor; auto.
Qed.

Lemma forall_delete (P : K * V -> Prop) (k : K) (m : list (K * V)) :
  Forall P m -> Forall P (JsMap.delete eqb k m).
Proof.
  induction m as [|[k' v'] m IH]; simpl; [auto|].
  intros Hm. inversion Hm; subst.
  destruct (eqb k k'); [auto | constructor; auto].
Qed.

Lemma get_delete_same (k : K) (m : list (K * V)) :
  JsMap.get eqb k (JsMap.delete eqb k m) = None.
Proof.
  induction m as [|[k' v'] m IH]; simpl; [reflexivity|].
  destruct (eqb k k') eqn:E; simpl; [auto | now rewrite E].
Qed.

End JsMapFacts.

(** ** Dates computed from whole numbers *)

Lemma thousand_is_exact : Number.of_int 1000 = Number.Finite 1000.
Proof. vm_compute. reflexivity. Qed.

Lemma times_thousand (seconds : Z) :
  - 2 ^ 53 < seconds * 1000 < 2 ^ 53 ->
  Number.mul (Number.of_int seconds) (Number.of_int 1000)
  = Number.of_int (seconds * 1000).
Proof.
  intros H. rewrite thousand_is_exact, (of_int_exact seconds) by lia.
  destruct (Z.eqb_spec seconds 0) as [E|N]; [subst; reflexivity|].
  unfold Number.mul, Number.of_int. apply round_comp.
  rewrite inject_Z_mult. reflexivity.
Qed.

Lemma plus_whole (a b : Z) :
  - 2 ^ 53 < a < 2 ^ 53 -> - 2 ^ 53 < b < 2 ^ 53 ->
  Number.add (Number.of_int a) (Number.of_int b) = Number.of_int (a + b).
Proof.
  intros Ha Hb. rewrite (of_int_exact a Ha), (of_int_exact b Hb).
  destruct (Z.eqb_spec a 0) as [A|A]; destruct (Z.eqb_spec b 0) as [B|B];
    subst; try reflexivity.
  - unfold Number.add. rewrite Z.add_0_l, (of_int_exact b Hb).
    destruct (Z.eqb_spec b 0); [contradiction | reflexivity].
  - unfold Number.add. rewrite Z.add_0_r, (of_int_exact a Ha).
    destruct (Z.eqb_spec a 0); [contradiction | reflexivity].
  - unfold Number.add, Number.of_int. apply round_comp.
    rewrite inject_Z_plus. reflexivity.
Qed.

(** From 2^53 on, rounding stays at or above 2^53. *)
Lemma round_at_least (q : Q) :
  (inject_Z (2 ^ 53) <= q)%Q ->
  Number.round q = Number.Infinity false \/
  exists v, Number.round q = Number.Finite v /\ (inject_Z (2 ^ 53) <= v)%Q.
Proof.
  intros H.
  assert (H0 : (0 <= inject_Z (2 ^ 53))%Q)
    by (change 0%Q with (inject_Z 0); rewrite <- Zle_Qle; lia).
  pose proof (round_mono _ _ H0 H) as Hle.
  assert (E : Number.round (inject_Z (2 ^ 53))
              = Number.Finite (inject_Z (2 ^ 53))).
  { rewrite round_exact.
    - now rewrite Qred_inject_Z.
    - exists (2 ^ 52), 1. split; [lia|]. split; [lia|].
      change (Number.pow2 1) with 2%Q. change (2 ^ 53) with (2 ^ 52 * 2).
      rewrite inject_Z_mult. reflexivity.
    - rewrite <- (pow2_Z 53) by lia. apply pow2_lt. lia. }
  rewrite E in Hle. clear E.
  destruct (Number.round q) as [|[|]|a|v]; cbn [Number.le] in Hle;
    try discriminate.
  - left. reflexivity.
  - right. exists v. split; [reflexivity|]. apply Qle_bool_iff. exact Hle.
Qed.

Lemma Qabs_inject_Z (z : Z) : Qabs (inject_Z z) = inject_Z (Z.abs z).
Proof. destruct z; reflexivity. Qed.

(** The date of a whole number of milliseconds: that time when it is
    within the range of dates, an Invalid Date when it is not. *)
Lemma date_of_whole (z : Z) :
  - 2 ^ 53 < z ->
  Date.of_number (Number.of_int z)
  = if Z.abs z <=? Date.max_time then Date.At z else Date.Invalid.
Proof.
  intros Hlow.
  assert (Hmax : Date.max_time < 2 ^ 53) by reflexivity.
  destruct (Z_lt_le_dec z (2 ^ 53)) as [Hup|Hup].
  - rewrite (of_int_exact z) by lia.
    destruct (Z.eqb_spec z 0) as [E|N]; [subst; reflexivity|].
    unfold Date.of_number. rewrite Qabs_inject_Z.
    cbn [Qnum Qden inject_Z]. rewrite Z.quot_1_r.
    destruct (Z.abs z <=? Date.max_time) eqn:C.
    + apply Z.leb_le in C.
      assert (L : Qle_bool (inject_Z (Z.abs z)) (inject_Z Date.max_time)
                  = true)
        by (apply Qle_bool_iff; rewrite <- Zle_Qle; exact C).
      rewrite L. reflexivity.
    + apply Z.leb_gt in C.
      destruct (Qle_bool (inject_Z (Z.abs z)) (inject_Z Date.max_time))
        eqn:L; [|reflexivity].
      apply Qle_bool_iff in L. rewrite <- Zle_Qle in L. lia.
  - assert (C : (Z.abs z <=? Date.max_time) = false)
      by (apply Z.leb_gt; lia).
    rewrite C. unfold Number.of_int.
    assert (Hq : (inject_Z (2 ^ 53) <= inject_Z z)%Q)
      by (rewrite <- Zle_Qle; exact Hup).
    destruct (round_at_least _ Hq) as [R | [v [R Hv]]]; rewrite R;
      [reflexivity|].
    unfold Date.of_number.
    destruct (Qle_bool (Qabs v) (inject_Z Date.max_time)) eqn:L;
      [|reflexivity].
    apply Qle_bool_iff in L.
    assert (Hm : (inject_Z Date.max_time < inject_Z (2 ^ 53))%Q)
      by (rewrite <- Zlt_Qlt; exact Hmax).
    pose proof (Qle_Qabs v) as Habs. lra.
Qed.

(** [new Date(Date.now() + ttl * 1000)] for a whole TTL. *)
Lemma date_of_whole_ttl (now seconds : Z) :
  Date.time_value now ->
  - 2 ^ 53 < seconds * 1000 < 2 ^ 53 ->
  Date.of_number
    (Number.add (Number.of_int now)
       (Number.mul (Number.of_int seconds) (Number.of_int 1000)))
  = if Z.abs (now + seconds * 1000) <=? Date.max_time
    then Date.At (now + seconds * 1000)
    else Date.Invalid.
Proof.
  intros Hnow Hs.
  assert (Hmax : Date.max_time < 2 ^ 53) by reflexivity.
  unfold Date.time_value in Hnow.
  rewrite (times_thousand seconds Hs), plus_whole by lia.
  apply date_of_whole. lia.
Qed.

(** ** The tracker *)

Lemma stored_under_own_key (d : string) (a : Tracker.AgentActivity)
  (t : Tracker.AgentTracker) :
  Tracker.one_per_dispatch t ->
  Tracker.get d (Tracker.activities t) = Some a ->
  Tracker.dispatchId a = d.
Proof.
  intros [_ Hall] G.
  apply (get_some_in _ String.eqb_eq) in G.
  rewrite Forall_forall in Hall. exact (Hall _ G).
Qed.

Lemma set_keeps_dispatch_keys (d : string) (a : Tracker.AgentActivity)
  (t : Tracker.AgentTracker) :
  Tracker.one_per_dispatch t ->
  Tracker.dispatchId a = d ->
  Tracker.one_per_dispatch
    (Tracker.with_activities t (Tracker.set d a (Tracker.activities t))).
Proof.
  intros [Hnd Hall] Hd. split; simpl.
  - apply (nodup_keys_set _ String.eqb_eq); assumption.
  - apply (forall_set String.eqb); [exact String.eqb_eq | assumption |].
    exact Hd.
Qed.

(** The date [markForCleanup] computes, and the entry it stores. *)
Lemma mark_known (dispatch : string) (ttlSeconds : option Number.number)
  (now : Z) (t : Tracker.AgentTracker) (activity : Tracker.AgentActivity) :
  Tracker.get dispatch (Tracker.activities t) = Some activity ->
  let ttl :=
    match ttlSeconds with
    | Some s => s
    | None => Tracker.defaultTtlSeconds t
    end in
  let expiresAt :=
    Date.of_number
      (Number.add (Number.of_int now)
         (Number.mul ttl (Number.of_int 1000))) in
  Tracker.after (Tracker.markForCleanup dispatch ttlSeconds now t)
  = Tracker.with_activities t
      (Tracker.set dispatch
         (Tracker.mkActivity (Tracker.dispatchId activity)
            (Tracker.roomName activity) (Tracker.agentName activity)
            (Tracker.createdAt activity) (Tracker.lastActivityAt activity)
            0 (Some expiresAt))
         (Tracker.activities t)).
Proof.
  intros G. cbv zeta. unfold Tracker.markForCleanup. rewrite G. cbv zeta.
  destruct (Date.of_number _); reflexivity.
Qed.

Lemma tracker_step_keeps_dispatch_keys (c : Tracker.Call)
  (t : Tracker.AgentTracker) :
  Tracker.one_per_dispatch t ->
  Tracker.one_per_dispatch (fst (Tracker.step c t)).
Proof.
  intros Inv.
  destruct c as [d r a p now | d ttl now | d now | d now | ]; simpl.
  - unfold Tracker.trackActivity.
    destruct (Tracker.get d (Tracker.activities t)) as [ex|] eqn:G; simpl;
      apply set_keeps_dispatch_keys; auto.
    simpl. eapply stored_under_own_key; eauto.
  - destruct (Tracker.get d (Tracker.activities t)) as [ex|] eqn:G.
    + pose proof (mark_known d ttl now t ex G) as Hm. cbv zeta in Hm.
      rewrite Hm. apply set_keeps_dispatch_keys; auto.
      simpl. eapply stored_under_own_key; eauto.
    + unfold Tracker.markForCleanup. rewrite G. simpl. assumption.
  - unfold Tracker.cancelCleanup.
    destruct (Tracker.get d (Tracker.activities t)) as [ex|] eqn:G; simpl;
      [|assumption].
    apply set_keeps_dispatch_keys; auto.
    simpl. eapply stored_under_own_key; eauto.
  - destruct Inv as [Hnd Hall]. split; simpl.
    + apply nodup_keys_delete; assumption.
    + apply forall_delete; assumption.
  - split; constructor.
Qed.

Lemma tracker_run_keeps_dispatch_keys (cs : list Tracker.Call)
  (t : Tracker.AgentTracker) :
  Tracker.one_per_dispatch t ->
  Tracker.one_per_dispatch (fst (Tracker.run cs t)).
Proof.
  revert t. induction cs as [|c cs IH]; intros t Inv; simpl; [assumption|].
  pose proof (tracker_step_keeps_dispatch_keys c t Inv) as Hstep.
  destruct (Tracker.step c t) as [t1 o1]. simpl in Hstep.
  specialize (IH t1 Hstep).
  destruct (Tracker.run cs t1) as [t2 o2]. exact IH.
Qed.

Example getActivity_returns_first_match :
  let t :=
    fst (Tracker.run
           [Tracker.CTrack "AD_1" "room-1" None None 1000;
            Tracker.CTrack "AD_2" "room-1" None None 2000]
           (Tracker.new None)) in
  Tracker.getActivity "room-1" None t
    = Some (Tracker.mkActivity "AD_1" "room-1" "task-assistant" 1000 1000 1
              None) /\
  Tracker.getActiveCount t = 2.
Proof. split; reflexivity. Qed.

(** C1, as stated, fails: two [trackActivity] calls with distinct dispatch
    ids for the same room and the default agent name leave two entries with
    the same (roomName, agentName) in the map. *)
Lemma C1_two_dispatches_share_a_room :
  ~ Tracker.one_per_room_agent
      (fst (Tracker.run
              [Tracker.CTrack "AD_1" "room-1" None None 1000;
               Tracker.CTrack "AD_2" "room-1" None None 2000]
              (Tracker.new None))).
Proof.
  intros H.
  specialize
    (H 0%nat 1%nat
       (Tracker.mkActivity "AD_1" "room-1" "task-assistant" 1000 1000 1 None)
       (Tracker.mkActivity "AD_2" "room-1" "task-assistant" 2000 2000 1 None)
       eq_refl eq_refl eq_refl eq_refl).
  discriminate H.
Qed.

(** C1 (amended): in every state the tracker reaches from construction by
    any sequence of trackActivity, markForCleanup, cancelCleanup,
    removeAgent and clear calls, the map holds at most one entry per
    dispatchId, and each entry is stored under its own dispatchId. *)
Theorem C1_at_most_one_entry_per_dispatch :
  forall (ttlSeconds : option Number.number) (calls : list Tracker.Call),
    Tracker.one_per_dispatch
      (fst (Tracker.run calls (Tracker.new ttlSeconds))).
Proof.
  intros ttl cs. apply tracker_run_keeps_dispatch_keys.
  split; simpl; constructor.
Qed.

(** ** Unknown dispatch ids *)

(** C8, as stated, fails for cancelCleanup: on a dispatch the tracker has
    never seen it prints nothing at all, so no warning is logged. *)
Lemma C8_cancel_unknown_is_silent :
  ~ Tracker.warns (snd (Tracker.cancelCleanup "AD_ghost" 1000 (Tracker.new None))).
Proof.
  intros [l Hl]. simpl in Hl. exact Hl.
Qed.

(** C8 (amended): for a dispatchId unknown to the tracker, markForCleanup
    leaves the tracker unchanged and prints exactly one warning, and
    cancelCleanup leaves the tracker unchanged and prints nothing; neither
    raises.  For a known dispatchId, markForCleanup zeroes
    participantCount, keeps the other fields and stores as ttlExpiresAt
    the date of Date.now() + ttl * 1000, computed on binary64 numbers (ttl
    is the argument, or the default TTL when it is omitted).  When that
    date is valid the call prints one line and returns; when it is an
    Invalid Date the call throws RangeError after the update and prints
    nothing.  For a whole TTL with |ttl * 1000| < 2^53 the date is exactly
    now + ttl * 1000 ms when that is within 8.64e15 ms of the epoch, and
    an Invalid Date otherwise. *)
Theorem C8_mark_and_cancel :
  forall (dispatch : string) (ttlSeconds : option Number.number) (now : Z)
         (t : Tracker.AgentTracker),
    (Tracker.getActivityByDispatchId dispatch t = None ->
     Tracker.markForCleanup dispatch ttlSeconds now t
       = Tracker.mkEffect t
           [(StdWarn, Tracker.CannotMarkUnknown now dispatch)] None /\
     Tracker.cancelCleanup dispatch now t = (t, [])) /\
    (forall a,
       Tracker.getActivityByDispatchId dispatch t = Some a ->
       let ttl :=
         match ttlSeconds with
         | Some s => s
         | None => Tracker.defaultTtlSeconds t
         end in
       let expiresAt :=
         Date.of_number
           (Number.add (Number.of_int now)
              (Number.mul ttl (Number.of_int 1000))) in
       let result := Tracker.markForCleanup dispatch ttlSeconds now t in
       let t' := Tracker.after result in
       Tracker.getActivityByDispatchId dispatch t'
         = Some (Tracker.mkActivity (Tracker.dispatchId a)
                   (Tracker.roomName a) (Tracker.agentName a)
                   (Tracker.createdAt a) (Tracker.lastActivityAt a)
                   0 (Some expiresAt)) /\
       Tracker.defaultTtlSeconds t' = Tracker.defaultTtlSeconds t /\
       JsMap.keys (Tracker.activities t') = JsMap.keys (Tracker.activities t) /\
       (forall other,
          other <> dispatch ->
          Tracker.getActivityByDispatchId other t'
            = Tracker.getActivityByDispatchId other t) /\
       (forall expires,
          expiresAt = Date.At expires ->
          Tracker.thrown result = None /\
          Tracker.printed result
            = [(StdLog,
                Tracker.MarkedForCleanup now dispatch (Tracker.roomName a)
                  ttl expires)]) /\
       (expiresAt = Date.Invalid ->
        Tracker.thrown result = Some (RangeError Date.invalid_time_value) /\
        Tracker.printed result = []) /\
       (forall seconds,
          ttl = Number.of_int seconds ->
          Date.time_value now ->
          - 2 ^ 53 < seconds * 1000 < 2 ^ 53 ->
          expiresAt
            = if Z.abs (now + seconds * 1000) <=? Date.max_time
              then Date.At (now + seconds * 1000)
              else Date.Invalid)).
Proof.
  intros d ttl now t. unfold Tracker.getActivityByDispatchId. split.
  - intros G. unfold Tracker.markForCleanup, Tracker.cancelCleanup.
    rewrite G. split; reflexivity.
  - intros a G. cbv zeta.
    pose proof (mark_known d ttl now t a G) as Hm. cbv zeta in Hm.
    rewrite Hm.
    split; [apply (get_set_same String.eqb String.eqb_eq)|].
    split; [reflexivity|].
    split; [eapply keys_set_present; exact G|].
    split.
    { intros other Hne.
      apply (get_set_other String.eqb String.eqb_eq). exact Hne. }
    unfold Tracker.markForCleanup. rewrite G. cbv zeta.
    split; [|split].
    + intros expires E. rewrite E. split; reflexivity.
    + intros E. rewrite E. split; reflexivity.
    + intros seconds Hs Hnow Hbound. rewrite Hs.
      apply date_of_whole_ttl; assumption.
Qed.

(** C8 at a concrete tracker: "AD_9" is unknown, "AD_1" is tracked; the
    default TTL of 300 s gives the date 305000, a TTL of 10^13 s gives an
    Invalid Date and a RangeError. *)
Lemma C8_mark_and_cancel_witness :
  let t :=
    fst (Tracker.trackActivity "AD_1" "room-1" None (Some 2) 1000
           (Tracker.new None)) in
  (Tracker.markForCleanup "AD_9" None 5000 t
     = Tracker.mkEffect t [(StdWarn, Tracker.CannotMarkUnknown 5000 "AD_9")]
         None /\
   Tracker.cancelCleanup "AD_9" 5000 t = (t, [])) /\
  Tracker.getActivityByDispatchId "AD_1"
    (Tracker.after (Tracker.markForCleanup "AD_1" None 5000 t))
    = Some (Tracker.mkActivity "AD_1" "room-1" "task-assistant" 1000 1000
              0 (Some (Date.At 305000))) /\
  Tracker.thrown
    (Tracker.markForCleanup "AD_1" (Some (Number.of_int (10 ^ 13))) 5000 t)
    = Some (RangeError Date.invalid_time_value).
Proof.
  intros t.
  pose proof (C8_mark_and_cancel "AD_9" None 5000 t) as [Hunknown _].
  pose proof (C8_mark_and_cancel "AD_1" None 5000 t) as [_ Hknown].
  pose proof (C8_mark_and_cancel "AD_1" (Some (Number.of_int (10 ^ 13)))
                5000 t) as [_ Hhuge].
  split; [|split].
  - apply Hunknown. reflexivity.
  - destruct (Hknown _ eq_refl) as [Hget [_ [_ [_ [_ [_ Hdate]]]]]].
    cbv zeta in Hget, Hdate.
    assert (Hnow : Date.time_value 5000)
      by (unfold Date.time_value, Date.max_time; lia).
    assert (Hbound : - 2 ^ 53 < 300 * 1000 < 2 ^ 53)
      by (split; reflexivity).
    rewrite (Hdate 300 eq_refl Hnow Hbound) in Hget. exact Hget.
  - destruct (Hhuge _ eq_refl) as [_ [_ [_ [_ [_ [Hthrow _]]]]]].
    cbv zeta in Hthrow. apply Hthrow. vm_compute. reflexivity.
Defined.

(** ** The cleanup worker *)

Lemma track_clears_ttl (dispatch room : string) (agent : option string)
  (participants : option Z) (now : Z) (t : Tracker.AgentTracker) :
  exists cur,
    Tracker.getActivityByDispatchId dispatch
      (fst (Tracker.trackActivity dispatch room agent participants now t))
      = Some cur /\
    Tracker.ttlExpiresAt cur = None.
Proof.
  unfold Tracker.trackActivity, Tracker.getActivityByDispatchId.
  destruct (Tracker.get dispatch (Tracker.activities t)) as [ex|]; simpl;
    eexists; (split; [apply (get_set_same String.eqb String.eqb_eq)|]);
    reflexivity.
Qed.

Lemma reactivated_is_not_expired (dispatch room : string)
  (agent : option string) (participants : option Z) (now time : Z)
  (t : Tracker.AgentTracker) (x : Tracker.AgentActivity) :
  Tracker.one_per_dispatch t ->
  In x (Tracker.getExpiredAgents time
          (fst (Tracker.trackActivity dispatch room agent participants now
                  t))) ->
  Tracker.dispatchId x <> dispatch.
Proof.
  intros Inv Hin Hd.
  pose proof (tracker_step_keeps_dispatch_keys
                (Tracker.CTrack dispatch room agent participants now) t Inv)
    as [Hnd Hall].
  simpl in Hnd, Hall.
  destruct (track_clears_ttl dispatch room agent participants now t)
    as [cur [G Hn]].
  set (t' := fst (Tracker.trackActivity dispatch room agent participants
                    now t)) in *.
  unfold Tracker.getExpiredAgents in Hin.
  apply filter_In in Hin. destruct Hin as [Hval Hexp].
  unfold JsMap.values in Hval. apply in_map_iff in Hval.
  destruct Hval as [[k v] [Hv Hkv]]. simpl in Hv. subst v.
  rewrite Forall_forall in Hall. pose proof (Hall _ Hkv) as Hk.
  simpl in Hk. rewrite Hd in Hk. subst k.
  pose proof (in_nodup_get String.eqb String.eqb_eq _ _ _ Hnd Hkv) as G'.
  unfold Tracker.getActivityByDispatchId, Tracker.get in G.
  rewrite G in G'. inversion G'; subst x.
  unfold Tracker.is_expired in Hexp. rewrite Hn in Hexp. discriminate.
Qed.

Lemma cleanup_skips_unexpired (svc : Cleanup.Service) (now later : Z)
  (agent cur : Tracker.AgentActivity) (w : Cleanup.World) :
  Tracker.getActivityByDispatchId (Tracker.dispatchId agent)
    (Cleanup.tracker w) = Some cur ->
  Tracker.is_expired now cur = false ->
  Cleanup.tracker (Cleanup.cleanupAgent svc now later agent w)
    = Cleanup.tracker w /\
  Cleanup.deleted (Cleanup.cleanupAgent svc now later agent w)
    = Cleanup.deleted w.
Proof.
  intros G Hexp. unfold Cleanup.cleanupAgent. rewrite G.
  unfold Tracker.is_expired in Hexp.
  destruct (Tracker.ttlExpiresAt cur) as [[e|]|]; simpl;
    try (split; reflexivity).
  assert (Hlt : (now <? e) = true)
    by (apply Z.ltb_lt; apply Z.leb_gt; exact Hexp).
  rewrite Hlt. split; reflexivity.
Qed.

(** C4: when [cleanupAgent] processes an entry of the scan, (1) if the
    tracker's current entry for that dispatch has its ttlExpiresAt cleared
    or set later than now, the entry is skipped: no external delete call
    is issued and the tracker is unchanged; (2) this is the case in
    particular after a [trackActivity] call for that dispatch made
    between the scan and the processing, and then no entry of that
    dispatch is returned by getExpiredAgents at any later time; (3) if the external deletion
    throws, the tracker is unchanged; (4) the tracker changes only when
    the external deletion succeeded, and then exactly by [removeAgent]. *)
Theorem C4_cleanup_rechecks_and_keeps_on_failure :
  forall (svc : Cleanup.Service) (now later : Z)
         (agent : Tracker.AgentActivity) (w : Cleanup.World),
    let w' := Cleanup.cleanupAgent svc now later agent w in
    (forall cur,
       Tracker.getActivityByDispatchId (Tracker.dispatchId agent)
         (Cleanup.tracker w) = Some cur ->
       (Tracker.ttlExpiresAt cur = None \/
        exists e, Tracker.ttlExpiresAt cur = Some (Date.At e) /\ now < e) ->
       Cleanup.tracker w' = Cleanup.tracker w /\
       Cleanup.deleted w' = Cleanup.deleted w) /\
    (forall (scanned : Tracker.AgentTracker) (scan_time : Z)
            (room : string) (name : option string)
            (participants : option Z) (at_time : Z),
       Tracker.one_per_dispatch scanned ->
       In agent (Tracker.getExpiredAgents scan_time scanned) ->
       Cleanup.tracker w
         = fst (Tracker.trackActivity (Tracker.dispatchId agent) room name
                  participants at_time scanned) ->
       (forall time x,
          In x (Tracker.getExpiredAgents time (Cleanup.tracker w)) ->
          Tracker.dispatchId x <> Tracker.dispatchId agent) /\
       Cleanup.tracker w' = Cleanup.tracker w /\
       Cleanup.deleted w' = Cleanup.deleted w) /\
    (forall message,
       svc (Cleanup.deleted w) (Tracker.dispatchId agent)
         (Tracker.roomName agent) = Cleanup.DeleteThrows message ->
       Cleanup.tracker w' = Cleanup.tracker w) /\
    (Cleanup.tracker w' <> Cleanup.tracker w ->
     svc (Cleanup.deleted w) (Tracker.dispatchId agent)
       (Tracker.roomName agent) = Cleanup.DeleteOk /\
     Cleanup.deleted w'
       = Cleanup.deleted w
         ++ [(Tracker.dispatchId agent, Tracker.roomName agent)] /\
     Cleanup.tracker w'
       = fst (Tracker.removeAgent (Tracker.dispatchId agent) later
                (Cleanup.tracker w))).
Proof.
  intros svc now later agent w w'. subst w'.
  split; [|split; [|split]].
  - intros cur G Hcur.
    eapply cleanup_skips_unexpired; [exact G|].
    unfold Tracker.is_expired.
    destruct Hcur as [Hn | [e [He Hlt]]]; [now rewrite Hn|].
    rewrite He. apply Z.leb_gt. exact Hlt.
  - intros scanned scan_time room name participants at_time Inv _ Hw.
    split.
    { intros time x Hx. rewrite Hw in Hx.
      eapply reactivated_is_not_expired; eauto. }
    destruct (track_clears_ttl (Tracker.dispatchId agent) room name
                participants at_time scanned) as [cur [G Hn]].
    rewrite <- Hw in G.
    assert (Hskip :
      Cleanup.tracker (Cleanup.cleanupAgent svc now later agent w)
        = Cleanup.tracker w /\
      Cleanup.deleted (Cleanup.cleanupAgent svc now later agent w)
        = Cleanup.deleted w).
    { eapply cleanup_skips_unexpired; [exact G|].
      unfold Tracker.is_expired. now rewrite Hn. }
    exact Hskip.
  - intros message Hthrow. unfold Cleanup.cleanupAgent.
    destruct (Tracker.getActivityByDispatchId _ _) as [cur|]; [|reflexivity].
    destruct (Tracker.ttlExpiresAt cur) as [[e|]|]; try reflexivity.
    destruct (now <? e); [reflexivity|].
    rewrite Hthrow. reflexivity.
  - unfold Cleanup.cleanupAgent.
    destruct (Tracker.getActivityByDispatchId _ _) as [cur|];
      [|simpl; congruence].
    destruct (Tracker.ttlExpiresAt cur) as [[e|]|]; try (simpl; congruence).
    destruct (now <? e); [simpl; congruence|].
    destruct (svc _ _ _); [|simpl; congruence].
    intros _. repeat split.
Qed.

(** A whole cycle on the scenario of the spec: "AD_1" is marked at 1000
    with a five-second TTL; the cycle that starts at 7000 issues one delete
    call and leaves the tracker empty, while a cycle at 3000 finds nothing
    to do. *)
Example cleanup_cycle_reclaims_expired :
  let marked :=
    fst (Tracker.run
           [Tracker.CTrack "AD_1" "room-1" None None 500;
            Tracker.CMark "AD_1" (Some (Number.of_int 5)) 1000]
           (Tracker.new None)) in
  let works : Cleanup.Service := fun _ _ _ => Cleanup.DeleteOk in
  let late := Cleanup.runCleanup works (fun i => 7000 + Z.of_nat i)
                (Cleanup.mkWorld marked [] []) in
  let early := Cleanup.runCleanup works (fun i => 3000 + Z.of_nat i)
                 (Cleanup.mkWorld marked [] []) in
  Tracker.activities (Cleanup.tracker late) = [] /\
  Cleanup.deleted late = [("AD_1", "room-1")] /\
  Cleanup.tracker early = marked /\
  Cleanup.deleted early = [].
Proof. repeat split. Qed.

(** C4 on a concrete cycle: "AD_1" was marked at 1000 with a one-second
    TTL and returned by the scan at 3000; it is then processed at 4000,
    after its TTL was extended at 3500, after a reactivation at 3500, and,
    still expired, against a service whose delete call throws and against
    one whose delete call succeeds. *)
Lemma C4_cleanup_rechecks_and_keeps_on_failure_witness :
  let scanned :=
    fst (Tracker.run
           [Tracker.CTrack "AD_1" "room-1" None None 500;
            Tracker.CMark "AD_1" (Some (Number.of_int 1)) 1000]
           (Tracker.new None)) in
  let agent :=
    Tracker.mkActivity "AD_1" "room-1" "task-assistant" 500 500 0
      (Some (Date.At 2000)) in
  let reactivated :=
    fst (Tracker.trackActivity "AD_1" "room-1" None None 3500 scanned) in
  let extended :=
    Tracker.after (Tracker.markForCleanup "AD_1" (Some (Number.of_int 300)) 3500 scanned) in
  let works : Cleanup.Service := fun _ _ _ => Cleanup.DeleteOk in
  let broken : Cleanup.Service :=
    fun _ _ _ => Cleanup.DeleteThrows (Some "unavailable") in
  (Cleanup.tracker
     (Cleanup.cleanupAgent works 4000 4001 agent
        (Cleanup.mkWorld extended [] []))
     = extended /\
   Cleanup.deleted
     (Cleanup.cleanupAgent works 4000 4001 agent
        (Cleanup.mkWorld extended [] []))
     = []) /\
  (Cleanup.tracker
     (Cleanup.cleanupAgent works 4000 4001 agent
        (Cleanup.mkWorld reactivated [] []))
     = reactivated /\
   Cleanup.deleted
     (Cleanup.cleanupAgent works 4000 4001 agent
        (Cleanup.mkWorld reactivated [] []))
     = []) /\
  Cleanup.tracker
    (Cleanup.cleanupAgent broken 4000 4001 agent
       (Cleanup.mkWorld scanned [] []))
    = scanned /\
  Cleanup.deleted
    (Cleanup.cleanupAgent works 4000 4001 agent
       (Cleanup.mkWorld scanned [] []))
    = [("AD_1", "room-1")].
Proof.
  intros scanned agent reactivated extended works broken.
  split; [|split; [|split]].
  - pose proof (C4_cleanup_rechecks_and_keeps_on_failure works 4000 4001
                  agent (Cleanup.mkWorld extended [] []))
      as [Hskip _].
    refine (Hskip
              (Tracker.mkActivity "AD_1" "room-1" "task-assistant" 500 500 0
                 (Some (Date.At 303500)))
              _ _).
    + vm_compute. reflexivity.
    + right. exists 303500. split; [reflexivity | lia].
  - pose proof (C4_cleanup_rechecks_and_keeps_on_failure works 4000 4001
                  agent (Cleanup.mkWorld reactivated [] []))
      as [_ [Hrace _]].
    refine (proj2 (Hrace scanned 3000 "room-1" None None 3500 _ _ eq_refl)).
    + vm_compute. split.
      * repeat constructor; simpl; tauto.
      * repeat constructor.
    + vm_compute. left. reflexivity.
  - pose proof (C4_cleanup_rechecks_and_keeps_on_failure broken 4000 4001
                  agent (Cleanup.mkWorld scanned [] []))
      as [_ [_ [Hfail _]]].
    exact (Hfail (Some "unavailable") eq_refl).
  - pose proof (C4_cleanup_rechecks_and_keeps_on_failure works 4000 4001
                  agent (Cleanup.mkWorld scanned [] []))
      as [_ [_ [_ Hremoved]]].
    refine (proj1 (proj2 (Hremoved _))).
    vm_compute. discriminate.
Defined.

(** ** The dispatch route *)

Lemma post_with_valid_request (svc : Dispatch.Service) (env : Dispatch.Env)
  (b : Dispatch.Body) (w : Dispatch.World)
  (name apiKey apiSecret wsUrl : string) :
  Dispatch.roomName b = VString name ->
  name <> EmptyString ->
  Dispatch.configured (Dispatch.LIVEKIT_API_KEY env) = Some apiKey ->
  Dispatch.configured (Dispatch.LIVEKIT_API_SECRET env) = Some apiSecret ->
  Dispatch.configured (Dispatch.NEXT_PUBLIC_LIVEKIT_URL env) = Some wsUrl ->
  Dispatch.POST svc env (Dispatch.BodyParsed b) w
  = let metadata := Dispatch.metadata_of b in
    let call :=
      Dispatch.CreateDispatch (Dispatch.livekitHost wsUrl) name
        Dispatch.AGENT_NAME metadata in
    let console1 :=
      Dispatch.console w ++ [(StdLog, Dispatch.CreatingDispatch name)] in
    match svc (Dispatch.registry w) (Dispatch.effects w) name
            Dispatch.AGENT_NAME metadata with
    | Dispatch.Created new_id =>
        (Dispatch.mkResponse 200
           [("success", VBool true); ("dispatchId", VString new_id)],
         Dispatch.mkWorld
           (Dispatch.registry w
            ++ [Dispatch.mkDispatch new_id name Dispatch.AGENT_NAME metadata])
           (Dispatch.effects w ++ [call])
           (Dispatch.tracker w)
           (console1 ++ [(StdLog, Dispatch.DispatchedSuccessfully new_id)]))
    | Dispatch.CreateThrows message =>
        (Dispatch.mkResponse 500
           [("error", VString "Failed to dispatch agent");
            ("details",
             VString (match message with
                      | Some m => m
                      | None => "Unknown error"
                      end))],
         Dispatch.mkWorld (Dispatch.registry w)
           (Dispatch.effects w ++ [call])
           (Dispatch.tracker w)
           (console1 ++ [(StdError, Dispatch.ErrorDispatching message)]))
    | Dispatch.CreateThrowsAfterRegistering new_id message =>
        (Dispatch.mkResponse 500
           [("error", VString "Failed to dispatch agent");
            ("details",
             VString (match message with
                      | Some m => m
                      | None => "Unknown error"
                      end))],
         Dispatch.mkWorld
           (Dispatch.registry w
            ++ [Dispatch.mkDispatch new_id name Dispatch.AGENT_NAME metadata])
           (Dispatch.effects w ++ [call])
           (Dispatch.tracker w)
           (console1 ++ [(StdError, Dispatch.ErrorDispatching message)]))
    end.
Proof.
  intros Hroom Hname Hkey Hsecret Hurl. unfold Dispatch.POST.
  rewrite Hroom. apply String.eqb_neq in Hname. rewrite Hname.
  rewrite Hkey, Hsecret, Hurl. cbv zeta.
  destruct (svc _ _ _ _ _); reflexivity.
Qed.

Lemma one_more_create (effects : list Dispatch.Effect)
  (host room agent : string) (metadata : Dispatch.Metadata) :
  (List.length
     (filter Dispatch.is_create
        (effects ++ [Dispatch.CreateDispatch host room agent metadata]))
   - List.length (filter Dispatch.is_create effects))%nat = 1%nat.
Proof.
  rewrite filter_app, length_app. simpl. lia.
Qed.

Lemma no_new_delay (effects : list Dispatch.Effect)
  (host room agent : string) (metadata : Dispatch.Metadata) :
  skipn (List.length (filter Dispatch.is_sleep effects))
    (filter Dispatch.is_sleep
       (effects ++ [Dispatch.CreateDispatch host room agent metadata]))
  = [].
Proof.
  rewrite filter_app. simpl. rewrite app_nil_r. apply skipn_all.
Qed.

(** C2, as stated, fails: room "room-1" has exactly one dispatch "AD_1"
    registered externally, yet a connect for it calls the external create
    operation and answers with the new id "AD_2" and no [reused] flag. *)
Lemma C2_existing_dispatch_is_not_reused :
  let existing :=
    Dispatch.mkDispatch "AD_1" "room-1" Dispatch.AGENT_NAME
      (Dispatch.metadata_of
         (Dispatch.mkBody (VString "room-1") VUndefined VUndefined)) in
  let svc : Dispatch.Service := fun _ _ _ _ _ => Dispatch.Created "AD_2" in
  let env :=
    Dispatch.mkEnv (Some "key") (Some "secret") (Some "wss://lk.example") in
  let req :=
    Dispatch.BodyParsed
      (Dispatch.mkBody (VString "room-1") (VString "Europe/Paris")
         (VNumber (-60))) in
  let w := Dispatch.mkWorld [existing] [] (Tracker.new None) [] in
  Dispatch.dispatches_for "room-1" (Dispatch.registry w) = [existing] /\
  ~ Dispatch.reports_reuse_of existing
      (fst (Dispatch.POST svc env req w)) w
      (snd (Dispatch.POST svc env req w)).
Proof.
  simpl. split; [reflexivity|].
  intros [Hreused _]. discriminate Hreused.
Qed.

(** C2 (amended): for every connect request with a non-empty string
    roomName and configured credentials, the handler calls the external
    create operation exactly once, whatever dispatches are already
    registered for the room, and issues no other external call; when the
    create succeeds it answers 200 with success = true and the new
    dispatch id, without a [reused] field (the client reads that as not
    reused), and leaves the tracker untouched. *)
Theorem C2_connect_always_creates :
  forall (svc : Dispatch.Service) (env : Dispatch.Env) (b : Dispatch.Body)
         (w : Dispatch.World) (name apiKey apiSecret wsUrl new_id : string),
    Dispatch.roomName b = VString name ->
    name <> EmptyString ->
    Dispatch.configured (Dispatch.LIVEKIT_API_KEY env) = Some apiKey ->
    Dispatch.configured (Dispatch.LIVEKIT_API_SECRET env) = Some apiSecret ->
    Dispatch.configured (Dispatch.NEXT_PUBLIC_LIVEKIT_URL env) = Some wsUrl ->
    svc (Dispatch.registry w) (Dispatch.effects w) name Dispatch.AGENT_NAME
      (Dispatch.metadata_of b) = Dispatch.Created new_id ->
    let r := fst (Dispatch.POST svc env (Dispatch.BodyParsed b) w) in
    let w' := snd (Dispatch.POST svc env (Dispatch.BodyParsed b) w) in
    r = Dispatch.mkResponse 200
          [("success", VBool true); ("dispatchId", VString new_id)] /\
    Dispatch.field "reused" r = None /\
    Dispatch.client_sees_reused r = false /\
    Dispatch.effects w'
      = Dispatch.effects w
        ++ [Dispatch.CreateDispatch (Dispatch.livekitHost wsUrl) name
              Dispatch.AGENT_NAME (Dispatch.metadata_of b)] /\
    Dispatch.creates_issued w w' = 1%nat /\
    Dispatch.registry w'
      = Dispatch.registry w
        ++ [Dispatch.mkDispatch new_id name Dispatch.AGENT_NAME
              (Dispatch.metadata_of b)] /\
    Dispatch.tracker w' = Dispatch.tracker w.
Proof.
  intros svc env b w name apiKey apiSecret wsUrl new_id
    Hroom Hname Hkey Hsecret Hurl Hcreate r w'.
  subst r w'.
  rewrite (post_with_valid_request svc env b w name apiKey apiSecret wsUrl
             Hroom Hname Hkey Hsecret Hurl).
  cbv zeta. rewrite Hcreate. simpl.
  repeat split. unfold Dispatch.creates_issued. simpl.
  apply one_more_create.
Qed.

(** C2 on the two scenarios of the claim: a room without any dispatch and
    a room that already has one. *)
Lemma C2_connect_always_creates_witness :
  let svc : Dispatch.Service :=
    fun registry _ _ _ _ =>
      match registry with
      | [] => Dispatch.Created "AD_1"
      | _ => Dispatch.Created "AD_2"
      end in
  let env :=
    Dispatch.mkEnv (Some "key") (Some "secret") (Some "wss://lk.example") in
  let b := Dispatch.mkBody (VString "room-1") VUndefined VUndefined in
  let w0 := Dispatch.mkWorld [] [] (Tracker.new None) [] in
  let w1 := snd (Dispatch.POST svc env (Dispatch.BodyParsed b) w0) in
  fst (Dispatch.POST svc env (Dispatch.BodyParsed b) w0)
    = Dispatch.mkResponse 200
        [("success", VBool true); ("dispatchId", VString "AD_1")] /\
  fst (Dispatch.POST svc env (Dispatch.BodyParsed b) w1)
    = Dispatch.mkResponse 200
        [("success", VBool true); ("dispatchId", VString "AD_2")] /\
  Dispatch.creates_issued w1
    (snd (Dispatch.POST svc env (Dispatch.BodyParsed b) w1)) = 1%nat.
Proof.
  intros svc env b w0 w1.
  assert (Hne : "room-1" <> EmptyString) by discriminate.
  pose proof (C2_connect_always_creates svc env b w0 "room-1" "key" "secret"
                "wss://lk.example" "AD_1"
                eq_refl Hne eq_refl eq_refl eq_refl eq_refl) as H0.
  pose proof (C2_connect_always_creates svc env b w1 "room-1" "key" "secret"
                "wss://lk.example" "AD_2"
                eq_refl Hne eq_refl eq_refl eq_refl eq_refl) as H1.
  cbv zeta in H0, H1.
  split; [exact (proj1 H0)|].
  split; [exact (proj1 H1)|].
  exact (proj1 (proj2 (proj2 (proj2 (proj2 H1))))).
Defined.

(** C3, as stated, fails: the first create call throws and a second one
    would succeed, yet the handler answers 500 after that single call,
    without any retry. *)
Lemma C3_failed_creation_is_not_retried :
  let svc : Dispatch.Service :=
    fun _ effects _ _ _ =>
      if existsb Dispatch.is_create effects
      then Dispatch.Created "AD_1"
      else Dispatch.CreateThrows (Some "deadline exceeded") in
  let env :=
    Dispatch.mkEnv (Some "key") (Some "secret") (Some "wss://lk.example") in
  let req :=
    Dispatch.BodyParsed
      (Dispatch.mkBody (VString "room-1") VUndefined VUndefined) in
  let w := Dispatch.mkWorld [] [] (Tracker.new None) [] in
  Dispatch.status (fst (Dispatch.POST svc env req w)) = 500 /\
  ~ Dispatch.retried w (snd (Dispatch.POST svc env req w)).
Proof.
  simpl. split; [reflexivity|].
  unfold Dispatch.retried, Dispatch.creates_issued. simpl. lia.
Qed.

(** A create call that throws after the server has registered the
    dispatch: the handler answers 500 and the room has a dispatch that no
    answer names. *)
Example registered_and_reported_failed :
  let svc : Dispatch.Service :=
    fun _ _ _ _ _ =>
      Dispatch.CreateThrowsAfterRegistering "AD_1"
        (Some "deadline exceeded") in
  let env :=
    Dispatch.mkEnv (Some "key") (Some "secret") (Some "wss://lk.example") in
  let b := Dispatch.mkBody (VString "room-1") VUndefined VUndefined in
  let w := Dispatch.mkWorld [] [] (Tracker.new None) [] in
  let r := fst (Dispatch.POST svc env (Dispatch.BodyParsed b) w) in
  let w' := snd (Dispatch.POST svc env (Dispatch.BodyParsed b) w) in
  Dispatch.status r = 500 /\
  Dispatch.field "dispatchId" r = None /\
  Dispatch.registry w'
    = [Dispatch.mkDispatch "AD_1" "room-1" Dispatch.AGENT_NAME
         (Dispatch.metadata_of b)].
Proof. vm_compute. repeat split. Qed.

(** C3 (amended): for every connect request whose external create call
    throws, whether or not the server has registered the dispatch by
    then, the handler makes exactly that one create call, with no retry
    and no delay, answers 500 with error "Failed to dispatch agent" (and
    the error's message as details), and leaves the tracker as it was: no
    trackActivity call is made. *)
Theorem C3_failed_creation_surfaces_at_once :
  forall (svc : Dispatch.Service) (env : Dispatch.Env) (b : Dispatch.Body)
         (w : Dispatch.World) (name apiKey apiSecret wsUrl : string)
         (message : option string),
    Dispatch.roomName b = VString name ->
    name <> EmptyString ->
    Dispatch.configured (Dispatch.LIVEKIT_API_KEY env) = Some apiKey ->
    Dispatch.configured (Dispatch.LIVEKIT_API_SECRET env) = Some apiSecret ->
    Dispatch.configured (Dispatch.NEXT_PUBLIC_LIVEKIT_URL env) = Some wsUrl ->
    Dispatch.thrown
      (svc (Dispatch.registry w) (Dispatch.effects w) name
         Dispatch.AGENT_NAME (Dispatch.metadata_of b)) = Some message ->
    let r := fst (Dispatch.POST svc env (Dispatch.BodyParsed b) w) in
    let w' := snd (Dispatch.POST svc env (Dispatch.BodyParsed b) w) in
    r = Dispatch.mkResponse 500
          [("error", VString "Failed to dispatch agent");
           ("details",
            VString (match message with
                     | Some m => m
                     | None => "Unknown error"
                     end))] /\
    Dispatch.effects w'
      = Dispatch.effects w
        ++ [Dispatch.CreateDispatch (Dispatch.livekitHost wsUrl) name
              Dispatch.AGENT_NAME (Dispatch.metadata_of b)] /\
    Dispatch.creates_issued w w' = 1%nat /\
    Dispatch.delays_issued w w' = [] /\
    Dispatch.tracker w' = Dispatch.tracker w.
Proof.
  intros svc env b w name apiKey apiSecret wsUrl message
    Hroom Hname Hkey Hsecret Hurl Hthrow r w'.
  subst r w'.
  rewrite (post_with_valid_request svc env b w name apiKey apiSecret wsUrl
             Hroom Hname Hkey Hsecret Hurl).
  cbv zeta.
  destruct (svc _ _ _ _ _) as [new_id | m | new_id m];
    simpl in Hthrow; [discriminate Hthrow | |];
    inversion Hthrow; subst m; simpl; repeat split.
  - unfold Dispatch.creates_issued. simpl. apply one_more_create.
  - unfold Dispatch.delays_issued. simpl. apply no_new_delay.
  - unfold Dispatch.creates_issued. simpl. apply one_more_create.
  - unfold Dispatch.delays_issued. simpl. apply no_new_delay.
Qed.

(** C3 against a service whose first create call throws. *)
Lemma C3_failed_creation_surfaces_at_once_witness :
  let svc : Dispatch.Service :=
    fun _ effects _ _ _ =>
      if existsb Dispatch.is_create effects
      then Dispatch.Created "AD_1"
      else Dispatch.CreateThrows (Some "deadline exceeded") in
  let env :=
    Dispatch.mkEnv (Some "key") (Some "secret") (Some "wss://lk.example") in
  let b := Dispatch.mkBody (VString "room-1") VUndefined VUndefined in
  let w := Dispatch.mkWorld [] [] (Tracker.new None) [] in
  fst (Dispatch.POST svc env (Dispatch.BodyParsed b) w)
    = Dispatch.mkResponse 500
        [("error", VString "Failed to dispatch agent");
         ("details", VString "deadline exceeded")] /\
  Dispatch.creates_issued w
    (snd (Dispatch.POST svc env (Dispatch.BodyParsed b) w)) = 1%nat /\
  Dispatch.tracker (snd (Dispatch.POST svc env (Dispatch.BodyParsed b) w))
    = Tracker.new None.
Proof.
  intros svc env b w.
  assert (Hne : "room-1" <> EmptyString) by discriminate.
  pose proof (C3_failed_creation_surfaces_at_once svc env b w "room-1" "key"
                "secret" "wss://lk.example" (Some "deadline exceeded")
                eq_refl Hne eq_refl eq_refl eq_refl eq_refl) as H.
  cbv zeta in H.
  destruct H as [Hr [_ [Hc [_ Ht]]]].
  split; [exact Hr|]. split; [exact Hc | exact Ht].
Defined.

(** ** The log rate limiter: the token bucket *)

Lemma one_is_binary64 : Number.binary64 Number.one = true.
Proof. vm_compute. reflexivity. Qed.

Lemma time_values_are_exact (z : Z) :
  0 <= z <= Date.max_time -> - 2 ^ 53 < z < 2 ^ 53.
Proof.
  unfold Date.max_time. change (2 ^ 53) with 9007199254740992. lia.
Qed.

(** The elapsed seconds of a refill: not negative and finite, as long as
    the elapsed milliseconds are a time value. *)
Lemma elapsed_seconds_ok (elapsedMs : Z) :
  0 <= elapsedMs <= Date.max_time ->
  Number.nonneg
    (Number.div (Number.of_int elapsedMs) (Number.of_int 1000)) /\
  Number.is_finite
    (Number.div (Number.of_int elapsedMs) (Number.of_int 1000)) = true.
Proof.
  intros H. pose proof (time_values_are_exact elapsedMs H) as Hx.
  rewrite (of_int_exact elapsedMs Hx), thousand_is_exact.
  destruct (Z.eqb_spec elapsedMs 0) as [E|N]; [split; reflexivity|].
  unfold Number.div.
  assert (H0 : (0 <= inject_Z elapsedMs)%Q)
    by (change 0%Q with (inject_Z 0); rewrite <- Zle_Qle; lia).
  assert (H1 : (0 <= inject_Z elapsedMs / 1000)%Q)
    by (apply Qle_shift_div_l; lra).
  assert (H2 : (inject_Z elapsedMs / 1000 <= inject_Z elapsedMs)%Q)
    by (apply Qle_shift_div_r; lra).
  assert (H3 : (inject_Z elapsedMs <= inject_Z (2 ^ 53))%Q)
    by (rewrite <- Zle_Qle; lia).
  split.
  - apply round_nonneg. exact H1.
  - apply round_finite; [exact H1 | lra].
Qed.

Lemma finite_below (x b : Number.number) :
  Number.nonneg x -> Number.le x b = true -> Number.is_finite b = true ->
  Number.is_finite x = true.
Proof.
  unfold Number.nonneg.
  destruct x as [|[|]|a|p], b as [|[|]|c|q]; simpl; intros H0 H1 H2;
    congruence.
Qed.

(** A refill caps the count at the bucket size, unless it yields NaN. *)
Lemma refill_caps (now : Z) (s : Limiter.LogRateLimiter) :
  Number.le (Limiter.tokens (Limiter.refillTokens now s))
    (Limiter.bucketSize s) = true \/
  Limiter.tokens (Limiter.refillTokens now s) = Number.NaN.
Proof.
  cbn [Limiter.tokens Limiter.refillTokens].
  set (sum := Number.add _ _).
  destruct (Limiter.bucketSize s) as [|a|a|p] eqn:B;
    [right; reflexivity| | |];
    (destruct sum as [|b|b|q] eqn:S;
     [right; reflexivity| | |]);
    left; apply min_le_l; congruence.
Qed.

Lemma refill_keeps_inv (t now : Z) (s : Limiter.LogRateLimiter) :
  Limiter.inv t s -> t <= now <= Date.max_time ->
  Limiter.inv now (Limiter.refillTokens now s).
Proof.
  intros [[Hlo Hhi] [Hbt [Hbb [Hfb [Hfr [Hnr Hclock]]]]]] Hnow.
  destruct (elapsed_seconds_ok (now - Limiter.lastRefillTime s))
    as [Hnes Hfes]; [lia|].
  set (tokensToAdd :=
         Number.mul
           (Number.div (Number.of_int (now - Limiter.lastRefillTime s))
              (Number.of_int 1000))
           (Limiter.maxLogsPerSecond s)).
  assert (Hadd : Number.nonneg tokensToAdd)
    by (apply nonneg_mul; assumption).
  assert (Hsum : Number.nonneg (Number.add (Limiter.tokens s) tokensToAdd))
    by (apply nonneg_add; assumption).
  assert (Hnb : Number.nonneg (Limiter.bucketSize s))
    by (exact (number_le_trans _ _ _ Hlo Hhi)).
  unfold Limiter.inv, Limiter.bucket_ok.
  cbn [Limiter.tokens Limiter.bucketSize Limiter.maxLogsPerSecond
       Limiter.lastRefillTime Limiter.refillTokens].
  fold tokensToAdd.
  split; [split|].
  - apply min_nonneg; assumption.
  - apply min_le_l; apply nonneg_not_nan; assumption.
  - split.
    + apply binary64_min; [exact Hbb|].
      apply binary64_add; [exact Hbt | apply binary64_mul].
    + repeat split; try assumption; lia.
Qed.

(** What [shouldLog] does to the bucket: after the refill it takes one
    token when the test [tokens >= 1] succeeds, and none otherwise. *)
Lemma shouldLog_consumes (level : Limiter.LogLevel) (now : Z)
  (s : Limiter.LogRateLimiter) :
  let refilled := Limiter.refillTokens now s in
  let s' := snd (Limiter.shouldLog level now s) in
  (Number.ge (Limiter.tokens refilled) Number.one = true /\
   Limiter.tokens s' = Number.sub (Limiter.tokens refilled) Number.one) \/
  (Number.ge (Limiter.tokens refilled) Number.one = false /\
   Limiter.tokens s' = Limiter.tokens refilled).
Proof.
  cbv zeta. unfold Limiter.shouldLog.
  destruct (Number.ge (Limiter.tokens (Limiter.refillTokens now s))
              Number.one) eqn:E.
  - left. split; [reflexivity|]. destruct level; reflexivity.
  - right. split; [reflexivity|]. destruct level; reflexivity.
Qed.

Lemma shouldLog_frame (level : Limiter.LogLevel) (now : Z)
  (s : Limiter.LogRateLimiter) :
  let s' := snd (Limiter.shouldLog level now s) in
  Limiter.maxLogsPerSecond s' = Limiter.maxLogsPerSecond s /\
  Limiter.bucketSize s' = Limiter.bucketSize s /\
  Limiter.lastRefillTime s' = now /\
  Limiter.messageAggregation s' = Limiter.messageAggregation s /\
  Limiter.lastAggregationCleanup s' = Limiter.lastAggregationCleanup s.
Proof.
  cbv zeta. unfold Limiter.shouldLog.
  destruct level;
    destruct (Number.ge (Limiter.tokens (Limiter.refillTokens now s))
                Number.one);
    simpl; repeat split.
Qed.

Lemma shouldLog_keeps_inv (level : Limiter.LogLevel) (t now : Z)
  (s : Limiter.LogRateLimiter) :
  Limiter.inv t s -> t <= now <= Date.max_time ->
  Limiter.inv now (snd (Limiter.shouldLog level now s)).
Proof.
  intros Hinv Hnow.
  pose proof (refill_keeps_inv t now s Hinv Hnow) as Hr.
  pose proof (shouldLog_consumes level now s) as Hc.
  pose proof (shouldLog_frame level now s) as [Hf1 [Hf2 [Hf3 _]]].
  cbv zeta in Hc, Hf1, Hf2, Hf3.
  destruct Hr as [[Hlo Hhi] [Hbt [Hbb [Hfb [Hfr [Hnr Hclock]]]]]].
  cbn [Limiter.bucketSize Limiter.maxLogsPerSecond Limiter.lastRefillTime
       Limiter.refillTokens] in Hhi, Hbb, Hfb, Hfr, Hnr, Hclock.
  set (refilled := Limiter.tokens (Limiter.refillTokens now s)) in *.
  set (s' := snd (Limiter.shouldLog level now s)) in *.
  unfold Limiter.inv, Limiter.bucket_ok. rewrite Hf1, Hf2, Hf3.
  assert (Hfin : Number.is_finite refilled = true)
    by (exact (finite_below _ _ Hlo Hhi Hfb)).
  destruct Hc as [[Hge He] | [Hge He]]; rewrite He.
  - destruct (sub_one refilled Hbt Hfin Hge) as [Hn [Hle _]].
    split; [split; [exact Hn | exact (number_le_trans _ _ _ Hle Hhi)]|].
    split; [apply binary64_sub; [exact Hbt | exact one_is_binary64]|].
    repeat split; try assumption; lia.
  - split; [split; assumption|]. repeat split; try assumption; lia.
Qed.

Lemma log_keeps_inv (level : Limiter.LogLevel) (message : string)
  (args : list string) (t now : Z) (s : Limiter.LogRateLimiter) :
  Limiter.inv t s -> t <= now <= Date.max_time ->
  Limiter.inv now (fst (Limiter.log level message args now s)).
Proof.
  intros Hinv Hnow. unfold Limiter.log.
  destruct (Limiter.shouldAggregate message).
  - simpl. unfold Limiter.aggregateMessage.
    destruct Hinv as [Hb [Hbt [Hbb [Hfb [Hfr [Hnr Hclock]]]]]].
    destruct (JsMap.get _ _ _);
      (split; [exact Hb|]; repeat split; try assumption; simpl; lia).
  - pose proof (shouldLog_keeps_inv level t now s Hinv Hnow) as H.
    destruct (Limiter.shouldLog level now s) as [allowed s'].
    cbn [snd] in H. destruct allowed; exact H.
Qed.

Lemma tick_keeps_inv (t now : Z) (s : Limiter.LogRateLimiter) :
  Limiter.inv t s -> t <= now ->
  Limiter.inv now (fst (Limiter.reportTick now s)).
Proof.
  intros [Hb [Hbt [Hbb [Hfb [Hfr [Hnr Hclock]]]]]] Hnow.
  unfold Limiter.reportTick, Limiter.flushAggregatedMessages.
  destruct (now - Limiter.lastAggregationCleanup s <? Limiter.aggregationWindowMs);
    cbv iota beta;
    match goal with
    | |- context [if ?c then _ else _] => destruct c
    end;
    try match goal with
    | |- context [if ?c then _ else _] => destruct c
    end;
    (split; [exact Hb|]; repeat split; try assumption; simpl; lia).
Qed.

Lemma step_keeps_inv (c : Limiter.Call) (t : Z)
  (s : Limiter.LogRateLimiter) :
  Limiter.inv t s ->
  Limiter.clock_monotone t [c] ->
  Limiter.clock_below Date.max_time [c] ->
  exists t',
    Limiter.inv t' (fst (Limiter.step c s)) /\
    forall rest,
      Limiter.clock_monotone t (c :: rest) -> Limiter.clock_monotone t' rest.
Proof.
  intros Hinv Hclock Hbelow.
  destruct c as [level message args now | now | ]; simpl in *.
  - exists now. split; [apply (log_keeps_inv _ _ _ t); tauto | tauto].
  - exists now. split; [apply (tick_keeps_inv t); tauto | tauto].
  - exists t. split; [|tauto].
    destruct Hinv as [Hb [Hbt [Hbb [Hfb [Hfr [Hnr Hc]]]]]].
    split; [exact Hb|]. repeat split; try assumption; simpl; lia.
Qed.

Lemma run_keeps_inv (cs : list Limiter.Call) (t : Z)
  (s : Limiter.LogRateLimiter) :
  Limiter.inv t s ->
  Limiter.clock_monotone t cs ->
  Limiter.clock_below Date.max_time cs ->
  Limiter.bucket_ok (fst (Limiter.run cs s)).
Proof.
  revert t s. induction cs as [|c cs IH]; intros t s Hinv Hclock Hbelow.
  - simpl. apply Hinv.
  - assert (Hhead : Limiter.clock_monotone t [c]).
    { destruct c; simpl in *; tauto. }
    assert (Hhead' : Limiter.clock_below Date.max_time [c]).
    { destruct c; simpl in *; tauto. }
    assert (Htail : Limiter.clock_below Date.max_time cs).
    { destruct c; simpl in *; tauto. }
    destruct (step_keeps_inv c t s Hinv Hhead Hhead') as [t' [Hinv' Hrest]].
    specialize (Hrest cs Hclock). simpl.
    destruct (Limiter.step c s) as [s1 o1]. simpl in Hinv'.
    specialize (IH t' s1 Hinv' Hrest Htail).
    destruct (Limiter.run cs s1) as [s2 o2]. exact IH.
Qed.

(** C6, as stated, fails in two ways: a limiter constructed with a negative
    rate starts with a negative token count, and a wall-clock reading
    earlier than the previous one makes the refill subtract tokens (here
    one second back at rate 400 takes the count from 399 to -1). *)
Lemma C6_bucket_bound_can_break :
  ~ Limiter.bucket_ok (Limiter.new (Some (Number.of_int (-1))) 0) /\
  ~ Limiter.bucket_ok
      (fst (Limiter.run
              [Limiter.CLog Limiter.INFO "connected" [] 1000;
               Limiter.CLog Limiter.INFO "ready" [] 0]
              (Limiter.new None 1000))).
Proof.
  split; intros [Hlo _]; vm_compute in Hlo; discriminate Hlo.
Qed.

(** C6 (amended): provided the configured rate is a finite number that is
    not negative and the clock readings are time values that never
    decrease, the token count satisfies 0 <= tokens <= bucketSize in every
    state reached from construction by log calls at any level, periodic
    ticks and counter resets.  The bucket starts full, every refill caps
    the count at bucketSize unless it yields NaN, and a log call takes one
    token only when, after the refill, the test tokens >= 1 succeeds. *)
Theorem C6_bucket_bound :
  forall (maxLogsPerSecond : option Number.number) (start : Z)
         (calls : list Limiter.Call),
    Limiter.rate_ok (Limiter.configured_rate maxLogsPerSecond) ->
    0 <= start ->
    Limiter.clock_monotone start calls ->
    Limiter.clock_below Date.max_time calls ->
    Limiter.bucket_ok
      (fst (Limiter.run calls (Limiter.new maxLogsPerSecond start))) /\
    Limiter.tokens (Limiter.new maxLogsPerSecond start)
      = Limiter.bucketSize (Limiter.new maxLogsPerSecond start) /\
    (forall now s,
       Number.le (Limiter.tokens (Limiter.refillTokens now s))
         (Limiter.bucketSize s) = true \/
       Limiter.tokens (Limiter.refillTokens now s) = Number.NaN) /\
    (forall level now s,
       let refilled := Limiter.refillTokens now s in
       let s' := snd (Limiter.shouldLog level now s) in
       (Number.ge (Limiter.tokens refilled) Number.one = true /\
        Limiter.tokens s'
          = Number.sub (Limiter.tokens refilled) Number.one) \/
       (Number.ge (Limiter.tokens refilled) Number.one = false /\
        Limiter.tokens s' = Limiter.tokens refilled)).
Proof.
  intros rate start calls [Hb [Hf Hn]] Hstart Hclock Hbelow.
  split; [|split; [reflexivity | split]].
  - apply (run_keeps_inv calls start); [|exact Hclock | exact Hbelow].
    unfold Limiter.inv, Limiter.bucket_ok. simpl.
    split; [split; [exact Hn|]|].
    + apply number_le_refl. apply nonneg_not_nan. exact Hn.
    + repeat split; try assumption; lia.
  - apply refill_caps.
  - apply shouldLog_consumes.
Qed.

(** C6 on a burst: three INFO lines within one millisecond at rate 2, then
    an ERROR line and a tick a minute later. *)
Lemma C6_bucket_bound_witness :
  Limiter.bucket_ok
    (fst (Limiter.run
            [Limiter.CLog Limiter.INFO "a" [] 10;
             Limiter.CLog Limiter.INFO "b" [] 10;
             Limiter.CLog Limiter.INFO "c" [] 11;
             Limiter.CLog Limiter.ERROR "d" [] 11;
             Limiter.CTick 60010]
            (Limiter.new (Some (Number.of_int 2)) 10))).
Proof.
  refine (proj1 (C6_bucket_bound (Some (Number.of_int 2)) 10 _ _ _ _ _)).
  - vm_compute. repeat split.
  - lia.
  - simpl. lia.
  - vm_compute. repeat split; discriminate.
Defined.

(** A refill that rounds up to a whole token: with 0.7999999999999999
    tokens at rate 1, 200 ms after the last refill, the sum is exactly 1;
    an INFO line is printed and takes that token. *)
Example refill_rounds_to_a_whole_token :
  let s :=
    Limiter.with_tokens (Limiter.new (Some (Number.of_int 1)) 800)
      (Number.div (Number.of_int 7999999999999999)
         (Number.of_int 10000000000000000)) in
  Limiter.tokens (Limiter.refillTokens 1000 s) = Number.one /\
  Limiter.log Limiter.INFO "m10" [] 1000 s
    = (Limiter.with_tokens (Limiter.refillTokens 1000 s) (Number.Zero false),
       [(StdInfo, Limiter.Plain Limiter.INFO "m10" [])]).
Proof. vm_compute. split; reflexivity. Qed.

(** A rate of Infinity: at the instant of the construction the refill
    multiplies zero elapsed seconds by Infinity, and the token count is NaN
    from then on. *)
Example infinite_rate_gives_nan :
  let s := Limiter.new (Some (Number.Infinity false)) 0 in
  Limiter.tokens (Limiter.refillTokens 0 s) = Number.NaN /\
  ~ Limiter.bucket_ok
      (fst (Limiter.run [Limiter.CLog Limiter.INFO "ready" [] 0] s)).
Proof.
  split; [vm_compute; reflexivity|].
  intros [Hlo _]. vm_compute in Hlo. discriminate Hlo.
Qed.

(** ** The log rate limiter: ERROR lines *)

Lemma plain_error_is_emitted (message : string) (args : list string)
  (now : Z) (s : Limiter.LogRateLimiter) :
  Limiter.shouldAggregate message = false ->
  snd (Limiter.log Limiter.ERROR message args now s)
    = [(StdError, Limiter.Plain Limiter.ERROR message args)] /\
  Limiter.droppedCount (fst (Limiter.log Limiter.ERROR message args now s))
    = Limiter.droppedCount s /\
  Limiter.droppedByLevel (fst (Limiter.log Limiter.ERROR message args now s))
    = Limiter.droppedByLevel s.
Proof.
  intros Hplain. unfold Limiter.log, Limiter.shouldLog. rewrite Hplain.
  destruct (Number.ge (Limiter.tokens (Limiter.refillTokens now s))
              Number.one);
    repeat split.
Qed.

(** C5, as stated, fails: an ERROR line whose text matches a noisy pattern
    is diverted to the aggregation table before the bucket is consulted;
    logged once, it is printed neither by the call nor by the next
    periodic flush. *)
Lemma C5_noisy_error_is_dropped :
  ~ Limiter.emitted Limiter.ERROR "health check failed: database unreachable"
      []
      (snd (Limiter.run
              [Limiter.CLog Limiter.ERROR
                 "health check failed: database unreachable" [] 1000;
               Limiter.CTick 61000]
              (Limiter.new None 1000))).
Proof.
  unfold Limiter.emitted. vm_compute. tauto.
Qed.

(** C5 (amended): every log call at ERROR level whose message matches
    none of the aggregation patterns prints its line, whatever the state
    of the bucket, in particular when the bucket holds no token. *)
Theorem C5_plain_error_always_emitted :
  forall (message : string) (args : list string) (now : Z)
         (s : Limiter.LogRateLimiter),
    Limiter.shouldAggregate message = false ->
    snd (Limiter.log Limiter.ERROR message args now s)
      = [(StdError, Limiter.Plain Limiter.ERROR message args)].
Proof.
  intros message args now s Hplain.
  exact (proj1 (plain_error_is_emitted message args now s Hplain)).
Qed.

(** C5 on an empty bucket: rate 400, no token left, no time elapsed. *)
Lemma C5_plain_error_always_emitted_witness :
  let drained :=
    Limiter.with_tokens (Limiter.new None 1000) (Number.Zero false) in
  Limiter.tokens (Limiter.refillTokens 1000 drained) = Number.Zero false /\
  snd (Limiter.log Limiter.ERROR "database unreachable" ["ECONNREFUSED"]
         1000 drained)
    = [(StdError,
        Limiter.Plain Limiter.ERROR "database unreachable"
          ["ECONNREFUSED"])].
Proof.
  intros drained. split.
  - vm_compute. reflexivity.
  - apply (C5_plain_error_always_emitted "database unreachable"
             ["ECONNREFUSED"] 1000 drained).
    reflexivity.
Defined.

Lemma plain_errors_all_emitted (cs : list Limiter.Call)
  (s : Limiter.LogRateLimiter) :
  Forall Limiter.plain_error cs ->
  snd (Limiter.run cs s) = flat_map Limiter.line_of cs /\
  Limiter.droppedCount (fst (Limiter.run cs s)) = Limiter.droppedCount s /\
  Limiter.droppedByLevel (fst (Limiter.run cs s)) = Limiter.droppedByLevel s.
Proof.
  revert s. induction cs as [|c cs IH]; intros s Hall.
  - simpl. auto.
  - inversion Hall as [|c' cs' Hc Hcs]; subst.
    destruct c as [level message args now | now | ]; simpl in Hc; try tauto.
    destruct level; try tauto.
    destruct (plain_error_is_emitted message args now s Hc)
      as [Hout [Hd Hbl]].
    simpl.
    destruct (Limiter.log Limiter.ERROR message args now s) as [s1 o1].
    simpl in Hout, Hd, Hbl. subst o1.
    destruct (IH s1 Hcs) as [Hout' [Hd' Hbl']].
    destruct (Limiter.run cs s1) as [s2 o2]. simpl in *.
    subst o2. repeat split; congruence.
Qed.

(** C10, as stated, fails: with no token left and one millisecond elapsed
    at rate 400, the refill that precedes the check raises the count from
    0 to 0.4; the ERROR line is admitted, no token is taken, but the token
    count is not what it was. *)
Lemma C10_refill_still_changes_tokens :
  let s := Limiter.with_tokens (Limiter.new None 1000) (Number.Zero false) in
  let s' := fst (Limiter.log Limiter.ERROR "database unreachable" [] 1001 s) in
  Number.ge (Limiter.tokens s') Number.one = false /\
  ~ Limiter.same_but_refill_time s s'.
Proof.
  split.
  - vm_compute. reflexivity.
  - intros [_ [_ [Htok _]]]. vm_compute in Htok. discriminate Htok.
Qed.

(** C10 (amended): when an ERROR-level, non-aggregated message is logged
    and the bucket, once refilled for the elapsed time, fails the test
    tokens >= 1, the message is admitted and the limiter is left exactly
    as the refill left it: the token count is the refilled one, with
    nothing taken from it, the refill timestamp is the current time, and
    droppedCount, droppedByLevel and all other fields are unchanged.
    Consequently any number of such ERROR calls are all printed and never
    show in the drop counters. *)
Theorem C10_error_without_token :
  (forall (message : string) (args : list string) (now : Z)
          (s : Limiter.LogRateLimiter),
     Limiter.shouldAggregate message = false ->
     Number.ge (Limiter.tokens (Limiter.refillTokens now s)) Number.one
       = false ->
     let s' := fst (Limiter.log Limiter.ERROR message args now s) in
     Limiter.log Limiter.ERROR message args now s
       = (Limiter.refillTokens now s,
          [(StdError, Limiter.Plain Limiter.ERROR message args)]) /\
     Limiter.tokens s'
       = Number.min (Limiter.bucketSize s)
           (Number.add (Limiter.tokens s)
              (Number.mul
                 (Number.div
                    (Number.of_int (now - Limiter.lastRefillTime s))
                    (Number.of_int 1000))
                 (Limiter.maxLogsPerSecond s))) /\
     Limiter.lastRefillTime s' = now /\
     Limiter.droppedCount s' = Limiter.droppedCount s /\
     Limiter.droppedByLevel s' = Limiter.droppedByLevel s /\
     Limiter.maxLogsPerSecond s' = Limiter.maxLogsPerSecond s /\
     Limiter.bucketSize s' = Limiter.bucketSize s /\
     Limiter.lastDroppedReportTime s' = Limiter.lastDroppedReportTime s /\
     Limiter.messageAggregation s' = Limiter.messageAggregation s /\
     Limiter.lastAggregationCleanup s' = Limiter.lastAggregationCleanup s) /\
  (forall (calls : list Limiter.Call) (s : Limiter.LogRateLimiter),
     Forall Limiter.plain_error calls ->
     snd (Limiter.run calls s) = flat_map Limiter.line_of calls /\
     Limiter.droppedCount (fst (Limiter.run calls s))
       = Limiter.droppedCount s /\
     Limiter.droppedByLevel (fst (Limiter.run calls s))
       = Limiter.droppedByLevel s).
Proof.
  split.
  - intros message args now s Hplain Hlow s'. subst s'.
    assert (Hlog :
      Limiter.log Limiter.ERROR message args now s
        = (Limiter.refillTokens now s,
           [(StdError, Limiter.Plain Limiter.ERROR message args)])).
    { unfold Limiter.log, Limiter.shouldLog. rewrite Hplain, Hlow.
      reflexivity. }
    rewrite Hlog. simpl. repeat split.
  - intros calls s Hall. apply plain_errors_all_emitted. exact Hall.
Qed.

(** C10 on a drained bucket: one ERROR line a millisecond after the last
    refill, and three ERROR lines at the same instant. *)
Lemma C10_error_without_token_witness :
  let s := Limiter.with_tokens (Limiter.new None 1000) (Number.Zero false) in
  Limiter.log Limiter.ERROR "database unreachable" [] 1001 s
    = (Limiter.refillTokens 1001 s,
       [(StdError, Limiter.Plain Limiter.ERROR "database unreachable" [])]) /\
  List.length
    (snd (Limiter.run
            [Limiter.CLog Limiter.ERROR "e1" [] 1000;
             Limiter.CLog Limiter.ERROR "e2" [] 1000;
             Limiter.CLog Limiter.ERROR "e3" [] 1000]
            s)) = 3%nat.
Proof.
  intros s.
  destruct C10_error_without_token as [Hone Hmany]. split.
  - refine (proj1 (Hone "database unreachable" [] 1001 s _ _)).
    + reflexivity.
    + vm_compute. reflexivity.
  - assert (Hall :
      Forall Limiter.plain_error
        [Limiter.CLog Limiter.ERROR "e1" [] 1000;
         Limiter.CLog Limiter.ERROR "e2" [] 1000;
         Limiter.CLog Limiter.ERROR "e3" [] 1000]).
    { repeat (constructor; [reflexivity|]). constructor. }
    rewrite (proj1 (Hmany _ s Hall)). reflexivity.
Defined.

(** ** The log rate limiter: aggregation *)

Example noisy_patterns_ignore_case :
  Limiter.shouldAggregate "Health Check passed in 12 ms" = true /\
  Limiter.shouldAggregate "PARTICIPANT Disconnected: bob" = true /\
  Limiter.shouldAggregate "participant joined" = false /\
  Limiter.shouldAggregate "database unreachable" = false.
Proof. repeat split. Qed.

Example key_of_a_timestamped_line :
  Limiter.getAggregationKey "health check 12 at 2024-01-02T03:04:05 ok"
    = "health check N at N-N-NTN:N:N ok".
Proof. reflexivity. Qed.

Example timestamp_replacement_alone :
  Limiter.replace_timestamps 0 "at 2024-01-02T03:04:05Z"
    = "at TIMESTAMPZ".
Proof. reflexivity. Qed.


Section TableFacts.
Context {V : Type}.

Lemma get_last (k : string) (d : V) (pre : list (string * V)) :
  JsMap.get String.eqb k pre = None ->
  JsMap.get String.eqb k (pre ++ [(k, d)]) = Some d.
Proof.
  induction pre as [|[k' v'] pre IH]; simpl.
  - now rewrite String.eqb_refl.
  - destruct (String.eqb k k'); [discriminate | exact IH].
Qed.

Lemma set_last (k : string) (d v : V) (pre : list (string * V)) :
  JsMap.get String.eqb k pre = None ->
  JsMap.set String.eqb k v (pre ++ [(k, d)]) = pre ++ [(k, v)].
Proof.
  induction pre as [|[k' v'] pre IH]; simpl.
  - now rewrite String.eqb_refl.
  - destruct (String.eqb k k'); [discriminate|].
    intros H. now rewrite IH.
Qed.

End TableFacts.

Lemma substring_prefix_length (n : nat) (s : string) :
  (String.length (String.substring 0 n s) <= n)%nat.
Proof.
  revert s. induction n as [|n IH]; intros s.
  - destruct s; simpl; lia.
  - destruct s as [|c s]; simpl; [lia|].
    specialize (IH s). lia.
Qed.

Lemma substring_prefix_no_digit (n : nat) (s : string) :
  Limiter.no_digit s = true ->
  Limiter.no_digit (String.substring 0 n s) = true.
Proof.
  revert s. induction n as [|n IH]; intros s Hs.
  - destruct s; reflexivity.
  - destruct s as [|c s]; simpl in *; [reflexivity|].
    apply andb_true_iff in Hs. destruct Hs as [Hc Hs].
    rewrite Hc. simpl. now apply IH.
Qed.

Lemma digit_runs_leave_no_digit (in_run : bool) (s : string) :
  Limiter.no_digit (Limiter.replace_digit_runs in_run s) = true.
Proof.
  revert in_run. induction s as [|c s IH]; intros in_run; simpl.
  - reflexivity.
  - destruct (Limiter.is_digit c) eqn:E.
    + destruct in_run; simpl; apply IH.
    + simpl. rewrite E. simpl. apply IH.
Qed.

(** After the digit runs are gone the timestamp pattern, which starts with
    a digit, can no longer match: the second [replace] changes nothing. *)
Lemma no_timestamp_without_digit (s : string) :
  Limiter.no_digit s = true -> Limiter.replace_timestamps 0 s = s.
Proof.
  induction s as [|c s IH]; simpl; [reflexivity|].
  intros Hs. apply andb_true_iff in Hs. destruct Hs as [Hc Hs].
  apply negb_true_iff in Hc. rewrite Hc. simpl.
  now rewrite IH.
Qed.

Lemma aggregation_key_shape (message : string) :
  Limiter.getAggregationKey message
    = String.substring 0 100 (Limiter.replace_digit_runs false message) /\
  Limiter.no_digit (Limiter.getAggregationKey message) = true /\
  (String.length (Limiter.getAggregationKey message) <= 100)%nat.
Proof.
  unfold Limiter.getAggregationKey.
  rewrite no_timestamp_without_digit by apply digit_runs_leave_no_digit.
  split; [reflexivity | split].
  - apply substring_prefix_no_digit, digit_runs_leave_no_digit.
  - apply substring_prefix_length.
Qed.

Lemma with_aggregation_same (s : Limiter.LogRateLimiter) :
  Limiter.with_aggregation s (Limiter.messageAggregation s)
    (Limiter.lastAggregationCleanup s) = s.
Proof. destruct s; reflexivity. Qed.

Lemma noisy_log (level : Limiter.LogLevel) (message : string)
  (args : list string) (now : Z) (s : Limiter.LogRateLimiter) :
  Limiter.shouldAggregate message = true ->
  Limiter.log level message args now s
    = (Limiter.aggregateMessage level message now s, []).
Proof.
  intros H. unfold Limiter.log. now rewrite H.
Qed.

Lemma aggregate_first (level : Limiter.LogLevel) (message : string)
  (now : Z) (s : Limiter.LogRateLimiter) :
  JsMap.get String.eqb (Limiter.getAggregationKey message)
    (Limiter.messageAggregation s) = None ->
  Limiter.aggregateMessage level message now s
    = Limiter.with_aggregation s
        (Limiter.messageAggregation s
         ++ [(Limiter.getAggregationKey message,
              Limiter.mkAggregated 1 now now level)])
        (Limiter.lastAggregationCleanup s).
Proof.
  intros G. unfold Limiter.aggregateMessage. rewrite G.
  now rewrite (set_absent_appends String.eqb _ _ _ G).
Qed.

Lemma aggregate_again (level : Limiter.LogLevel) (message : string)
  (now : Z) (s : Limiter.LogRateLimiter)
  (pre : list (string * Limiter.AggregatedMessage))
  (d : Limiter.AggregatedMessage) :
  Limiter.messageAggregation s
    = pre ++ [(Limiter.getAggregationKey message, d)] ->
  JsMap.get String.eqb (Limiter.getAggregationKey message) pre = None ->
  Limiter.aggregateMessage level message now s
    = Limiter.with_aggregation s
        (pre ++ [(Limiter.getAggregationKey message,
                  Limiter.mkAggregated (Limiter.count d + 1)
                    (Limiter.firstSeen d) now (Limiter.level d))])
        (Limiter.lastAggregationCleanup s).
Proof.
  intros Htable Hpre. unfold Limiter.aggregateMessage.
  rewrite Htable, (get_last _ d pre Hpre), (set_last _ d _ pre Hpre).
  reflexivity.
Qed.

(** Further occurrences under a key that is the last entry of the table
    only raise its count (and move [lastSeen]); nothing is printed. *)
Lemma occurrences_accumulate (key : string) (cs : list Limiter.Call) :
  Forall (Limiter.occurrence_of key) cs ->
  forall (s : Limiter.LogRateLimiter)
         (pre : list (string * Limiter.AggregatedMessage))
         (d : Limiter.AggregatedMessage),
    Limiter.messageAggregation s = pre ++ [(key, d)] ->
    JsMap.get String.eqb key pre = None ->
    snd (Limiter.run cs s) = [] /\
    exists d',
      Limiter.count d' = Limiter.count d + Z.of_nat (List.length cs) /\
      Limiter.level d' = Limiter.level d /\
      Limiter.firstSeen d' = Limiter.firstSeen d /\
      fst (Limiter.run cs s)
        = Limiter.with_aggregation s (pre ++ [(key, d')])
            (Limiter.lastAggregationCleanup s).
Proof.
  induction 1 as [|c cs Hc Hcs IH]; intros s pre d Htable Hpre.
  - simpl. split; [reflexivity|]. exists d.
    repeat split; [lia|]. rewrite <- Htable. symmetry.
    apply with_aggregation_same.
  - destruct c as [level message args now | now | ]; simpl in Hc; try tauto.
    destruct Hc as [Hnoisy Hkey]. subst key.
    simpl. rewrite (noisy_log level message args now s Hnoisy).
    rewrite (aggregate_again level message now s pre d Htable Hpre).
    set (d1 := Limiter.mkAggregated (Limiter.count d + 1)
                 (Limiter.firstSeen d) now (Limiter.level d)).
    set (s1 := Limiter.with_aggregation s _ _).
    destruct (IH s1 pre d1 eq_refl Hpre) as [Hout [d' [Hn [Hl [Hf Hs]]]]].
    destruct (Limiter.run cs s1) as [s2 o2]. simpl in Hout, Hs. subst o2.
    split; [reflexivity|]. exists d'.
    split; [|split; [exact Hl | split; [exact Hf | exact Hs]]].
    rewrite Hn. unfold d1. cbn [Limiter.count List.length]. lia.
Qed.

Lemma summary_lines_snoc (pre : list (string * Limiter.AggregatedMessage))
  (key : string) (d : Limiter.AggregatedMessage) :
  Limiter.summary_lines (pre ++ [(key, d)])
    = Limiter.summary_lines pre
      ++ (if 1 <? Limiter.count d
          then [(StdLog,
                 Limiter.AggregatedSummary (Limiter.level d) (Limiter.count d)
                   60 key)]
          else []).
Proof.
  unfold Limiter.summary_lines. rewrite flat_map_app. simpl.
  now rewrite app_nil_r.
Qed.

Lemma flush_when_due (now : Z) (s : Limiter.LogRateLimiter) :
  Limiter.aggregationWindowMs <= now - Limiter.lastAggregationCleanup s ->
  Limiter.flushAggregatedMessages now s
    = (Limiter.with_aggregation s [] now,
       Limiter.summary_lines (Limiter.messageAggregation s)).
Proof.
  intros Hdue. unfold Limiter.flushAggregatedMessages.
  assert (E : (now - Limiter.lastAggregationCleanup s
               <? Limiter.aggregationWindowMs) = false)
    by (apply Z.ltb_ge; exact Hdue).
  now rewrite E.
Qed.

Lemma summary_line_origin (m : list (string * Limiter.AggregatedMessage))
  (line : Stream * Limiter.Line) :
  In line (Limiter.summary_lines m) ->
  exists key d,
    In (key, d) m /\ 1 < Limiter.count d /\
    line = (StdLog,
            Limiter.AggregatedSummary (Limiter.level d) (Limiter.count d)
              60 key).
Proof.
  unfold Limiter.summary_lines. intros Hin.
  apply in_flat_map in Hin. destruct Hin as [[key d] [Hm Hline]].
  destruct (1 <? Limiter.count d) eqn:E; [|contradiction].
  destruct Hline as [Hline | []].
  exists key, d. repeat split; [exact Hm | | now symmetry].
  apply Z.ltb_lt. exact E.
Qed.

(** C7: a log call whose message matches an aggregation pattern prints
    nothing and leaves the bucket and the drop counters alone; it raises by
    one the counter kept under the message's normalised key, a key without
    any digit (each run of digits, those of timestamps included, is
    replaced by N) and at most 100 code units long.  A hundred such calls
    under one key, the key being new in the window, print nothing, and the
    next due flush then prints, after the summaries of the other keys,
    exactly one summary line for that key, with count 100, and clears the
    table. *)
Theorem C7_noisy_messages_are_counted :
  (forall (level : Limiter.LogLevel) (message : string)
          (args : list string) (now : Z) (s : Limiter.LogRateLimiter),
     Limiter.shouldAggregate message = true ->
     let key := Limiter.getAggregationKey message in
     let s' := fst (Limiter.log level message args now s) in
     snd (Limiter.log level message args now s) = [] /\
     Limiter.tokens s' = Limiter.tokens s /\
     Limiter.lastRefillTime s' = Limiter.lastRefillTime s /\
     Limiter.droppedCount s' = Limiter.droppedCount s /\
     Limiter.droppedByLevel s' = Limiter.droppedByLevel s /\
     Limiter.key_count key s' = Limiter.key_count key s + 1 /\
     (forall other,
        other <> key ->
        Limiter.key_count other s' = Limiter.key_count other s) /\
     key = String.substring 0 100
             (Limiter.replace_digit_runs false message) /\
     Limiter.no_digit key = true /\
     (String.length key <= 100)%nat) /\
  (forall (key : string) (calls : list Limiter.Call)
          (s : Limiter.LogRateLimiter) (flush_time : Z),
     List.length calls = 100%nat ->
     Forall (Limiter.occurrence_of key) calls ->
     JsMap.get String.eqb key (Limiter.messageAggregation s) = None ->
     Limiter.aggregationWindowMs
       <= flush_time - Limiter.lastAggregationCleanup s ->
     let s' := fst (Limiter.run calls s) in
     snd (Limiter.run calls s) = [] /\
     Limiter.tokens s' = Limiter.tokens s /\
     exists level,
       snd (Limiter.flushAggregatedMessages flush_time s')
         = snd (Limiter.flushAggregatedMessages flush_time s)
           ++ [(StdLog, Limiter.AggregatedSummary level 100 60 key)] /\
       Limiter.messageAggregation
         (fst (Limiter.flushAggregatedMessages flush_time s')) = []).
Proof.
  split.
  - intros level message args now s Hnoisy key s'. subst s'.
    rewrite (noisy_log level message args now s Hnoisy).
    cbn [fst snd]. unfold Limiter.aggregateMessage, Limiter.key_count.
    fold key.
    destruct (aggregation_key_shape message) as [Hshape [Hdigits Hlen]].
    fold key in Hshape, Hdigits, Hlen.
    destruct (JsMap.get String.eqb key (Limiter.messageAggregation s))
      as [existing|] eqn:G; cbn [Limiter.messageAggregation
        Limiter.with_aggregation Limiter.tokens Limiter.lastRefillTime
        Limiter.droppedCount Limiter.droppedByLevel];
      rewrite (get_set_same String.eqb String.eqb_eq);
      (repeat split; try assumption; try reflexivity);
      intros other Hother;
      now rewrite (get_set_other String.eqb String.eqb_eq).
  - intros key calls s flush_time Hlen Hall Habsent Hdue s'. subst s'.
    destruct calls as [|c rest]; [discriminate Hlen|].
    inversion Hall as [|c' rest' Hc Hrest]; subst.
    destruct c as [level message args now | now | ]; simpl in Hc; try tauto.
    destruct Hc as [Hnoisy Hkey]. subst key.
    simpl in Hlen. injection Hlen as Hlen.
    simpl. rewrite (noisy_log level message args now s Hnoisy).
    rewrite (aggregate_first level message now s Habsent).
    set (s1 := Limiter.with_aggregation s _ _).
    destruct (occurrences_accumulate _ rest Hrest s1
                (Limiter.messageAggregation s)
                (Limiter.mkAggregated 1 now now level) eq_refl Habsent)
      as [Hout [d' [Hn [Hl [_ Hs]]]]].
    destruct (Limiter.run rest s1) as [s2 o2]. cbn [fst snd] in Hout, Hs |- *.
    subst o2 s2. split; [reflexivity|]. split; [reflexivity|].
    exists level.
    rewrite !flush_when_due by exact Hdue.
    cbn [fst snd Limiter.messageAggregation Limiter.with_aggregation].
    split; [|reflexivity].
    rewrite summary_lines_snoc. rewrite Hn, Hl, Hlen. reflexivity.
Qed.

(** C7 on a fresh limiter: a hundred health-check lines in the first
    window, flushed when the window ends. *)
Lemma C7_noisy_messages_are_counted_witness :
  let calls :=
    repeat (Limiter.CLog Limiter.INFO "health check passed in 12 ms" [] 5000)
      100 in
  let s := Limiter.new None 1000 in
  snd (Limiter.run calls s) = [] /\
  exists level,
    snd (Limiter.flushAggregatedMessages 61000 (fst (Limiter.run calls s)))
      = snd (Limiter.flushAggregatedMessages 61000 s)
        ++ [(StdLog,
             Limiter.AggregatedSummary level 100 60
               "health check passed in N ms")].
Proof.
  intros calls s.
  destruct C7_noisy_messages_are_counted as [_ Hwindow].
  assert (Hall :
    Forall (Limiter.occurrence_of "health check passed in N ms") calls).
  { apply Forall_forall. intros c Hc. apply repeat_spec in Hc. subst c.
    split; reflexivity. }
  assert (Hdue :
    Limiter.aggregationWindowMs
      <= 61000 - Limiter.lastAggregationCleanup s).
  { unfold Limiter.aggregationWindowMs. simpl. lia. }
  destruct (Hwindow "health check passed in N ms" calls s 61000
              (repeat_length _ 100) Hall eq_refl Hdue)
    as [Hout [_ [level [Hflush _]]]].
  split; [exact Hout|]. exists level. exact Hflush.
Defined.

(** C9: a message that matches an aggregation pattern and is the only
    occurrence under its key in the window is never printed, at any level,
    ERROR included: the log call prints nothing, and the next due flush,
    which prints summaries only for entries with count above one and then
    clears the table, behaves exactly as if the message had never been
    logged; so does the whole periodic tick. *)
Theorem C9_single_noisy_occurrence_is_discarded :
  forall (level : Limiter.LogLevel) (message : string) (args : list string)
         (now flush_time : Z) (s : Limiter.LogRateLimiter),
    Limiter.shouldAggregate message = true ->
    JsMap.get String.eqb (Limiter.getAggregationKey message)
      (Limiter.messageAggregation s) = None ->
    Limiter.aggregationWindowMs
      <= flush_time - Limiter.lastAggregationCleanup s ->
    let s1 := fst (Limiter.log level message args now s) in
    snd (Limiter.log level message args now s) = [] /\
    Limiter.key_count (Limiter.getAggregationKey message) s1 = 1 /\
    Limiter.flushAggregatedMessages flush_time s1
      = Limiter.flushAggregatedMessages flush_time s /\
    Limiter.reportTick flush_time s1 = Limiter.reportTick flush_time s /\
    Limiter.messageAggregation
      (fst (Limiter.flushAggregatedMessages flush_time s1)) = [] /\
    (forall line,
       In line (snd (Limiter.flushAggregatedMessages flush_time s1)) ->
       exists key d,
         key <> Limiter.getAggregationKey message /\
         1 < Limiter.count d /\
         line = (StdLog,
                 Limiter.AggregatedSummary (Limiter.level d)
                   (Limiter.count d) 60 key)).
Proof.
  intros level message args now flush_time s Hnoisy Habsent Hdue s1.
  subst s1. rewrite (noisy_log level message args now s Hnoisy).
  cbn [fst snd]. rewrite (aggregate_first level message now s Habsent).
  set (key := Limiter.getAggregationKey message) in *.
  set (s1 := Limiter.with_aggregation s _ _).
  assert (Hflush :
    Limiter.flushAggregatedMessages flush_time s1
      = Limiter.flushAggregatedMessages flush_time s).
  { rewrite !flush_when_due by exact Hdue. unfold s1.
    cbn [Limiter.messageAggregation Limiter.with_aggregation].
    rewrite summary_lines_snoc. cbn [Limiter.count]. simpl (1 <? 1).
    rewrite app_nil_r. destruct s; reflexivity. }
  split; [reflexivity|]. split.
  { unfold Limiter.key_count, s1.
    cbn [Limiter.messageAggregation Limiter.with_aggregation].
    now rewrite (get_last key _ _ Habsent). }
  split; [exact Hflush|]. split.
  { unfold Limiter.reportTick. now rewrite Hflush. }
  rewrite Hflush, flush_when_due by exact Hdue. cbn [fst snd].
  split; [reflexivity|].
  intros line Hline.
  destruct (summary_line_origin _ _ Hline) as [k [d [Hin [Hcount Heq]]]].
  exists k, d. repeat split; try assumption.
  intros Hk. subst k.
  apply (get_none_not_key String.eqb String.eqb_eq) in Habsent.
  apply Habsent. unfold JsMap.keys.
  change key with (fst (key, d)). now apply in_map.
Qed.

(** C9 at ERROR level on a fresh limiter: one connection-event line, then
    the tick that ends the window. *)
Lemma C9_single_noisy_occurrence_is_discarded_witness :
  let s := Limiter.new None 1000 in
  let s1 :=
    fst (Limiter.log Limiter.ERROR "connection event: socket reset" []
           2000 s) in
  snd (Limiter.log Limiter.ERROR "connection event: socket reset" [] 2000 s)
    = [] /\
  Limiter.reportTick 61000 s1 = Limiter.reportTick 61000 s.
Proof.
  intros s s1.
  assert (Hdue :
    Limiter.aggregationWindowMs
      <= 61000 - Limiter.lastAggregationCleanup s).
  { unfold Limiter.aggregationWindowMs. simpl. lia. }
  destruct (C9_single_noisy_occurrence_is_discarded Limiter.ERROR
              "connection event: socket reset" [] 2000 61000 s
              eq_refl eq_refl Hdue)
    as [Hout [_ [_ [Htick _]]]].
  split; [exact Hout | exact Htick].
Defined.

(** * Further properties of the tracker *)

Lemma in_values_key (d : string) (x : Tracker.AgentActivity)
  (t : Tracker.AgentTracker) :
  Tracker.one_per_dispatch t ->
  In x (JsMap.values (Tracker.activities t)) ->
  Tracker.dispatchId x = d ->
  Tracker.get d (Tracker.activities t) = Some x.
Proof.
  intros [Hnd Hall] Hin Hd.
  unfold JsMap.values in Hin. apply in_map_iff in Hin.
  destruct Hin as [[k v] [Hv Hkv]]. simpl in Hv. subst v.
  rewrite Forall_forall in Hall. pose proof (Hall _ Hkv) as Hk.
  simpl in Hk. rewrite Hd in Hk. subst k.
  exact (in_nodup_get String.eqb String.eqb_eq _ _ _ Hnd Hkv).
Qed.

Lemma get_in_values (d : string) (x : Tracker.AgentActivity)
  (t : Tracker.AgentTracker) :
  Tracker.get d (Tracker.activities t) = Some x ->
  In x (JsMap.values (Tracker.activities t)).
Proof.
  intros G. apply (get_some_in String.eqb String.eqb_eq) in G.
  unfold JsMap.values. change x with (snd (d, x)). now apply in_map.
Qed.

(** X1: looking a dispatch up right after [trackActivity] returns an entry
    that is active (no TTL) with the given participant count and
    lastActivityAt = now.  For a dispatch already known the stored
    roomName, agentName and createdAt are kept, whatever room and agent
    name the call passes; for a new one they are the arguments (agent
    name and count defaulting to 'task-assistant' and 1).  No other
    dispatch is affected. *)
Theorem X1_track_then_lookup :
  forall (dispatch room : string) (agent : option string)
         (participants : option Z) (now : Z) (t : Tracker.AgentTracker),
    let t' :=
      fst (Tracker.trackActivity dispatch room agent participants now t) in
    let count := match participants with Some p => p | None => 1 end in
    Tracker.getActivityByDispatchId dispatch t'
      = Some
          (match Tracker.getActivityByDispatchId dispatch t with
           | Some old =>
               Tracker.mkActivity (Tracker.dispatchId old)
                 (Tracker.roomName old) (Tracker.agentName old)
                 (Tracker.createdAt old) now count None
           | None =>
               Tracker.mkActivity dispatch room
                 (match agent with
                  | Some a => a
                  | None => "task-assistant"
                  end)
                 now now count None
           end) /\
    forall other,
      other <> dispatch ->
      Tracker.getActivityByDispatchId other t'
        = Tracker.getActivityByDispatchId other t.
Proof.
  intros d room agent p now t. cbv zeta.
  unfold Tracker.trackActivity, Tracker.getActivityByDispatchId.
  destruct (Tracker.get d (Tracker.activities t)) as [old|]; simpl;
    (split;
     [apply (get_set_same String.eqb String.eqb_eq)
     |intros other Hne;
      apply (get_set_other String.eqb String.eqb_eq); exact Hne]).
Qed.

Lemma marked_entry (dispatch : string) (ttlSeconds : option Number.number)
  (now : Z) (t : Tracker.AgentTracker) (a : Tracker.AgentActivity) :
  Tracker.get dispatch (Tracker.activities t) = Some a ->
  Tracker.get dispatch
    (Tracker.activities
       (Tracker.after (Tracker.markForCleanup dispatch ttlSeconds now t)))
  = Some (Tracker.mkActivity (Tracker.dispatchId a) (Tracker.roomName a)
            (Tracker.agentName a) (Tracker.createdAt a)
            (Tracker.lastActivityAt a) 0
            (Some
               (Date.of_number
                  (Number.add (Number.of_int now)
                     (Number.mul
                        match ttlSeconds with
                        | Some s => s
                        | None => Tracker.defaultTtlSeconds t
                        end
                        (Number.of_int 1000)))))).
Proof.
  intros G. pose proof (mark_known dispatch ttlSeconds now t a G) as Hm.
  cbv zeta in Hm. rewrite Hm.
  apply (get_set_same String.eqb String.eqb_eq).
Qed.

(** X2: once a tracked dispatch is marked for cleanup at time [now] with a
    whole TTL of [s] seconds, |s * 1000| below 2^53, [getExpiredAgents]
    returns an entry of that dispatch at exactly the times from
    now + s * 1000 ms on, and never before, provided that time is within
    the range of dates; when it is not, the entry holds an Invalid Date and
    is returned at no time. *)
Theorem X2_marked_entry_expires_after_ttl :
  forall (dispatch : string) (ttlSeconds : option Number.number)
         (seconds now time : Z)
         (t : Tracker.AgentTracker) (a : Tracker.AgentActivity),
    Tracker.one_per_dispatch t ->
    Tracker.getActivityByDispatchId dispatch t = Some a ->
    match ttlSeconds with
    | Some s => s
    | None => Tracker.defaultTtlSeconds t
    end = Number.of_int seconds ->
    Date.time_value now ->
    - 2 ^ 53 < seconds * 1000 < 2 ^ 53 ->
    let t' :=
      Tracker.after (Tracker.markForCleanup dispatch ttlSeconds now t) in
    (exists x,
       In x (Tracker.getExpiredAgents time t') /\
       Tracker.dispatchId x = dispatch)
    <-> Z.abs (now + seconds * 1000) <= Date.max_time /\
        now + seconds * 1000 <= time.
Proof.
  intros d ttl seconds now time t a Inv G Httl Hnow Hbound. cbv zeta.
  unfold Tracker.getActivityByDispatchId in G.
  pose proof (marked_entry d ttl now t a G) as Gm.
  rewrite Httl, (date_of_whole_ttl now seconds Hnow Hbound) in Gm.
  pose proof (tracker_step_keeps_dispatch_keys (Tracker.CMark d ttl now) t
                Inv) as Inv'.
  cbn [Tracker.step fst] in Inv'.
  set (t' := Tracker.after (Tracker.markForCleanup d ttl now t)) in *.
  split.
  - intros [x [Hx Hd]]. unfold Tracker.getExpiredAgents in Hx.
    apply filter_In in Hx. destruct Hx as [Hval Hexp].
    pose proof (in_values_key d x t' Inv' Hval Hd) as Gx.
    rewrite Gm in Gx. inversion Gx; subst x.
    unfold Tracker.is_expired in Hexp. cbn [Tracker.ttlExpiresAt] in Hexp.
    destruct (Z.abs (now + seconds * 1000) <=? Date.max_time) eqn:C;
      [|discriminate Hexp].
    apply Z.leb_le in C. split; [exact C|].
    apply Z.leb_le. exact Hexp.
  - intros [Hrange Hle].
    assert (C : (Z.abs (now + seconds * 1000) <=? Date.max_time) = true)
      by (apply Z.leb_le; exact Hrange).
    rewrite C in Gm.
    exists (Tracker.mkActivity (Tracker.dispatchId a) (Tracker.roomName a)
              (Tracker.agentName a) (Tracker.createdAt a)
              (Tracker.lastActivityAt a) 0
              (Some (Date.At (now + seconds * 1000)))).
    split.
    + unfold Tracker.getExpiredAgents. apply filter_In. split.
      * eapply get_in_values. exact Gm.
      * unfold Tracker.is_expired. simpl. apply Z.leb_le. exact Hle.
    + simpl. exact (stored_under_own_key d a t Inv G).
Qed.

(** X2 on "AD_1", marked at 1000 with a five-second TTL: expired at 6000. *)
Lemma X2_marked_entry_expires_after_ttl_witness :
  let t :=
    fst (Tracker.trackActivity "AD_1" "room-1" None None 500
           (Tracker.new None)) in
  exists x,
    In x (Tracker.getExpiredAgents 6000
            (Tracker.after
               (Tracker.markForCleanup "AD_1" (Some (Number.of_int 5)) 1000
                  t))) /\
    Tracker.dispatchId x = "AD_1".
Proof.
  intros t.
  assert (Hnow : Date.time_value 1000)
    by (unfold Date.time_value, Date.max_time; lia).
  assert (Hbound : - 2 ^ 53 < 5 * 1000 < 2 ^ 53) by (split; reflexivity).
  refine (proj2 (X2_marked_entry_expires_after_ttl "AD_1"
                   (Some (Number.of_int 5)) 5 1000 6000
                   t _ _ eq_refl eq_refl Hnow Hbound) _).
  - split; simpl; repeat constructor. simpl. tauto.
  - unfold Date.max_time. simpl. lia.
Defined.

(** X3: [cancelCleanup] on a dispatch that was marked for cleanup clears
    the TTL and sets lastActivityAt to now, but does not restore the
    participant count, which stays 0; it prints one line, and the dispatch
    is then expired at no time.  On a tracked dispatch without a TTL it
    prints nothing. *)
Theorem X3_cancel_after_mark :
  forall (dispatch : string) (ttlSeconds : option Number.number)
         (marked cancelled : Z)
         (t : Tracker.AgentTracker) (a : Tracker.AgentActivity),
    Tracker.one_per_dispatch t ->
    Tracker.getActivityByDispatchId dispatch t = Some a ->
    let t1 := Tracker.after (Tracker.markForCleanup dispatch ttlSeconds marked t) in
    let t2 := fst (Tracker.cancelCleanup dispatch cancelled t1) in
    Tracker.getActivityByDispatchId dispatch t2
      = Some (Tracker.mkActivity (Tracker.dispatchId a) (Tracker.roomName a)
                (Tracker.agentName a) (Tracker.createdAt a) cancelled 0
                None) /\
    snd (Tracker.cancelCleanup dispatch cancelled t1)
      = [(StdLog,
          Tracker.CancelledCleanup cancelled dispatch (Tracker.roomName a))] /\
    (forall time x,
       In x (Tracker.getExpiredAgents time t2) ->
       Tracker.dispatchId x <> dispatch) /\
    (Tracker.ttlExpiresAt a = None ->
     snd (Tracker.cancelCleanup dispatch cancelled t) = []).
Proof.
  intros d ttl tm tc t a Inv G. cbv zeta.
  unfold Tracker.getActivityByDispatchId in *.
  pose proof (marked_entry d ttl tm t a G) as Gm.
  pose proof (tracker_step_keeps_dispatch_keys (Tracker.CMark d ttl tm) t
                Inv) as Inv1.
  cbn [Tracker.step fst] in Inv1.
  set (t1 := Tracker.after (Tracker.markForCleanup d ttl tm t)) in *.
  pose proof (tracker_step_keeps_dispatch_keys (Tracker.CCancel d tc) t1
                Inv1) as Inv2.
  simpl in Inv2.
  assert (G2 :
    Tracker.get d
      (Tracker.activities (fst (Tracker.cancelCleanup d tc t1)))
    = Some (Tracker.mkActivity (Tracker.dispatchId a) (Tracker.roomName a)
              (Tracker.agentName a) (Tracker.createdAt a) tc 0 None)).
  { unfold Tracker.cancelCleanup. rewrite Gm. simpl.
    apply (get_set_same String.eqb String.eqb_eq). }
  split; [exact G2|]. split.
  { unfold Tracker.cancelCleanup. rewrite Gm. reflexivity. }
  split.
  - intros time x Hx Hd. unfold Tracker.getExpiredAgents in Hx.
    apply filter_In in Hx. destruct Hx as [Hval Hexp].
    pose proof (in_values_key d x _ Inv2 Hval Hd) as Gx.
    rewrite G2 in Gx. inversion Gx; subst x.
    discriminate Hexp.
  - intros Hnone. unfold Tracker.cancelCleanup. rewrite G, Hnone.
    reflexivity.
Qed.

(** X3 on "AD_1" with two participants, marked at 1000, cancelled at
    2000. *)
Lemma X3_cancel_after_mark_witness :
  let t :=
    fst (Tracker.trackActivity "AD_1" "room-1" None (Some 2) 500
           (Tracker.new None)) in
  Tracker.getActivityByDispatchId "AD_1"
    (fst (Tracker.cancelCleanup "AD_1" 2000
            (Tracker.after (Tracker.markForCleanup "AD_1" None 1000 t))))
  = Some (Tracker.mkActivity "AD_1" "room-1" "task-assistant" 500 2000 0
            None).
Proof.
  intros t.
  refine (proj1 (X3_cancel_after_mark "AD_1" None 1000 2000 t
                   (Tracker.mkActivity "AD_1" "room-1" "task-assistant" 500
                      500 2 None) _ eq_refl)).
  split; simpl; repeat constructor. simpl. tauto.
Defined.

(** X1 on a fresh tracker and on a known dispatch called with another
    room. *)
Lemma X1_track_then_lookup_witness :
  let t :=
    fst (Tracker.trackActivity "AD_1" "room-1" None None 500
           (Tracker.new None)) in
  Tracker.getActivityByDispatchId "AD_1"
    (fst (Tracker.trackActivity "AD_1" "room-2" (Some "other") (Some 3) 900
            t))
  = Some (Tracker.mkActivity "AD_1" "room-1" "task-assistant" 500 900 3 None)
  /\
  Tracker.getActivityByDispatchId "AD_1"
    (fst (Tracker.trackActivity "AD_2" "room-2" None None 900 t))
  = Tracker.getActivityByDispatchId "AD_1" t.
Proof.
  intros t. split.
  - exact (proj1 (X1_track_then_lookup "AD_1" "room-2" (Some "other")
                    (Some 3) 900 t)).
  - refine (proj2 (X1_track_then_lookup "AD_2" "room-2" None None 900 t)
              "AD_1" _).
    discriminate.
Defined.

Section MoreJsMapFacts.
Context {K V : Type} (eqb : K -> K -> bool).
Hypothesis eqb_eq : forall a b, eqb a b = true <-> a = b.

Lemma get_delete_other (k k0 : K) (m : list (K * V)) :
  k0 <> k ->
  JsMap.get eqb k0 (JsMap.delete eqb k m) = JsMap.get eqb k0 m.
Proof.
  intros Hne. induction m as [|[k' v'] m IH]; simpl; [reflexivity|].
  destruct (eqb k k') eqn:E; simpl.
  - apply eqb_eq in E. subst k'.
    rewrite (eqb_false_of eqb eqb_eq k0 k Hne). exact IH.
  - now rewrite IH.
Qed.

Lemma delete_absent (k : K) (m : list (K * V)) :
  JsMap.get eqb k m = None -> JsMap.delete eqb k m = m.
Proof.
  induction m as [|[k' v'] m IH]; simpl; [reflexivity|].
  destruct (eqb k k'); [discriminate|].
  intros H. now rewrite IH.
Qed.

Lemma length_delete_present (k : K) (v : V) (m : list (K * V)) :
  NoDup (JsMap.keys m) ->
  JsMap.get eqb k m = Some v ->
  S (List.length (JsMap.delete eqb k m)) = List.length m.
Proof.
  induction m as [|[k' v'] m IH]; simpl; [discriminate|].
  intros Hnd G. inversion Hnd as [|x l Hnot Hnd']; subst.
  destruct (eqb k k') eqn:E.
  - apply eqb_eq in E. subst k'. f_equal.
    rewrite delete_absent; [reflexivity|].
    now apply (get_none_not_key eqb eqb_eq).
  - simpl. f_equal. now apply IH.
Qed.

Lemma length_set (k : K) (v : V) (m : list (K * V)) :
  List.length (JsMap.set eqb k v m)
  = match JsMap.get eqb k m with
    | Some _ => List.length m
    | None => S (List.length m)
    end.
Proof.
  induction m as [|[k' v'] m IH]; simpl; [reflexivity|].
  destruct (eqb k k'); simpl; [reflexivity|].
  rewrite IH. destruct (JsMap.get eqb k m); reflexivity.
Qed.

End MoreJsMapFacts.

(** X4: after [removeAgent] the dispatch is unknown to the tracker and
    every other dispatch is as before; the call prints one line when the
    dispatch was tracked and nothing when it was not, in which case the
    tracker is unchanged. *)
Theorem X4_remove_agent :
  forall (dispatch : string) (now : Z) (t : Tracker.AgentTracker),
    let t' := fst (Tracker.removeAgent dispatch now t) in
    Tracker.getActivityByDispatchId dispatch t' = None /\
    (forall other,
       other <> dispatch ->
       Tracker.getActivityByDispatchId other t'
         = Tracker.getActivityByDispatchId other t) /\
    (forall a,
       Tracker.getActivityByDispatchId dispatch t = Some a ->
       snd (Tracker.removeAgent dispatch now t)
         = [(StdLog,
             Tracker.RemovedFromTracking now dispatch (Tracker.roomName a))])
    /\
    (Tracker.getActivityByDispatchId dispatch t = None ->
     Tracker.removeAgent dispatch now t = (t, [])).
Proof.
  intros d now t. cbv zeta.
  unfold Tracker.removeAgent, Tracker.getActivityByDispatchId. simpl.
  split; [apply get_delete_same|]. split.
  { intros other Hne.
    apply (get_delete_other String.eqb String.eqb_eq). exact Hne. }
  split.
  - intros a G. unfold Tracker.get in G |- *. now rewrite G.
  - intros G. unfold Tracker.get, Tracker.delete in G |- *. rewrite G.
    rewrite (delete_absent String.eqb _ _ G).
    destruct t; reflexivity.
Qed.

(** X4 on a tracker holding "AD_1" only. *)
Lemma X4_remove_agent_witness :
  let t :=
    fst (Tracker.trackActivity "AD_1" "room-1" None None 500
           (Tracker.new None)) in
  snd (Tracker.removeAgent "AD_1" 900 t)
    = [(StdLog, Tracker.RemovedFromTracking 900 "AD_1" "room-1")] /\
  Tracker.removeAgent "AD_2" 900 t = (t, []).
Proof.
  intros t.
  destruct (X4_remove_agent "AD_1" 900 t) as [_ [_ [Hknown _]]].
  destruct (X4_remove_agent "AD_2" 900 t) as [_ [_ [_ Hunknown]]].
  split.
  - exact (Hknown _ eq_refl).
  - exact (Hunknown eq_refl).
Defined.

(** X5: [getActiveCount] counts the tracked dispatch ids.  [trackActivity]
    raises it by one exactly when the dispatch is new; [removeAgent]
    lowers it by one exactly when the dispatch is tracked;
    [markForCleanup] and [cancelCleanup] never change it, so a dispatch
    waiting for cleanup still counts as active. *)
Theorem X5_active_count :
  forall (dispatch room : string) (agent : option string)
         (participants : option Z) (ttlSeconds : option Number.number)
         (now : Z) (t : Tracker.AgentTracker),
    Tracker.one_per_dispatch t ->
    let known :=
      match Tracker.getActivityByDispatchId dispatch t with
      | Some _ => true
      | None => false
      end in
    Tracker.getActiveCount
      (fst (Tracker.trackActivity dispatch room agent participants now t))
      = Tracker.getActiveCount t + (if known then 0 else 1) /\
    Tracker.getActiveCount (fst (Tracker.removeAgent dispatch now t))
      = Tracker.getActiveCount t - (if known then 1 else 0) /\
    Tracker.getActiveCount
      (Tracker.after (Tracker.markForCleanup dispatch ttlSeconds now t))
      = Tracker.getActiveCount t /\
    Tracker.getActiveCount (fst (Tracker.cancelCleanup dispatch now t))
      = Tracker.getActiveCount t.
Proof.
  intros d room agent p ttl now t [Hnd _]. cbv zeta.
  assert (Hmark :
    Tracker.getActiveCount
      (Tracker.after (Tracker.markForCleanup d ttl now t))
    = Tracker.getActiveCount t).
  { destruct (Tracker.get d (Tracker.activities t)) as [a|] eqn:G.
    - pose proof (mark_known d ttl now t a G) as Hm. cbv zeta in Hm.
      rewrite Hm. unfold Tracker.getActiveCount, JsMap.size, Tracker.set.
      simpl. rewrite length_set. unfold Tracker.get in G. now rewrite G.
    - unfold Tracker.markForCleanup. rewrite G. reflexivity. }
  rewrite Hmark. clear Hmark.
  unfold Tracker.getActiveCount, JsMap.size, Tracker.getActivityByDispatchId,
    Tracker.trackActivity, Tracker.removeAgent,
    Tracker.cancelCleanup, Tracker.get, Tracker.set, Tracker.delete.
  destruct (JsMap.get String.eqb d (Tracker.activities t)) as [a|] eqn:G;
    simpl; rewrite ?length_set, ?G.
  - pose proof (length_delete_present String.eqb String.eqb_eq d a _ Hnd G).
    repeat split; lia.
  - rewrite (delete_absent String.eqb _ _ G). repeat split; lia.
Qed.

(** X5 on a tracker holding "AD_1": a second dispatch makes two, marking
    keeps two. *)
Lemma X5_active_count_witness :
  let t :=
    fst (Tracker.trackActivity "AD_1" "room-1" None None 500
           (Tracker.new None)) in
  Tracker.getActiveCount
    (fst (Tracker.trackActivity "AD_2" "room-1" None None 900 t)) = 2 /\
  Tracker.getActiveCount (Tracker.after (Tracker.markForCleanup "AD_1" None 900 t)) = 1.
Proof.
  intros t.
  assert (Inv : Tracker.one_per_dispatch t).
  { split; simpl; repeat constructor. simpl. tauto. }
  split.
  - exact (proj1 (X5_active_count "AD_2" "room-1" None None None 900 t Inv)).
  - exact (proj1 (proj2 (proj2
             (X5_active_count "AD_1" "room-1" None None None 900 t Inv)))).
Defined.

(** * The agent-status route *)

Lemma first_match_none (room agent : string)
  (vs : list Tracker.AgentActivity) :
  Tracker.first_match room agent vs = None <->
  forall a,
    In a vs -> Tracker.roomName a = room -> Tracker.agentName a <> agent.
Proof.
  induction vs as [|v vs IH]; simpl.
  - split; [intros _ a [] | reflexivity].
  - destruct (String.eqb (Tracker.roomName v) room) eqn:Er;
      destruct (String.eqb (Tracker.agentName v) agent) eqn:Ea; simpl.
    + apply String.eqb_eq in Er. apply String.eqb_eq in Ea.
      split; [discriminate|]. intros H. elim (H v); auto.
    + apply String.eqb_neq in Ea. rewrite IH. split.
      * intros H a [Hv | Hin]; [subst a; auto | auto].
      * intros H a Hin. apply H. now right.
    + apply String.eqb_neq in Er. rewrite IH. split.
      * intros H a [Hv | Hin]; [subst a; intros; contradiction | auto].
      * intros H a Hin. apply H. now right.
    + apply String.eqb_neq in Er. rewrite IH. split.
      * intros H a [Hv | Hin]; [subst a; intros; contradiction | auto].
      * intros H a Hin. apply H. now right.
Qed.

Lemma first_match_some (room agent : string)
  (vs : list Tracker.AgentActivity) (x : Tracker.AgentActivity) :
  Tracker.first_match room agent vs = Some x ->
  exists earlier later,
    vs = earlier ++ x :: later /\
    Tracker.roomName x = room /\ Tracker.agentName x = agent /\
    forall y,
      In y earlier ->
      Tracker.roomName y = room -> Tracker.agentName y <> agent.
Proof.
  induction vs as [|v vs IH]; simpl; [discriminate|].
  destruct (String.eqb (Tracker.roomName v) room
            && String.eqb (Tracker.agentName v) agent) eqn:E.
  - intros H. inversion H; subst v.
    apply andb_true_iff in E. destruct E as [Er Ea].
    apply String.eqb_eq in Er. apply String.eqb_eq in Ea.
    exists [], vs.
    split; [reflexivity|]. split; [exact Er|]. split; [exact Ea|].
    intros y [].
  - intros H. destruct (IH H) as [earlier [later [Hvs [Hr [Ha Hpre]]]]].
    exists (v :: earlier), later. subst vs.
    split; [reflexivity|]. split; [exact Hr|]. split; [exact Ha|].
    intros y [Hy | Hy]; [subst y | now apply Hpre].
    intros Hroom Hagent.
    apply String.eqb_eq in Hroom. apply String.eqb_eq in Hagent.
    rewrite Hroom, Hagent in E. discriminate.
Qed.

(** X6: the status route answers 400 when the roomName parameter is
    missing or empty.  Otherwise it looks up the earliest inserted entry
    of the room with the agent name 'task-assistant' (entries tracked
    under another agent name are never reported) and answers 500 exactly
    when that entry holds an Invalid Date as ttlExpiresAt, and 200 in all
    other cases, in particular whenever no tracked date is invalid.  In a
    200 answer hasAgent = false exactly when there is no such entry; when
    a dispatch is reported, it is that earliest entry, with its own count
    and TTL even while it waits for cleanup. *)
Theorem X6_agent_status :
  (forall (now : Z) (t : Tracker.AgentTracker),
     Status.status (fst (Status.GET None now t)) = 400 /\
     Status.status (fst (Status.GET (Some EmptyString) now t)) = 400) /\
  (forall (room : string) (now : Z) (t : Tracker.AgentTracker),
     room <> EmptyString ->
     let r := fst (Status.GET (Some room) now t) in
     (Status.status r = 500 <->
      exists x,
        Tracker.getActivity room (Some Status.AGENT_NAME) t = Some x /\
        Tracker.ttlExpiresAt x = Some Date.Invalid) /\
     (Status.status r <> 500 -> Status.status r = 200) /\
     ((forall a,
         In a (Tracker.getAllActivities t) ->
         Tracker.ttlExpiresAt a <> Some Date.Invalid) ->
      Status.status r = 200) /\
     (Status.field "hasAgent" r = Some (Status.SBool false) <->
      forall a,
        In a (Tracker.getAllActivities t) ->
        Tracker.roomName a = room ->
        Tracker.agentName a <> "task-assistant") /\
     (forall dispatch,
        Status.field "dispatchId" r = Some (Status.SString dispatch) ->
        exists earlier x later,
          Tracker.getAllActivities t = earlier ++ x :: later /\
          Tracker.dispatchId x = dispatch /\
          Tracker.roomName x = room /\
          Tracker.agentName x = "task-assistant" /\
          (forall y,
             In y earlier ->
             Tracker.roomName y = room ->
             Tracker.agentName y <> "task-assistant") /\
          Status.status r = 200 /\
          Status.field "hasAgent" r = Some (Status.SBool true) /\
          Status.field "participantCount" r
            = Some (Status.SNumber (Tracker.participantCount x)) /\
          ((Tracker.ttlExpiresAt x = None /\
            Status.field "ttlExpiresAt" r = Some Status.SNull) \/
           (exists e,
              Tracker.ttlExpiresAt x = Some (Date.At e) /\
              Status.field "ttlExpiresAt" r = Some (Status.SIso e))))).
Proof.
  split; [intros; split; reflexivity|].
  intros room now t Hroom r. subst r. unfold Status.GET.
  assert (Hc : Dispatch.configured (Some room) = Some room).
  { simpl. apply String.eqb_neq in Hroom. now rewrite Hroom. }
  rewrite Hc. unfold Tracker.getActivity, Tracker.getAllActivities.
  destruct (Tracker.first_match room Status.AGENT_NAME
              (JsMap.values (Tracker.activities t))) as [x|] eqn:F.
  - destruct (first_match_some _ _ _ _ F)
      as [earlier [later [Hvs [Hr [Ha Hpre]]]]].
    assert (Hin : In x (JsMap.values (Tracker.activities t)))
      by (rewrite Hvs; apply in_or_app; right; now left).
    cbv zeta.
    destruct (Tracker.ttlExpiresAt x) as [[e|]|] eqn:T; cbn [fst].
    + split; [split; [discriminate | intros [y [Hy Ty]]; congruence]|].
      split; [reflexivity|]. split; [reflexivity|]. split.
      * split; [discriminate|]. intros H. exfalso. apply (H x); auto.
      * intros d Hd. inversion Hd; subst d.
        exists earlier, x, later.
        split; [exact Hvs|]. split; [reflexivity|]. split; [exact Hr|].
        split; [exact Ha|]. split; [exact Hpre|]. split; [reflexivity|].
        split; [reflexivity|]. split; [reflexivity|].
        right. exists e. split; [exact T | reflexivity].
    + split;
        [split;
         [intros _; exists x; split; [reflexivity | exact T]
         |reflexivity]|].
      split; [intros H; exfalso; apply H; reflexivity|].
      split; [intros H; exfalso; exact (H x Hin T)|].
      split.
      * split; [discriminate|]. intros H. exfalso. apply (H x); auto.
      * intros d Hd. discriminate Hd.
    + split; [split; [discriminate | intros [y [Hy Ty]]; congruence]|].
      split; [reflexivity|]. split; [reflexivity|]. split.
      * split; [discriminate|]. intros H. exfalso. apply (H x); auto.
      * intros d Hd. inversion Hd; subst d.
        exists earlier, x, later.
        split; [exact Hvs|]. split; [reflexivity|]. split; [exact Hr|].
        split; [exact Ha|]. split; [exact Hpre|]. split; [reflexivity|].
        split; [reflexivity|]. split; [reflexivity|].
        left. split; [exact T | reflexivity].
  - cbn [fst].
    split; [split; [discriminate | intros [y [Hy _]]; discriminate]|].
    split; [reflexivity|]. split; [reflexivity|]. split.
    + split; [|reflexivity]. intros _.
      apply (proj1 (first_match_none _ _ _) F).
    + intros d Hd. discriminate Hd.
Qed.

(** X6 on a tracker with two dispatches in "room-1": the older one is
    reported; and on a tracker whose entry was marked with a TTL of 10^13
    seconds: the answer is 500. *)
Lemma X6_agent_status_witness :
  let t :=
    fst (Tracker.run
           [Tracker.CTrack "AD_1" "room-1" None None 1000;
            Tracker.CTrack "AD_2" "room-1" None None 2000;
            Tracker.CMark "AD_1" (Some (Number.of_int 5)) 3000]
           (Tracker.new None)) in
  let broken :=
    fst (Tracker.run
           [Tracker.CTrack "AD_1" "room-1" None None 1000;
            Tracker.CMark "AD_1" (Some (Number.of_int (10 ^ 13))) 3000]
           (Tracker.new None)) in
  Status.status (fst (Status.GET (Some "room-1") 4000 t)) = 200 /\
  (exists earlier x later,
     Tracker.getAllActivities t = earlier ++ x :: later /\
     Tracker.dispatchId x = "AD_1") /\
  Status.status (fst (Status.GET (Some "room-1") 4000 broken)) = 500.
Proof.
  intros t broken.
  destruct X6_agent_status as [_ H].
  assert (Hne : "room-1" <> EmptyString) by discriminate.
  destruct (H "room-1" 4000 t Hne) as [_ [_ [Hs [_ Hd]]]].
  destruct (H "room-1" 4000 broken Hne) as [Hb _].
  split; [|split].
  - apply Hs. vm_compute. intros a [E | [E | []]]; subst a; discriminate.
  - assert (Hf :
      Status.field "dispatchId" (fst (Status.GET (Some "room-1") 4000 t))
      = Some (Status.SString "AD_1")) by (vm_compute; reflexivity).
    destruct (Hd "AD_1" Hf) as [earlier [x [later [Hv [Hx _]]]]].
    exists earlier, x, later. split; assumption.
  - apply Hb.
    exists (Tracker.mkActivity "AD_1" "room-1" "task-assistant" 1000 1000 0
              (Some Date.Invalid)).
    split; [vm_compute; reflexivity | reflexivity].
Defined.

(** * Whole cleanup cycles *)

Lemma cleanup_of_expired (svc : Cleanup.Service) (now later : Z)
  (agent cur : Tracker.AgentActivity) (e : Z) (w : Cleanup.World) :
  Tracker.get (Tracker.dispatchId agent)
    (Tracker.activities (Cleanup.tracker w)) = Some cur ->
  Tracker.ttlExpiresAt cur = Some (Date.At e) ->
  e <= now ->
  let w' := Cleanup.cleanupAgent svc now later agent w in
  Cleanup.deleted w'
    = Cleanup.deleted w
      ++ [(Tracker.dispatchId agent, Tracker.roomName agent)] /\
  Cleanup.tracker w'
    = match svc (Cleanup.deleted w) (Tracker.dispatchId agent)
              (Tracker.roomName agent) with
      | Cleanup.DeleteOk =>
          Tracker.with_activities (Cleanup.tracker w)
            (Tracker.delete (Tracker.dispatchId agent)
               (Tracker.activities (Cleanup.tracker w)))
      | Cleanup.DeleteThrows _ => Cleanup.tracker w
      end.
Proof.
  intros G Httl Hle. cbv zeta. unfold Cleanup.cleanupAgent,
    Tracker.getActivityByDispatchId.
  rewrite G, Httl.
  assert (E : (now <? e) = false) by (apply Z.ltb_ge; exact Hle).
  rewrite E.
  destruct (svc _ _ _); split; reflexivity.
Qed.

Lemma cleanup_touches_own_key_only (svc : Cleanup.Service) (now later : Z)
  (agent : Tracker.AgentActivity) (w : Cleanup.World) :
  let w' := Cleanup.cleanupAgent svc now later agent w in
  (Cleanup.tracker w' = Cleanup.tracker w /\
   (Cleanup.deleted w' = Cleanup.deleted w \/
    Cleanup.deleted w'
      = Cleanup.deleted w
        ++ [(Tracker.dispatchId agent, Tracker.roomName agent)])) \/
  (Cleanup.tracker w'
     = Tracker.with_activities (Cleanup.tracker w)
         (Tracker.delete (Tracker.dispatchId agent)
            (Tracker.activities (Cleanup.tracker w))) /\
   Cleanup.deleted w'
     = Cleanup.deleted w
       ++ [(Tracker.dispatchId agent, Tracker.roomName agent)]).
Proof.
  cbv zeta. unfold Cleanup.cleanupAgent.
  destruct (Tracker.getActivityByDispatchId _ _) as [cur|]; [|left; auto].
  destruct (Tracker.ttlExpiresAt cur) as [[e|]|];
    [|left; auto|left; auto].
  destruct (now <? e); [left; auto|].
  destruct (svc _ _ _); [right | left]; simpl; auto.
Qed.

(** Across the loop of a cycle, whatever the service does: a dispatch
    that is not among the processed agents keeps its entry, and every
    delete call issued is for a processed agent. *)
Lemma cleanupEach_frame (svc : Cleanup.Service) (clock : nat -> Z)
  (agents : list Tracker.AgentActivity) :
  forall (i : nat) (w : Cleanup.World),
    let w' := Cleanup.cleanupEach svc clock i agents w in
    Tracker.defaultTtlSeconds (Cleanup.tracker w')
      = Tracker.defaultTtlSeconds (Cleanup.tracker w) /\
    (forall d,
       ~ In d (map Tracker.dispatchId agents) ->
       Tracker.get d (Tracker.activities (Cleanup.tracker w'))
         = Tracker.get d (Tracker.activities (Cleanup.tracker w))) /\
    exists calls,
      Cleanup.deleted w' = Cleanup.deleted w ++ calls /\
      incl calls
        (map (fun a => (Tracker.dispatchId a, Tracker.roomName a)) agents).
Proof.
  induction agents as [|a rest IH]; intros i w; cbv zeta; simpl.
  - split; [reflexivity|]. split; [reflexivity|].
    exists []. split; [now rewrite app_nil_r | intros x []].
  - specialize (IH (S (S i))
                  (Cleanup.cleanupAgent svc (clock i) (clock (S i)) a w)).
    cbv zeta in IH. destruct IH as [Httl [Hget [calls [Hdel Hincl]]]].
    pose proof (cleanup_touches_own_key_only svc (clock i) (clock (S i)) a w)
      as Hone.
    cbv zeta in Hone.
    set (w1 := Cleanup.cleanupAgent svc (clock i) (clock (S i)) a w) in *.
    split; [|split].
    + rewrite Httl.
      destruct Hone as [[Ht _] | [Ht _]]; rewrite Ht; reflexivity.
    + intros d Hd. rewrite Hget by tauto.
      destruct Hone as [[Ht _] | [Ht _]]; rewrite Ht; [reflexivity|].
      simpl. apply (get_delete_other String.eqb String.eqb_eq).
      intros Heq. apply Hd. now left.
    + destruct Hone as [[_ [Hd | Hd]] | [_ Hd]].
      * exists calls. rewrite Hdel, Hd. split; [reflexivity|].
        intros x Hx. right. now apply Hincl.
      * exists ((Tracker.dispatchId a, Tracker.roomName a) :: calls).
        rewrite Hdel, Hd, <- app_assoc. split; [reflexivity|].
        intros x [Hx | Hx]; [now left | right; now apply Hincl].
      * exists ((Tracker.dispatchId a, Tracker.roomName a) :: calls).
        rewrite Hdel, Hd, <- app_assoc. split; [reflexivity|].
        intros x [Hx | Hx]; [now left | right; now apply Hincl].
Qed.

Lemma runCleanup_as_loop (svc : Cleanup.Service) (clock : nat -> Z)
  (w : Cleanup.World) :
  Cleanup.tracker (Cleanup.runCleanup svc clock w)
    = Cleanup.tracker
        (Cleanup.cleanupEach svc clock 1
           (Tracker.getExpiredAgents (clock O) (Cleanup.tracker w)) w) /\
  Cleanup.deleted (Cleanup.runCleanup svc clock w)
    = Cleanup.deleted
        (Cleanup.cleanupEach svc clock 1
           (Tracker.getExpiredAgents (clock O) (Cleanup.tracker w)) w).
Proof.
  unfold Cleanup.runCleanup.
  destruct (Tracker.getExpiredAgents (clock O) (Cleanup.tracker w))
    as [|a rest] eqn:E; [split; reflexivity|].
  cbv zeta. cbn [Cleanup.tracker Cleanup.deleted Cleanup.say].
  set (w1 := Cleanup.say w _).
  assert (Hsame : forall agents i,
    Cleanup.tracker (Cleanup.cleanupEach svc clock i agents w1)
      = Cleanup.tracker (Cleanup.cleanupEach svc clock i agents w) /\
    Cleanup.deleted (Cleanup.cleanupEach svc clock i agents w1)
      = Cleanup.deleted (Cleanup.cleanupEach svc clock i agents w)).
  { assert (Hgen : forall agents i u v,
      Cleanup.tracker u = Cleanup.tracker v ->
      Cleanup.deleted u = Cleanup.deleted v ->
      Cleanup.tracker (Cleanup.cleanupEach svc clock i agents u)
        = Cleanup.tracker (Cleanup.cleanupEach svc clock i agents v) /\
      Cleanup.deleted (Cleanup.cleanupEach svc clock i agents u)
        = Cleanup.deleted (Cleanup.cleanupEach svc clock i agents v)).
    { induction agents as [|b bs IHb]; intros i u v Ht Hd; simpl;
        [split; assumption|].
      apply IHb; unfold Cleanup.cleanupAgent, Cleanup.say; rewrite Ht, Hd;
        destruct (Tracker.getActivityByDispatchId _ _) as [cur|];
        try (simpl; congruence);
        destruct (Tracker.ttlExpiresAt cur) as [[e|]|];
        try (simpl; congruence);
        destruct (clock i <? e); try (simpl; congruence);
        destruct (svc _ _ _); simpl; congruence. }
    intros agents i. apply Hgen; reflexivity. }
  apply Hsame.
Qed.

Lemma expired_agents_are_tracked (now : Z) (t : Tracker.AgentTracker)
  (x : Tracker.AgentActivity) :
  Tracker.one_per_dispatch t ->
  In x (Tracker.getExpiredAgents now t) ->
  Tracker.get (Tracker.dispatchId x) (Tracker.activities t) = Some x /\
  exists e, Tracker.ttlExpiresAt x = Some (Date.At e) /\ e <= now.
Proof.
  intros Inv Hx. unfold Tracker.getExpiredAgents in Hx.
  apply filter_In in Hx. destruct Hx as [Hval Hexp]. split.
  - exact (in_values_key _ x t Inv Hval eq_refl).
  - unfold Tracker.is_expired in Hexp.
    destruct (Tracker.ttlExpiresAt x) as [[e|]|]; try discriminate.
    exists e. split; [reflexivity | now apply Z.leb_le].
Qed.

(** X7: whatever the external service does and whatever the clock reads,
    a cleanup cycle removes only entries that were expired when it
    started: every dispatch whose entry was then not expired is still
    tracked, unchanged, afterwards, and every delete call the cycle issues
    is for a dispatch and room returned by the cycle's own
    getExpiredAgents scan. *)
Theorem X7_cycle_spares_unexpired :
  forall (svc : Cleanup.Service) (clock : nat -> Z) (w : Cleanup.World),
    Tracker.one_per_dispatch (Cleanup.tracker w) ->
    let w' := Cleanup.runCleanup svc clock w in
    (forall dispatch a,
       Tracker.getActivityByDispatchId dispatch (Cleanup.tracker w) = Some a ->
       Tracker.is_expired (clock O) a = false ->
       Tracker.getActivityByDispatchId dispatch (Cleanup.tracker w')
         = Some a) /\
    exists calls,
      Cleanup.deleted w' = Cleanup.deleted w ++ calls /\
      forall dispatch room,
        In (dispatch, room) calls ->
        exists x,
          In x (Tracker.getExpiredAgents (clock O) (Cleanup.tracker w)) /\
          Tracker.dispatchId x = dispatch /\ Tracker.roomName x = room.
Proof.
  intros svc clock w Inv. cbv zeta.
  destruct (runCleanup_as_loop svc clock w) as [Ht Hd].
  rewrite Ht, Hd.
  destruct (cleanupEach_frame svc clock
              (Tracker.getExpiredAgents (clock O) (Cleanup.tracker w)) 1 w)
    as [_ [Hget [calls [Hdel Hincl]]]].
  split.
  - intros d a G Hexp. unfold Tracker.getActivityByDispatchId in *.
    rewrite Hget; [exact G|].
    intros Hin. apply in_map_iff in Hin. destruct Hin as [x [Hd' Hx]].
    destruct (expired_agents_are_tracked _ _ _ Inv Hx) as [Gx _].
    rewrite Hd' in Gx. rewrite G in Gx. inversion Gx; subst x.
    unfold Tracker.getExpiredAgents in Hx. apply filter_In in Hx.
    destruct Hx as [_ Hx]. congruence.
  - exists calls. split; [exact Hdel|].
    intros d room Hin. apply Hincl in Hin. apply in_map_iff in Hin.
    destruct Hin as [x [Hx Hin]]. inversion Hx; subst.
    exists x. auto.
Qed.

(** X7 on a tracker with an active "AD_1" and an expired "AD_2". *)
Lemma X7_cycle_spares_unexpired_witness :
  let t :=
    fst (Tracker.run
           [Tracker.CTrack "AD_1" "room-1" None None 500;
            Tracker.CTrack "AD_2" "room-2" None None 600;
            Tracker.CMark "AD_2" (Some (Number.of_int 1)) 1000]
           (Tracker.new None)) in
  let svc : Cleanup.Service := fun _ _ _ => Cleanup.DeleteOk in
  Tracker.getActivityByDispatchId "AD_1"
    (Cleanup.tracker
       (Cleanup.runCleanup svc (fun i => 5000 + Z.of_nat i)
          (Cleanup.mkWorld t [] [])))
  = Some (Tracker.mkActivity "AD_1" "room-1" "task-assistant" 500 500 1 None).
Proof.
  intros t svc.
  refine (proj1 (X7_cycle_spares_unexpired svc (fun i => 5000 + Z.of_nat i)
                   (Cleanup.mkWorld t [] []) _) "AD_1"
            (Tracker.mkActivity "AD_1" "room-1" "task-assistant" 500 500 1
               None) _ _).
  - vm_compute. split; repeat constructor; simpl; intuition discriminate.
  - vm_compute. reflexivity.
  - reflexivity.
Defined.

Lemma delete_as_filter (k : string) (m : list (string * Tracker.AgentActivity)) :
  Tracker.delete k m = filter (fun kv => negb (String.eqb k (fst kv))) m.
Proof.
  induction m as [|[k' v'] m IH]; simpl; [reflexivity|].
  unfold Tracker.delete in *. simpl.
  destruct (String.eqb k k'); simpl; [exact IH | now rewrite IH].
Qed.

Lemma filter_twice {A : Type} (p q : A -> bool) (l : list A) :
  filter p (filter q l) = filter (fun x => q x && p x) l.
Proof.
  induction l as [|x l IH]; simpl; [reflexivity|].
  destruct (q x); simpl; [destruct (p x); now rewrite IH | exact IH].
Qed.

Lemma delete_all_as_filter (agents : list Tracker.AgentActivity) :
  forall m,
    fold_left (fun acc a => Tracker.delete (Tracker.dispatchId a) acc)
      agents m
    = filter
        (fun kv =>
           negb (existsb
                   (fun a => String.eqb (Tracker.dispatchId a) (fst kv))
                   agents))
        m.
Proof.
  induction agents as [|a rest IH]; intros m; simpl.
  - induction m as [|kv m IHm]; simpl; [reflexivity | now rewrite <- IHm].
  - rewrite IH, delete_as_filter, filter_twice.
    apply filter_ext. intros kv. now rewrite negb_orb.
Qed.

Lemma cleanupEach_all_resolve (svc : Cleanup.Service) (clock : nat -> Z)
  (agents : list Tracker.AgentActivity) :
  Accounting.always_resolves svc ->
  Accounting.after_start clock ->
  forall (i : nat) (w : Cleanup.World),
    NoDup (map Tracker.dispatchId agents) ->
    (forall a,
       In a agents ->
       exists cur e,
         Tracker.get (Tracker.dispatchId a)
           (Tracker.activities (Cleanup.tracker w)) = Some cur /\
         Tracker.ttlExpiresAt cur = Some (Date.At e) /\ e <= clock O) ->
    let w' := Cleanup.cleanupEach svc clock i agents w in
    Tracker.activities (Cleanup.tracker w')
      = fold_left (fun acc a => Tracker.delete (Tracker.dispatchId a) acc)
          agents (Tracker.activities (Cleanup.tracker w)) /\
    Cleanup.deleted w'
      = Cleanup.deleted w
        ++ map (fun a => (Tracker.dispatchId a, Tracker.roomName a)) agents.
Proof.
  intros Hok Hclock.
  induction agents as [|a rest IH]; intros i w Hnd Hpre; cbv zeta; simpl.
  - split; [reflexivity | now rewrite app_nil_r].
  - inversion Hnd as [|x l Hnot Hnd']; subst.
    destruct (Hpre a (or_introl eq_refl)) as [cur [e [G [Httl Hle]]]].
    assert (Hnow : e <= clock i) by (specialize (Hclock i); lia).
    destruct (cleanup_of_expired svc (clock i) (clock (S i)) a cur e w
                G Httl Hnow) as [Hdel Htr].
    cbv zeta in Hdel, Htr. rewrite Hok in Htr.
    set (w1 := Cleanup.cleanupAgent svc (clock i) (clock (S i)) a w) in *.
    assert (Hpre1 : forall b,
      In b rest ->
      exists cur' e',
        Tracker.get (Tracker.dispatchId b)
          (Tracker.activities (Cleanup.tracker w1)) = Some cur' /\
        Tracker.ttlExpiresAt cur' = Some (Date.At e') /\ e' <= clock O).
    { intros b Hb.
      destruct (Hpre b (or_intror Hb)) as [cur' [e' [G' H']]].
      exists cur', e'. split; [|exact H'].
      rewrite Htr. simpl.
      unfold Tracker.get, Tracker.delete.
      rewrite (get_delete_other String.eqb String.eqb_eq); [exact G'|].
      intros Heq. apply Hnot. rewrite <- Heq. now apply in_map. }
    destruct (IH (S (S i)) w1 Hnd' Hpre1) as [Hacts Hdels].
    cbv zeta in Hacts, Hdels. rewrite Hacts, Hdels, Hdel, Htr. simpl.
    split; [reflexivity | now rewrite <- app_assoc].
Qed.

Lemma dispatch_ids_of_values (m : list (string * Tracker.AgentActivity)) :
  Forall (fun kv => Tracker.dispatchId (snd kv) = fst kv) m ->
  map Tracker.dispatchId (JsMap.values m) = JsMap.keys m.
Proof.
  induction 1 as [|kv m Hkv Hm IH]; simpl; [reflexivity|].
  now rewrite Hkv, IH.
Qed.

Lemma filter_keeps_distinct_images {K V : Type} (key : V -> K)
  (keep : V -> bool) :
  forall vs : list V,
    NoDup (map key vs) -> NoDup (map key (filter keep vs)).
Proof.
  intros l. induction l as [|x l IH]; simpl; [auto|].
  intros Hnd. inversion Hnd as [|y l' Hnot Hnd']; subst.
  destruct (keep x); simpl; [|auto].
  constructor; [|auto].
  intros Hin. apply Hnot. apply in_map_iff in Hin.
  destruct Hin as [z [Hz Hin]]. apply filter_In in Hin.
  rewrite <- Hz. apply in_map. tauto.
Qed.

Lemma expired_key_test (now : Z) (t : Tracker.AgentTracker)
  (kv : string * Tracker.AgentActivity) :
  Tracker.one_per_dispatch t ->
  In kv (Tracker.activities t) ->
  existsb (fun a => String.eqb (Tracker.dispatchId a) (fst kv))
    (Tracker.getExpiredAgents now t)
  = Tracker.is_expired now (snd kv).
Proof.
  intros Inv Hkv. destruct Inv as [Hnd Hall].
  pose proof Hall as Hall'. rewrite Forall_forall in Hall'.
  destruct (Tracker.is_expired now (snd kv)) eqn:E.
  - apply existsb_exists. exists (snd kv). split.
    + unfold Tracker.getExpiredAgents. apply filter_In. split; [|exact E].
      unfold JsMap.values. now apply in_map.
    + apply String.eqb_eq. now apply Hall'.
  - apply not_true_is_false. intros H. apply existsb_exists in H.
    destruct H as [x [Hx Heq]]. apply String.eqb_eq in Heq.
    destruct (expired_agents_are_tracked now t x (conj Hnd Hall) Hx)
      as [Gx _].
    rewrite Heq in Gx. destruct kv as [k v]. simpl in *.
    pose proof (in_nodup_get String.eqb String.eqb_eq _ _ _ Hnd Hkv) as Gk.
    unfold Tracker.get in Gx. rewrite Gk in Gx. inversion Gx; subst x.
    unfold Tracker.getExpiredAgents in Hx. apply filter_In in Hx.
    destruct Hx as [_ Hx]. congruence.
Qed.

Lemma expired_agents_ready (now : Z) (t : Tracker.AgentTracker) :
  Tracker.one_per_dispatch t ->
  NoDup (map Tracker.dispatchId (Tracker.getExpiredAgents now t)) /\
  forall a,
    In a (Tracker.getExpiredAgents now t) ->
    exists cur e,
      Tracker.get (Tracker.dispatchId a) (Tracker.activities t) = Some cur /\
      Tracker.ttlExpiresAt cur = Some (Date.At e) /\ e <= now.
Proof.
  intros Inv. split.
  - unfold Tracker.getExpiredAgents. apply filter_keeps_distinct_images.
    destruct Inv as [Hnd Hall]. now rewrite dispatch_ids_of_values.
  - intros a Ha.
    destruct (expired_agents_are_tracked now t a Inv Ha) as [G [e He]].
    exists a, e. tauto.
Qed.

Lemma no_expired_among_unexpired (now : Z)
  (m : list (string * Tracker.AgentActivity)) :
  filter (Tracker.is_expired now)
    (JsMap.values
       (filter (fun kv => negb (Tracker.is_expired now (snd kv))) m))
  = [].
Proof.
  unfold JsMap.values.
  induction m as [|kv m IH]; simpl; [reflexivity|].
  destruct (Tracker.is_expired now (snd kv)) eqn:E; simpl;
    [exact IH | rewrite E; exact IH].
Qed.

Lemma meanwhile_nothing (w : Cleanup.World) : Cleanup.meanwhile [] w = w.
Proof.
  destruct w as [t d c]. unfold Cleanup.meanwhile. simpl.
  now rewrite app_nil_r.
Qed.

Lemma cleanupAgent_undisturbed (svc : Cleanup.Service) (now later : Z)
  (agent : Tracker.AgentActivity) (w : Cleanup.World) :
  Cleanup.cleanupAgentAmid svc now later [] agent w
  = Cleanup.cleanupAgent svc now later agent w.
Proof.
  unfold Cleanup.cleanupAgentAmid, Cleanup.cleanupAgent.
  destruct (Tracker.getActivityByDispatchId _ _) as [cur|]; [|reflexivity].
  destruct (Tracker.ttlExpiresAt cur) as [[e|]|] eqn:T; try reflexivity.
  destruct (now <? e); [reflexivity|].
  cbv zeta. rewrite meanwhile_nothing. cbn [Cleanup.follow].
  now rewrite T.
Qed.

Lemma cleanupEach_undisturbed (svc : Cleanup.Service) (clock : nat -> Z)
  (others : nat -> list Tracker.Call)
  (agents : list Tracker.AgentActivity) :
  Cleanup.undisturbed others ->
  forall (i : nat) (w : Cleanup.World),
    Cleanup.cleanupEachAmid svc clock others i agents w
    = Cleanup.cleanupEach svc clock i agents w.
Proof.
  intros Q. induction agents as [|a rest IH]; intros i w; simpl;
    [reflexivity|].
  now rewrite !Q, cleanupAgent_undisturbed, meanwhile_nothing, IH.
Qed.

(** With no other handler at the awaits, the cycle is [runCleanup] run in
    one piece. *)
Lemma runCleanup_undisturbed (svc : Cleanup.Service) (clock : nat -> Z)
  (others : nat -> list Tracker.Call) (w : Cleanup.World) :
  Cleanup.undisturbed others ->
  Cleanup.runCleanupAmid svc clock others w = Cleanup.runCleanup svc clock w.
Proof.
  intros Q. unfold Cleanup.runCleanupAmid, Cleanup.runCleanup. cbv zeta.
  destruct (Tracker.getExpiredAgents _ _) as [|a l]; [reflexivity|].
  now rewrite (cleanupEach_undisturbed svc clock others _ Q).
Qed.

(** A handler that runs while the delete call of "AD_1" is awaited and
    removes the active "AD_2": the cycle ends with neither entry, although
    "AD_2" was not expired when it started. *)
Example handler_during_delete :
  let t :=
    fst (Tracker.run
           [Tracker.CTrack "AD_1" "room-1" None None 500;
            Tracker.CTrack "AD_2" "room-2" None None 600;
            Tracker.CMark "AD_1" (Some (Number.of_int 1)) 1000]
           (Tracker.new None)) in
  let svc : Cleanup.Service := fun _ _ _ => Cleanup.DeleteOk in
  let others : nat -> list Tracker.Call :=
    fun i => if Nat.eqb i 1 then [Tracker.CRemove "AD_2" 5001] else [] in
  let w' :=
    Cleanup.runCleanupAmid svc (fun i => 5000 + Z.of_nat i) others
      (Cleanup.mkWorld t [] []) in
  map Tracker.dispatchId
    (Tracker.getExpiredAgents 5000 t) = ["AD_1"] /\
  Tracker.activities (Cleanup.tracker w') = [] /\
  Cleanup.deleted w' = [("AD_1", "room-1")].
Proof. vm_compute. repeat split. Qed.

(** A handler that reactivates "AD_1" while its delete call is awaited:
    the cycle does not check the entry again and removes it; its last log
    line then finds the TTL cleared and the cleanup is reported as
    failed. *)
Example reactivated_during_delete :
  let t :=
    fst (Tracker.run
           [Tracker.CTrack "AD_1" "room-1" None None 500;
            Tracker.CMark "AD_1" (Some (Number.of_int 1)) 1000]
           (Tracker.new None)) in
  let svc : Cleanup.Service := fun _ _ _ => Cleanup.DeleteOk in
  let others : nat -> list Tracker.Call :=
    fun i =>
      if Nat.eqb i 1
      then [Tracker.CTrack "AD_1" "room-1" None None 5001]
      else [] in
  let w' :=
    Cleanup.runCleanupAmid svc (fun i => 5000 + Z.of_nat i) others
      (Cleanup.mkWorld t [] []) in
  Tracker.getActivityByDispatchId "AD_1"
    (fst (Tracker.run (others 1%nat) t))
  = Some (Tracker.mkActivity "AD_1" "room-1" "task-assistant" 500 5001 1
            None) /\
  Tracker.activities (Cleanup.tracker w') = [] /\
  In (StdError,
      Cleanup.FailedCleanup 5002 "AD_1" "room-1"
        Cleanup.null_has_no_properties)
    (Cleanup.console w').
Proof. vm_compute. repeat split. tauto. Qed.

(** X8: when no other handler calls the tracker while the cycle is
    suspended at an await, every external delete call succeeds and the
    clock does not run backwards during the cycle, one cleanup cycle
    removes from the tracker exactly the entries that were expired when it
    started and keeps all others in place; it issues exactly one delete
    call per expired entry, in scan order, with the entry's dispatch id
    and room; afterwards nothing is expired as of the cycle's start. *)
Theorem X8_cycle_reclaims_all_expired :
  forall (svc : Cleanup.Service) (clock : nat -> Z)
         (others : nat -> list Tracker.Call) (w : Cleanup.World),
    Cleanup.undisturbed others ->
    Accounting.always_resolves svc ->
    Accounting.after_start clock ->
    Tracker.one_per_dispatch (Cleanup.tracker w) ->
    let w' := Cleanup.runCleanupAmid svc clock others w in
    let expired := Tracker.getExpiredAgents (clock O) (Cleanup.tracker w) in
    Tracker.activities (Cleanup.tracker w')
      = filter (fun kv => negb (Tracker.is_expired (clock O) (snd kv)))
          (Tracker.activities (Cleanup.tracker w)) /\
    Cleanup.deleted w'
      = Cleanup.deleted w
        ++ map (fun a => (Tracker.dispatchId a, Tracker.roomName a))
             expired /\
    Tracker.getExpiredAgents (clock O) (Cleanup.tracker w') = [].
Proof.
  intros svc clock others w Q Hok Hclock Inv. cbv zeta.
  rewrite (runCleanup_undisturbed svc clock others w Q).
  destruct (runCleanup_as_loop svc clock w) as [Ht Hd]. rewrite Ht, Hd.
  destruct (expired_agents_ready (clock O) (Cleanup.tracker w) Inv)
    as [Hnd Hpre].
  destruct (cleanupEach_all_resolve svc clock _ Hok Hclock 1%nat w Hnd Hpre)
    as [Hacts Hdel].
  cbv zeta in Hacts, Hdel.
  assert (Hfilter :
    Tracker.activities
      (Cleanup.tracker
         (Cleanup.cleanupEach svc clock 1
            (Tracker.getExpiredAgents (clock O) (Cleanup.tracker w)) w))
    = filter (fun kv => negb (Tracker.is_expired (clock O) (snd kv)))
        (Tracker.activities (Cleanup.tracker w))).
  { rewrite Hacts, delete_all_as_filter. apply filter_ext_in.
    intros kv Hkv. f_equal. now apply expired_key_test. }
  split; [exact Hfilter|]. split; [exact Hdel|].
  unfold Tracker.getExpiredAgents at 1. rewrite Hfilter.
  apply no_expired_among_unexpired.
Qed.

(** X8 on the scenario of the spec: "AD_1" marked with a five-second TTL,
    the cycle run two seconds after it ran out. *)
Lemma X8_cycle_reclaims_all_expired_witness :
  let t :=
    fst (Tracker.run
           [Tracker.CTrack "AD_1" "room-1" None None 500;
            Tracker.CMark "AD_1" (Some (Number.of_int 5)) 1000]
           (Tracker.new None)) in
  let svc : Cleanup.Service := fun _ _ _ => Cleanup.DeleteOk in
  let w' :=
    Cleanup.runCleanupAmid svc (fun i => 8000 + Z.of_nat i) (fun _ => [])
      (Cleanup.mkWorld t [] []) in
  Tracker.activities (Cleanup.tracker w') = [] /\
  Cleanup.deleted w' = [("AD_1", "room-1")].
Proof.
  intros t svc w'.
  assert (Q : Cleanup.undisturbed (fun _ => [])) by (intros i; reflexivity).
  assert (Hok : Accounting.always_resolves svc) by (intros h d r; reflexivity).
  assert (Hclock : Accounting.after_start (fun i => 8000 + Z.of_nat i))
    by (intros i; lia).
  assert (Inv : Tracker.one_per_dispatch t).
  { vm_compute. split; repeat constructor. simpl. tauto. }
  destruct (X8_cycle_reclaims_all_expired svc _ _ (Cleanup.mkWorld t [] [])
              Q Hok Hclock Inv) as [Hacts [Hdel _]].
  split; [exact Hacts | exact Hdel].
Defined.

Lemma cleanupEach_all_throw (svc : Cleanup.Service) (clock : nat -> Z)
  (agents : list Tracker.AgentActivity) :
  Accounting.always_throws svc ->
  Accounting.after_start clock ->
  forall (i : nat) (w : Cleanup.World),
    (forall a,
       In a agents ->
       exists cur e,
         Tracker.get (Tracker.dispatchId a)
           (Tracker.activities (Cleanup.tracker w)) = Some cur /\
         Tracker.ttlExpiresAt cur = Some (Date.At e) /\ e <= clock O) ->
    let w' := Cleanup.cleanupEach svc clock i agents w in
    Cleanup.tracker w' = Cleanup.tracker w /\
    Cleanup.deleted w'
      = Cleanup.deleted w
        ++ map (fun a => (Tracker.dispatchId a, Tracker.roomName a)) agents.
Proof.
  intros Hthrow Hclock.
  induction agents as [|a rest IH]; intros i w Hpre; cbv zeta; simpl.
  - split; [reflexivity | now rewrite app_nil_r].
  - destruct (Hpre a (or_introl eq_refl)) as [cur [e [G [Httl Hle]]]].
    assert (Hnow : e <= clock i) by (specialize (Hclock i); lia).
    destruct (cleanup_of_expired svc (clock i) (clock (S i)) a cur e w
                G Httl Hnow) as [Hdel Htr].
    cbv zeta in Hdel, Htr.
    destruct (Hthrow (Cleanup.deleted w) (Tracker.dispatchId a)
                (Tracker.roomName a)) as [message Hm].
    rewrite Hm in Htr.
    set (w1 := Cleanup.cleanupAgent svc (clock i) (clock (S i)) a w) in *.
    assert (Hpre1 : forall b,
      In b rest ->
      exists cur' e',
        Tracker.get (Tracker.dispatchId b)
          (Tracker.activities (Cleanup.tracker w1)) = Some cur' /\
        Tracker.ttlExpiresAt cur' = Some (Date.At e') /\ e' <= clock O).
    { intros b Hb. rewrite Htr. apply Hpre. now right. }
    destruct (IH (S (S i)) w1 Hpre1) as [Ht1 Hd1].
    cbv zeta in Ht1, Hd1. rewrite Ht1, Hd1, Hdel, Htr.
    split; [reflexivity | now rewrite <- app_assoc].
Qed.

(** X9: when no other handler calls the tracker while the cycle is
    suspended at an await, the clock does not run backwards during the
    cycle and every external delete call fails, a cleanup cycle leaves the
    tracker exactly as it was, after attempting one delete call per
    expired entry; the failures do not stop the loop, and the same entries
    are found expired again by the next scan. *)
Theorem X9_cycle_keeps_entries_on_failure :
  forall (svc : Cleanup.Service) (clock : nat -> Z)
         (others : nat -> list Tracker.Call) (w : Cleanup.World),
    Cleanup.undisturbed others ->
    Accounting.always_throws svc ->
    Accounting.after_start clock ->
    Tracker.one_per_dispatch (Cleanup.tracker w) ->
    let w' := Cleanup.runCleanupAmid svc clock others w in
    Cleanup.tracker w' = Cleanup.tracker w /\
    Cleanup.deleted w'
      = Cleanup.deleted w
        ++ map (fun a => (Tracker.dispatchId a, Tracker.roomName a))
             (Tracker.getExpiredAgents (clock O) (Cleanup.tracker w)) /\
    Tracker.getExpiredAgents (clock O) (Cleanup.tracker w')
      = Tracker.getExpiredAgents (clock O) (Cleanup.tracker w).
Proof.
  intros svc clock others w Q Hthrow Hclock Inv. cbv zeta.
  rewrite (runCleanup_undisturbed svc clock others w Q).
  destruct (runCleanup_as_loop svc clock w) as [Ht Hd]. rewrite Ht, Hd.
  destruct (expired_agents_ready (clock O) (Cleanup.tracker w) Inv)
    as [_ Hpre].
  destruct (cleanupEach_all_throw svc clock _ Hthrow Hclock 1%nat w Hpre)
    as [Htr Hdel].
  cbv zeta in Htr, Hdel. rewrite Htr. auto.
Qed.

(** X9 on two expired dispatches and a service that is down. *)
Lemma X9_cycle_keeps_entries_on_failure_witness :
  let t :=
    fst (Tracker.run
           [Tracker.CTrack "AD_1" "room-1" None None 500;
            Tracker.CTrack "AD_2" "room-2" None None 600;
            Tracker.CMark "AD_1" (Some (Number.of_int 1)) 1000;
            Tracker.CMark "AD_2" (Some (Number.of_int 1)) 1000]
           (Tracker.new None)) in
  let svc : Cleanup.Service :=
    fun _ _ _ => Cleanup.DeleteThrows (Some "unavailable") in
  let w' :=
    Cleanup.runCleanupAmid svc (fun i => 8000 + Z.of_nat i) (fun _ => [])
      (Cleanup.mkWorld t [] []) in
  Cleanup.tracker w' = t /\
  Cleanup.deleted w' = [("AD_1", "room-1"); ("AD_2", "room-2")].
Proof.
  intros t svc w'.
  assert (Q : Cleanup.undisturbed (fun _ => [])) by (intros i; reflexivity).
  assert (Hthrow : Accounting.always_throws svc)
    by (intros h d r; eexists; reflexivity).
  assert (Hclock : Accounting.after_start (fun i => 8000 + Z.of_nat i))
    by (intros i; lia).
  assert (Inv : Tracker.one_per_dispatch t).
  { vm_compute. split; repeat constructor; simpl; intuition discriminate. }
  destruct (X9_cycle_keeps_entries_on_failure svc _ _
              (Cleanup.mkWorld t [] []) Q Hthrow Hclock Inv)
    as [Htr [Hdel _]].
  split; [exact Htr | exact Hdel].
Defined.

(** * The cleanup worker's life cycle *)

Lemma cycle_keeps_timers (svc : Cleanup.Service) (clock : nat -> Z)
  (p : Worker.Process) :
  Worker.timers (Worker.cycle svc clock p) = Worker.timers p /\
  Worker.next_handle (Worker.cycle svc clock p) = Worker.next_handle p.
Proof. split; reflexivity. Qed.

Lemma clear_fresh_handle (handle : nat) (interval : Worker.Interval)
  (ts : list (nat * Worker.Interval)) :
  Forall (fun t => (fst t < handle)%nat) ts ->
  Worker.clearInterval handle (ts ++ [(handle, interval)]) = ts.
Proof.
  intros Hfresh. unfold Worker.clearInterval. rewrite filter_app. simpl.
  rewrite Nat.eqb_refl. simpl. rewrite app_nil_r.
  induction Hfresh as [|t ts Ht Hts IH]; simpl; [reflexivity|].
  assert (E : Nat.eqb (fst t) handle = false) by (apply Nat.eqb_neq; lia).
  rewrite E. simpl. now rewrite IH.
Qed.

Lemma start_when_stopped (svc : Cleanup.Service) (clock : nat -> Z)
  (wk : Worker.CleanupWorker) (p : Worker.Process) :
  Worker.isRunning wk = false ->
  Worker.start svc clock wk p
  = let ran :=
      Worker.cycle svc (fun i => clock (S i))
        (Worker.say p
           [(StdLog, Worker.Starting (clock O) (Worker.intervalMs wk))]) in
    (Worker.mkWorker (Some (Worker.next_handle p)) (Worker.intervalMs wk)
       (Worker.livekitHost wk) (Worker.apiKey wk) (Worker.apiSecret wk) true,
     Worker.mkProcess (Worker.tracker ran) (Worker.deleted ran)
       (Worker.timers p ++ [(Worker.next_handle p, Worker.intervalMs wk)])
       (S (Worker.next_handle p)) (Worker.console ran)).
Proof.
  intros Hstopped. unfold Worker.start. rewrite Hstopped. reflexivity.
Qed.

(** X10: [start] on a worker that is not running marks it running, stores
    the new interval handle in it and registers exactly one timer with the
    worker's period.  A second [start] is a logged no-op: same worker,
    same timers, same tracker, no further cleanup run; only the line
    "already running" is printed. *)
Theorem X10_start_is_idempotent :
  forall (svc : Cleanup.Service) (clock again : nat -> Z)
         (wk : Worker.CleanupWorker) (p : Worker.Process),
    Worker.isRunning wk = false ->
    let wk1 := fst (Worker.start svc clock wk p) in
    let p1 := snd (Worker.start svc clock wk p) in
    Worker.isActive wk1 = true /\
    Worker.intervalId wk1 = Some (Worker.next_handle p) /\
    Worker.timers p1
      = Worker.timers p ++ [(Worker.next_handle p, Worker.intervalMs wk)] /\
    Worker.next_handle p1 = S (Worker.next_handle p) /\
    Worker.start svc again wk1 p1
      = (wk1, Worker.say p1 [(StdLog, Worker.AlreadyRunning (again O))]).
Proof.
  intros svc clock again wk p Hstopped. cbv zeta.
  rewrite (start_when_stopped svc clock wk p Hstopped).
  cbv zeta. cbn [fst snd].
  repeat split.
Qed.

(** X10 on a fresh worker and an empty process. *)
Lemma X10_start_is_idempotent_witness :
  let svc : Cleanup.Service := fun _ _ _ => Cleanup.DeleteOk in
  let wk := Worker.new "https://lk.example" "key" "secret" None in
  let p := Worker.mkProcess (Tracker.new None) [] [] 1 [] in
  Worker.timers
    (snd (Worker.start svc (fun i => 2000 + Z.of_nat i)
            (fst (Worker.start svc (fun i => 1000 + Z.of_nat i) wk p))
            (snd (Worker.start svc (fun i => 1000 + Z.of_nat i) wk p))))
  = [(1%nat, Worker.Ms 60000)].
Proof.
  intros svc wk p.
  destruct (X10_start_is_idempotent svc (fun i => 1000 + Z.of_nat i)
              (fun i => 2000 + Z.of_nat i) wk p eq_refl)
    as [_ [_ [_ [_ Hagain]]]].
  cbv zeta in Hagain. rewrite Hagain. reflexivity.
Defined.

(** X11: [stop] after [start] leaves no timer behind: the process has the
    timers it had before the start (given that live handles are older
    than the next handle), the worker is inactive with no handle, and the
    tracker is as the start left it.  A fired callback of the cleared
    handle does nothing, and a second [stop] is a logged no-op. *)
Theorem X11_stop_clears_the_timer :
  forall (svc : Cleanup.Service) (clock tick : nat -> Z) (now again : Z)
         (wk : Worker.CleanupWorker) (p : Worker.Process),
    Worker.isRunning wk = false ->
    Worker.handles_fresh p ->
    let wk1 := fst (Worker.start svc clock wk p) in
    let p1 := snd (Worker.start svc clock wk p) in
    let wk2 := fst (Worker.stop now wk1 p1) in
    let p2 := snd (Worker.stop now wk1 p1) in
    Worker.isActive wk2 = false /\
    Worker.intervalId wk2 = None /\
    Worker.timers p2 = Worker.timers p /\
    Worker.tracker p2 = Worker.tracker p1 /\
    Worker.fire svc tick (Worker.next_handle p) p2 = p2 /\
    Worker.stop again wk2 p2
      = (wk2, Worker.say p2 [(StdLog, Worker.NotRunning again)]).
Proof.
  intros svc clock tick now again wk p Hstopped Hfresh. cbv zeta.
  rewrite (start_when_stopped svc clock wk p Hstopped).
  cbv zeta. cbn [fst snd].
  set (ran := Worker.cycle svc _ _).
  unfold Worker.stop at 1 2 3 4 5 6 7.
  cbn [Worker.isRunning negb fst snd Worker.intervalId Worker.say
       Worker.timers Worker.tracker Worker.deleted Worker.next_handle
       Worker.console].
  rewrite (clear_fresh_handle _ _ _ Hfresh).
  split; [reflexivity|]. split; [reflexivity|]. split; [reflexivity|].
  split; [reflexivity|]. split; [|reflexivity].
  unfold Worker.fire. cbn [Worker.timers].
  assert (E : existsb (fun t => Nat.eqb (fst t) (Worker.next_handle p))
                (Worker.timers p) = false).
  { apply not_true_is_false. intros H. apply existsb_exists in H.
    destruct H as [t [Hin Heq]]. apply Nat.eqb_eq in Heq.
    unfold Worker.handles_fresh in Hfresh. rewrite Forall_forall in Hfresh.
    specialize (Hfresh t Hin). lia. }
  now rewrite E.
Qed.

(** X11 on a process that already has another timer. *)
Lemma X11_stop_clears_the_timer_witness :
  let svc : Cleanup.Service := fun _ _ _ => Cleanup.DeleteOk in
  let wk := Worker.new "https://lk.example" "key" "secret" None in
  let p :=
    Worker.mkProcess (Tracker.new None) [] [(3%nat, Worker.Ms 1000)] 4 [] in
  Worker.timers
    (snd (Worker.stop 5000
            (fst (Worker.start svc (fun i => 1000 + Z.of_nat i) wk p))
            (snd (Worker.start svc (fun i => 1000 + Z.of_nat i) wk p))))
  = [(3%nat, Worker.Ms 1000)].
Proof.
  intros svc wk p.
  assert (Hfresh : Worker.handles_fresh p).
  { unfold Worker.handles_fresh. simpl. repeat constructor. }
  destruct (X11_stop_clears_the_timer svc (fun i => 1000 + Z.of_nat i)
              (fun i => 9000 + Z.of_nat i) 5000 6000 wk p eq_refl Hfresh)
    as [_ [_ [Htimers _]]].
  exact Htimers.
Defined.

(** X12: when one of the three LiveKit settings is missing or empty, the
    worker is disabled: [getCleanupWorker] returns null (even when an
    instance exists) and [initializeCleanupWorker] starts nothing; the
    instance, the timers, the tracker and the delete calls are untouched
    and only two warnings are printed. *)
Theorem X12_no_credentials_no_worker :
  forall (parseInt10 : string -> Worker.Interval) (svc : Cleanup.Service)
         (clock : nat -> Z) (env : Worker.Env)
         (instance : option Worker.CleanupWorker) (p : Worker.Process),
    Dispatch.configured (Worker.NEXT_PUBLIC_LIVEKIT_URL env) = None \/
    Dispatch.configured (Worker.LIVEKIT_API_KEY env) = None \/
    Dispatch.configured (Worker.LIVEKIT_API_SECRET env) = None ->
    Worker.getCleanupWorker parseInt10 env instance p
      = (None, instance,
         Worker.say p [(StdWarn, Worker.CredentialsMissing)]) /\
    Worker.initializeCleanupWorker parseInt10 svc clock env instance p
      = (instance,
         Worker.mkProcess (Worker.tracker p) (Worker.deleted p)
           (Worker.timers p) (Worker.next_handle p)
           (Worker.console p
            ++ [(StdWarn, Worker.CredentialsMissing);
                (StdWarn, Worker.NotInitialized (clock O))])).
Proof.
  intros parseInt10 svc clock env instance p Hmissing.
  assert (Hget :
    Worker.getCleanupWorker parseInt10 env instance p
      = (None, instance,
         Worker.say p [(StdWarn, Worker.CredentialsMissing)])).
  { unfold Worker.getCleanupWorker.
    destruct Hmissing as [H | [H | H]]; rewrite H;
      repeat match goal with
             | |- context [match ?x with Some _ => _ | None => _ end] =>
                 destruct x
             end; reflexivity. }
  split; [exact Hget|].
  unfold Worker.initializeCleanupWorker. rewrite Hget.
  unfold Worker.say. simpl. now rewrite <- app_assoc.
Qed.

(** X12 with the API secret unset. *)
Lemma X12_no_credentials_no_worker_witness :
  let env :=
    Worker.mkEnv (Some "wss://lk.example") (Some "key") None None in
  let p := Worker.mkProcess (Tracker.new None) [] [] 1 [] in
  Worker.timers
    (snd (Worker.initializeCleanupWorker (fun _ => Worker.NotANumber)
            (fun _ _ _ => Cleanup.DeleteOk) (fun _ => 1000) env None p))
  = [].
Proof.
  intros env p.
  destruct (X12_no_credentials_no_worker (fun _ => Worker.NotANumber)
              (fun _ _ _ => Cleanup.DeleteOk) (fun _ => 1000) env None p
              (or_intror (or_intror eq_refl))) as [_ Hinit].
  rewrite Hinit. reflexivity.
Defined.

(** X13: with the three settings present and no instance yet,
    [initializeCleanupWorker] creates the worker for the https/http form
    of the URL, with the period read from CLEANUP_INTERVAL_MS (60000 when
    unset or empty), and starts it, registering one timer.  A second
    initialisation changes nothing and prints nothing.  A shutdown then
    clears that timer and keeps the stopped instance; a second shutdown
    changes nothing. *)
Theorem X13_initialize_once_then_shutdown :
  forall (parseInt10 : string -> Worker.Interval) (svc : Cleanup.Service)
         (clock again : nat -> Z) (now later : Z) (env : Worker.Env)
         (p : Worker.Process) (wsUrl key secret : string),
    Dispatch.configured (Worker.NEXT_PUBLIC_LIVEKIT_URL env) = Some wsUrl ->
    Dispatch.configured (Worker.LIVEKIT_API_KEY env) = Some key ->
    Dispatch.configured (Worker.LIVEKIT_API_SECRET env) = Some secret ->
    Worker.handles_fresh p ->
    let started :=
      Worker.initializeCleanupWorker parseInt10 svc clock env None p in
    let interval :=
      match Dispatch.configured (Worker.CLEANUP_INTERVAL_MS env) with
      | Some text => parseInt10 text
      | None => Worker.Ms 60000
      end in
    let stopped := Worker.shutdownCleanupWorker now (fst started) (snd started) in
    fst started
      = Some (Worker.mkWorker (Some (Worker.next_handle p)) interval
                (Dispatch.livekitHost wsUrl) key secret true) /\
    Worker.timers (snd started)
      = Worker.timers p ++ [(Worker.next_handle p, interval)] /\
    Worker.initializeCleanupWorker parseInt10 svc again env (fst started)
      (snd started) = started /\
    fst stopped
      = Some (Worker.mkWorker None interval (Dispatch.livekitHost wsUrl) key
                secret false) /\
    Worker.timers (snd stopped) = Worker.timers p /\
    Worker.shutdownCleanupWorker later (fst stopped) (snd stopped) = stopped.
Proof.
  intros parseInt10 svc clock again now later env p wsUrl key secret
    Hurl Hkey Hsecret Hfresh.
  cbv zeta.
  set (interval :=
    match Dispatch.configured (Worker.CLEANUP_INTERVAL_MS env) with
    | Some text => parseInt10 text
    | None => Worker.Ms 60000
    end).
  assert (Hget0 : forall q,
    Worker.getCleanupWorker parseInt10 env None q
      = (Some (Worker.new (Dispatch.livekitHost wsUrl) key secret
                 (Some interval)),
         Some (Worker.new (Dispatch.livekitHost wsUrl) key secret
                 (Some interval)),
         q)).
  { intros q. unfold Worker.getCleanupWorker.
    rewrite Hurl, Hkey, Hsecret. reflexivity. }
  assert (Hget1 : forall wk q,
    Worker.getCleanupWorker parseInt10 env (Some wk) q
      = (Some wk, Some wk, q)).
  { intros wk q. unfold Worker.getCleanupWorker.
    rewrite Hurl, Hkey, Hsecret. reflexivity. }
  assert (Hstart :
    exists q,
      Worker.initializeCleanupWorker parseInt10 svc clock env None p
      = (Some (Worker.mkWorker (Some (Worker.next_handle p)) interval
                 (Dispatch.livekitHost wsUrl) key secret true),
         q) /\
      Worker.timers q = Worker.timers p ++ [(Worker.next_handle p, interval)]).
  { unfold Worker.initializeCleanupWorker. rewrite Hget0.
    cbn [Worker.isActive Worker.new Worker.isRunning negb].
    rewrite start_when_stopped by reflexivity. cbv zeta.
    eexists. split; reflexivity. }
  destruct Hstart as [q [Hinit Htimers]]. rewrite Hinit. cbn [fst snd].
  split; [reflexivity|]. split; [exact Htimers|]. split.
  { unfold Worker.initializeCleanupWorker. rewrite Hget1. reflexivity. }
  unfold Worker.shutdownCleanupWorker at 1 2 3.
  cbn [Worker.isActive Worker.isRunning].
  unfold Worker.stop.
  cbn [Worker.isRunning negb Worker.intervalId Worker.say fst snd
       Worker.timers Worker.tracker Worker.deleted Worker.next_handle
       Worker.console Worker.intervalMs Worker.livekitHost Worker.apiKey
       Worker.apiSecret].
  rewrite Htimers, (clear_fresh_handle _ _ _ Hfresh).
  split; [reflexivity|]. split; reflexivity.
Qed.

(** X13 on an empty process, CLEANUP_INTERVAL_MS unset. *)
Lemma X13_initialize_once_then_shutdown_witness :
  let env :=
    Worker.mkEnv (Some "wss://lk.example") (Some "key") (Some "secret")
      None in
  let p := Worker.mkProcess (Tracker.new None) [] [] 1 [] in
  fst (Worker.initializeCleanupWorker (fun _ => Worker.NotANumber)
         (fun _ _ _ => Cleanup.DeleteOk) (fun _ => 1000) env None p)
  = Some (Worker.mkWorker (Some 1%nat) (Worker.Ms 60000)
            "https://lk.example" "key" "secret" true).
Proof.
  intros env p.
  assert (Hfresh : Worker.handles_fresh p) by constructor.
  exact (proj1 (X13_initialize_once_then_shutdown
                  (fun _ => Worker.NotANumber)
                  (fun _ _ _ => Cleanup.DeleteOk) (fun _ => 1000)
                  (fun _ => 2000) 3000 4000 env p "wss://lk.example" "key"
                  "secret" eq_refl eq_refl eq_refl Hfresh)).
Defined.

(** * The dispatch route: rejected requests and the overall frame *)

(** X14: a request the handler rejects reaches no external service.  When
    roomName is anything but a non-empty string the answer is 400 and
    nothing at all changes, not even the console; when roomName is fine
    but a LiveKit setting is missing or empty the answer is 500 "Server
    misconfigured" and no call is made; when reading the body throws the
    answer is 500 "Failed to dispatch agent" and no call is made. *)
Theorem X14_rejected_requests_call_nothing :
  forall (svc : Dispatch.Service) (env : Dispatch.Env) (w : Dispatch.World),
    (forall b,
       (forall name, Dispatch.roomName b = VString name ->
                     name = EmptyString) ->
       Dispatch.POST svc env (Dispatch.BodyParsed b) w
         = (Dispatch.mkResponse 400
              [("error", VString Dispatch.missing_room_name)],
            w)) /\
    (forall b name,
       Dispatch.roomName b = VString name ->
       name <> EmptyString ->
       Dispatch.configured (Dispatch.LIVEKIT_API_KEY env) = None \/
       Dispatch.configured (Dispatch.LIVEKIT_API_SECRET env) = None \/
       Dispatch.configured (Dispatch.NEXT_PUBLIC_LIVEKIT_URL env) = None ->
       Dispatch.POST svc env (Dispatch.BodyParsed b) w
         = (Dispatch.mkResponse 500
              [("error",
                VString "Server misconfigured: Missing LiveKit credentials")],
            Dispatch.say w [(StdError, Dispatch.CredentialsNotConfigured)])) /\
    (forall message,
       Dispatch.status (fst (Dispatch.POST svc env
                               (Dispatch.BodyThrows message) w)) = 500 /\
       Dispatch.effects (snd (Dispatch.POST svc env
                                (Dispatch.BodyThrows message) w))
         = Dispatch.effects w /\
       Dispatch.registry (snd (Dispatch.POST svc env
                                 (Dispatch.BodyThrows message) w))
         = Dispatch.registry w).
Proof.
  intros svc env w. split; [|split].
  - intros b Hroom. unfold Dispatch.POST.
    destruct (Dispatch.roomName b) as [| | | |name|]; try reflexivity.
    rewrite (Hroom name eq_refl). reflexivity.
  - intros b name Hroom Hname Hmissing. unfold Dispatch.POST.
    rewrite Hroom. apply String.eqb_neq in Hname. rewrite Hname.
    destruct Hmissing as [H | [H | H]]; rewrite H;
      repeat match goal with
             | |- context [match ?x with Some _ => _ | None => _ end] =>
                 destruct x
             end; reflexivity.
  - intros message. repeat split.
Qed.

(** X14 on a numeric roomName and on a missing API key. *)
Lemma X14_rejected_requests_call_nothing_witness :
  let svc : Dispatch.Service := fun _ _ _ _ _ => Dispatch.Created "AD_1" in
  let w := Dispatch.mkWorld [] [] (Tracker.new None) [] in
  snd (Dispatch.POST svc
         (Dispatch.mkEnv (Some "key") (Some "secret") (Some "wss://lk"))
         (Dispatch.BodyParsed
            (Dispatch.mkBody (VNumber 7) VUndefined VUndefined)) w) = w /\
  Dispatch.effects
    (snd (Dispatch.POST svc
            (Dispatch.mkEnv None (Some "secret") (Some "wss://lk"))
            (Dispatch.BodyParsed
               (Dispatch.mkBody (VString "room-1") VUndefined VUndefined))
            w)) = [].
Proof.
  intros svc w. split.
  - destruct (X14_rejected_requests_call_nothing svc
                (Dispatch.mkEnv (Some "key") (Some "secret")
                   (Some "wss://lk")) w) as [Hbad _].
    rewrite Hbad; [reflexivity|]. intros name Hname. discriminate Hname.
  - destruct (X14_rejected_requests_call_nothing svc
                (Dispatch.mkEnv None (Some "secret") (Some "wss://lk")) w)
      as [_ [Hcreds _]].
    assert (Hne : "room-1" <> EmptyString) by discriminate.
    rewrite (Hcreds
               (Dispatch.mkBody (VString "room-1") VUndefined VUndefined)
               "room-1" eq_refl Hne (or_introl eq_refl)).
    reflexivity.
Defined.

(** X15: whatever the request, the settings and the service, the handler
    never touches the tracker, answers with status 200, 400 or 500, makes
    at most one external call and that call is a create; when the answer
    is 200, the create call resolved and the answer carries the id it
    returned. *)
Theorem X15_post_frame :
  forall (svc : Dispatch.Service) (env : Dispatch.Env)
         (req : Dispatch.Request) (w : Dispatch.World),
    let r := fst (Dispatch.POST svc env req w) in
    let w' := snd (Dispatch.POST svc env req w) in
    Dispatch.tracker w' = Dispatch.tracker w /\
    (Dispatch.status r = 200 \/ Dispatch.status r = 400 \/
     Dispatch.status r = 500) /\
    (Dispatch.effects w' = Dispatch.effects w \/
     exists host name metadata,
       Dispatch.effects w'
         = Dispatch.effects w
           ++ [Dispatch.CreateDispatch host name Dispatch.AGENT_NAME
                 metadata]) /\
    (Dispatch.status r = 200 ->
     exists new_id name metadata,
       Dispatch.field "dispatchId" r = Some (VString new_id) /\
       svc (Dispatch.registry w) (Dispatch.effects w) name
         Dispatch.AGENT_NAME metadata = Dispatch.Created new_id).
Proof.
  intros svc env req w. cbv zeta. unfold Dispatch.POST.
  assert (Hrejected : forall (code : Z) body w1,
    code = 400 \/ code = 500 ->
    Dispatch.tracker w1 = Dispatch.tracker w ->
    Dispatch.effects w1 = Dispatch.effects w ->
    let r := Dispatch.mkResponse code body in
    Dispatch.tracker (snd (r, w1)) = Dispatch.tracker w /\
    (Dispatch.status (fst (r, w1)) = 200 \/
     Dispatch.status (fst (r, w1)) = 400 \/
     Dispatch.status (fst (r, w1)) = 500) /\
    (Dispatch.effects (snd (r, w1)) = Dispatch.effects w \/
     exists host name metadata,
       Dispatch.effects (snd (r, w1))
         = Dispatch.effects w
           ++ [Dispatch.CreateDispatch host name Dispatch.AGENT_NAME
                 metadata]) /\
    (Dispatch.status (fst (r, w1)) = 200 ->
     exists new_id name metadata,
       Dispatch.field "dispatchId" (fst (r, w1)) = Some (VString new_id) /\
       svc (Dispatch.registry w) (Dispatch.effects w) name
         Dispatch.AGENT_NAME metadata = Dispatch.Created new_id)).
  { intros code body w1 Hcode Ht He. cbv zeta. cbn [fst snd Dispatch.status].
    split; [exact Ht|]. split; [tauto|]. split; [left; exact He|].
    intros H; lia. }
  destruct req as [message | b].
  { unfold Dispatch.failure. apply Hrejected; auto. }
  destruct (Dispatch.roomName b) as [| | | |name|]; cbv beta iota;
    [apply Hrejected; auto ..| |apply Hrejected; auto].
  destruct (String.eqb name EmptyString); cbv beta iota;
    [apply Hrejected; auto|].
  destruct (Dispatch.configured (Dispatch.LIVEKIT_API_KEY env)) as [k|];
    cbv beta iota; [|apply Hrejected; auto].
  destruct (Dispatch.configured (Dispatch.LIVEKIT_API_SECRET env)) as [s|];
    cbv beta iota; [|apply Hrejected; auto].
  destruct (Dispatch.configured (Dispatch.NEXT_PUBLIC_LIVEKIT_URL env))
    as [u|];
    cbv beta iota; [|apply Hrejected; auto].
  cbv zeta.
  destruct (svc (Dispatch.registry w) (Dispatch.effects w) name
              Dispatch.AGENT_NAME (Dispatch.metadata_of b))
    as [new_id | message | new_id message] eqn:E; simpl.
  - split; [reflexivity|]. split; [auto|]. split.
    + right. eexists _, _, _. reflexivity.
    + intros _. exists new_id, name, (Dispatch.metadata_of b).
      split; [reflexivity | exact E].
  - split; [reflexivity|]. split; [auto|]. split.
    + right. eexists _, _, _. reflexivity.
    + intros H; discriminate H.
  - split; [reflexivity|]. split; [auto|]. split.
    + right. eexists _, _, _. reflexivity.
    + intros H; discriminate H.
Qed.

(** X15 on a successful request. *)
Lemma X15_post_frame_witness :
  let svc : Dispatch.Service := fun _ _ _ _ _ => Dispatch.Created "AD_1" in
  let env :=
    Dispatch.mkEnv (Some "key") (Some "secret") (Some "wss://lk.example") in
  let req :=
    Dispatch.BodyParsed
      (Dispatch.mkBody (VString "room-1") VUndefined VUndefined) in
  let w := Dispatch.mkWorld [] [] (Tracker.new None) [] in
  exists new_id name metadata,
    Dispatch.field "dispatchId" (fst (Dispatch.POST svc env req w))
      = Some (VString new_id) /\
    svc (Dispatch.registry w) (Dispatch.effects w) name Dispatch.AGENT_NAME
      metadata = Dispatch.Created new_id.
Proof.
  intros svc env req w.
  destruct (X15_post_frame svc env req w) as [_ [_ [_ Hok]]].
  exact (Hok eq_refl).
Defined.

Lemma replace_first_absent (pattern replacement s : string) :
  Cache.includes pattern s = false ->
  Dispatch.replace_first pattern replacement s = s.
Proof.
  induction s as [|c s IH]; simpl.
  - destruct (Dispatch.strip_prefix pattern EmptyString);
      [discriminate | reflexivity].
  - destruct (Dispatch.strip_prefix pattern (String c s));
      [discriminate|].
    intros H. now rewrite IH.
Qed.

(** X16: the host handed to the LiveKit client is the WebSocket URL with
    its scheme mapped: wss://host becomes https://host and ws://host
    becomes http://host, and a URL with neither scheme is passed on as it
    is (for a host part in which "ws://" and "wss://" do not occur, since
    each replacement rewrites its first occurrence wherever it is). *)
Theorem X16_livekit_host_scheme :
  forall host : string,
    Accounting.never_occurs "ws://" host ->
    Accounting.never_occurs "wss://" host ->
    Dispatch.livekitHost (String.append "wss://" host)
      = String.append "https://" host /\
    Dispatch.livekitHost (String.append "ws://" host)
      = String.append "http://" host /\
    Dispatch.livekitHost host = host.
Proof.
  intros host Hws Hwss. unfold Accounting.never_occurs in *.
  unfold Dispatch.livekitHost. split; [|split].
  - simpl. now rewrite (replace_first_absent _ _ _ Hws).
  - simpl. rewrite (replace_first_absent _ _ _ Hwss). simpl. reflexivity.
  - now rewrite (replace_first_absent _ _ _ Hwss),
      (replace_first_absent _ _ _ Hws).
Qed.

(** X16 on a LiveKit Cloud host name. *)
Lemma X16_livekit_host_scheme_witness :
  Dispatch.livekitHost "wss://www.project.livekit.cloud"
    = "https://www.project.livekit.cloud".
Proof.
  exact (proj1 (X16_livekit_host_scheme "www.project.livekit.cloud"
                  eq_refl eq_refl)).
Defined.

(** * The limiter: accounting of dropped lines *)

Lemma level_eqb_eq (a b : Limiter.LogLevel) :
  Limiter.level_eqb a b = true <-> a = b.
Proof. destruct a, b; simpl; split; congruence. Qed.

Lemma plain_log_below_error (level : Limiter.LogLevel) (message : string)
  (args : list string) (now : Z) (s : Limiter.LogRateLimiter) :
  level <> Limiter.ERROR ->
  Limiter.shouldAggregate message = false ->
  Limiter.log level message args now s
  = let refilled := Limiter.refillTokens now s in
    if Number.ge (Limiter.tokens refilled) Number.one
    then (Limiter.with_tokens refilled
            (Number.sub (Limiter.tokens refilled) Number.one),
          [(Limiter.stream_of level, Limiter.Plain level message args)])
    else (Limiter.with_dropped refilled (Limiter.droppedCount refilled + 1)
            (JsMap.set Limiter.level_eqb level
               (match JsMap.get Limiter.level_eqb level
                        (Limiter.droppedByLevel refilled) with
                | Some n => n
                | None => 0
                end + 1)
               (Limiter.droppedByLevel refilled)),
          []).
Proof.
  intros Hlevel Hplain. unfold Limiter.log, Limiter.shouldLog.
  rewrite Hplain. cbv zeta.
  destruct level; try contradiction;
    destruct (Number.ge (Limiter.tokens (Limiter.refillTokens now s))
                Number.one);
    reflexivity.
Qed.

(** X17: a log call below ERROR level whose message is not noisy is
    decided by the bucket after the refill.  With at least one token it is
    printed on the stream of its level, one token is taken and no drop
    counter moves.  With less than one token nothing is printed, no token
    is taken, the global drop counter and the counter of that level go up
    by one, and the counters of the other levels stay. *)
Theorem X17_admit_or_drop_below_error :
  forall (level : Limiter.LogLevel) (message : string) (args : list string)
         (now : Z) (s : Limiter.LogRateLimiter),
    level <> Limiter.ERROR ->
    Limiter.shouldAggregate message = false ->
    let refilled := Limiter.refillTokens now s in
    let s' := fst (Limiter.log level message args now s) in
    let out := snd (Limiter.log level message args now s) in
    let dropped_at l st :=
      match JsMap.get Limiter.level_eqb l (Limiter.droppedByLevel st) with
      | Some n => n
      | None => 0
      end in
    (Number.ge (Limiter.tokens refilled) Number.one = true ->
     out = [(Limiter.stream_of level, Limiter.Plain level message args)] /\
     Limiter.tokens s' = Number.sub (Limiter.tokens refilled) Number.one /\
     Limiter.droppedCount s' = Limiter.droppedCount s /\
     Limiter.droppedByLevel s' = Limiter.droppedByLevel s) /\
    (Number.ge (Limiter.tokens refilled) Number.one = false ->
     out = [] /\
     Limiter.tokens s' = Limiter.tokens refilled /\
     Limiter.droppedCount s' = Limiter.droppedCount s + 1 /\
     dropped_at level s' = dropped_at level s + 1 /\
     forall other,
       other <> level -> dropped_at other s' = dropped_at other s).
Proof.
  intros level message args now s Hlevel Hplain. cbv zeta.
  rewrite (plain_log_below_error level message args now s Hlevel Hplain).
  cbv zeta.
  destruct (Number.ge (Limiter.tokens (Limiter.refillTokens now s))
              Number.one) eqn:E.
  - split.
    + intros _. repeat split.
    + intros H. discriminate H.
  - split.
    + intros H. discriminate H.
    + intros _. cbn [fst snd Limiter.with_dropped Limiter.tokens
                     Limiter.droppedCount Limiter.droppedByLevel
                     Limiter.refillTokens].
      split; [reflexivity|]. split; [reflexivity|]. split; [reflexivity|].
      split.
      * now rewrite (get_set_same Limiter.level_eqb level_eqb_eq).
      * intros other Hother.
        now rewrite (get_set_other Limiter.level_eqb level_eqb_eq).
Qed.

(** X17 on a drained bucket: a WARN line at the instant of the last
    refill is dropped and counted. *)
Lemma X17_admit_or_drop_below_error_witness :
  let s := Limiter.with_tokens (Limiter.new None 1000) (Number.Zero false) in
  snd (Limiter.log Limiter.WARN "slow response" [] 1000 s) = [] /\
  Limiter.droppedCount (fst (Limiter.log Limiter.WARN "slow response" []
                               1000 s)) = 1.
Proof.
  intros s.
  assert (Hlevel : Limiter.WARN <> Limiter.ERROR) by discriminate.
  destruct (X17_admit_or_drop_below_error Limiter.WARN "slow response" []
              1000 s Hlevel eq_refl) as [_ Hdrop].
  cbv zeta in Hdrop.
  assert (Hlow :
    Number.ge (Limiter.tokens (Limiter.refillTokens 1000 s)) Number.one
      = false).
  { vm_compute. reflexivity. }
  destruct (Hdrop Hlow) as [Hout [_ [Hcount _]]].
  split; [exact Hout | exact Hcount].
Defined.

Lemma reset_counters_ok (s : Limiter.LogRateLimiter) :
  Accounting.counters_ok s ->
  Limiter.droppedByLevel (Limiter.resetDroppedCount s)
    = Limiter.initial_dropped /\
  Limiter.droppedCount (Limiter.resetDroppedCount s) = 0.
Proof.
  intros [w [i [d [Hshape _]]]]. unfold Limiter.resetDroppedCount.
  simpl. rewrite Hshape. split; reflexivity.
Qed.

Lemma initial_counters_ok (s : Limiter.LogRateLimiter) :
  Limiter.droppedByLevel s = Limiter.initial_dropped ->
  Limiter.droppedCount s = 0 ->
  Accounting.counters_ok s.
Proof.
  intros Hshape Hcount. exists 0, 0, 0. rewrite Hshape, Hcount.
  repeat split; reflexivity || lia.
Qed.

Lemma step_keeps_counters (c : Limiter.Call) (s : Limiter.LogRateLimiter) :
  Accounting.counters_ok s ->
  Accounting.counters_ok (fst (Limiter.step c s)).
Proof.
  intros Hok. destruct c as [level message args now | now | ]; simpl.
  - unfold Limiter.log.
    destruct (Limiter.shouldAggregate message) eqn:Hnoisy.
    + simpl. unfold Limiter.aggregateMessage.
      destruct (JsMap.get _ _ _); exact Hok.
    + destruct Hok as [w [i [d [Hshape [Hw [Hi [Hd Hsum]]]]]]].
      unfold Limiter.shouldLog.
      destruct level;
        destruct (Number.ge (Limiter.tokens (Limiter.refillTokens now s))
                    Number.one);
        simpl;
        try (exists w, i, d; repeat split; assumption);
        rewrite Hshape; simpl.
      * exists (w + 1), i, d. repeat split; simpl; lia.
      * exists w, (i + 1), d. repeat split; simpl; lia.
      * exists w, i, (d + 1). repeat split; simpl; lia.
  - unfold Limiter.reportTick.
    assert (Hflush :
      Accounting.counters_ok (fst (Limiter.flushAggregatedMessages now s))).
    { unfold Limiter.flushAggregatedMessages.
      destruct (_ <? _); exact Hok. }
    destruct (Limiter.flushAggregatedMessages now s) as [s1 flushed].
    simpl in Hflush.
    destruct (_ <=? _); [|exact Hflush].
    destruct (0 <? Limiter.droppedCount s1); simpl.
    + destruct (reset_counters_ok s1 Hflush) as [Hshape Hcount].
      apply initial_counters_ok; assumption.
    + exact Hflush.
  - destruct (reset_counters_ok s Hok) as [Hshape Hcount].
    apply initial_counters_ok; assumption.
Qed.

(** X18: in every state a limiter reaches from construction, by log calls
    at any level and at any clock readings, periodic ticks and resets,
    the drop counters are consistent: the per-level table has exactly the
    four levels, no counter is negative, ERROR has never counted a drop,
    and the global counter equals the sum of the per-level ones. *)
Theorem X18_drop_counters_consistent :
  forall (maxLogsPerSecond : option Number.number) (start : Z)
         (calls : list Limiter.Call),
    Accounting.counters_ok
      (fst (Limiter.run calls (Limiter.new maxLogsPerSecond start))).
Proof.
  intros rate start calls.
  assert (Hgen : forall cs s,
    Accounting.counters_ok s ->
    Accounting.counters_ok (fst (Limiter.run cs s))).
  { induction cs as [|c cs IH]; intros s Hok; simpl; [exact Hok|].
    pose proof (step_keeps_counters c s Hok) as Hstep.
    destruct (Limiter.step c s) as [s1 o1]. simpl in Hstep.
    specialize (IH s1 Hstep).
    destruct (Limiter.run cs s1) as [s2 o2]. exact IH. }
  apply Hgen. apply initial_counters_ok; reflexivity.
Qed.

(** * The limiter: a burst within one instant *)

(** At the instant of the last refill, a whole token count below the
    whole bucket size is left as it is. *)
Lemma refill_same_instant (now rate k : Z) (s : Limiter.LogRateLimiter) :
  Limiter.lastRefillTime s = now ->
  0 <= k <= rate -> rate < 2 ^ 53 ->
  Limiter.maxLogsPerSecond s = Number.of_int rate ->
  Limiter.bucketSize s = Number.of_int rate ->
  Limiter.tokens s = Number.of_int k ->
  Limiter.tokens (Limiter.refillTokens now s) = Number.of_int k.
Proof.
  intros Hlast Hk Hrate Hr Hb Ht.
  cbn [Limiter.tokens Limiter.refillTokens].
  rewrite Hlast, Z.sub_diag, Hr, Hb, Ht, thousand_is_exact.
  rewrite (of_int_exact rate), (of_int_exact k) by lia.
  change (Number.of_int 0) with (Number.Zero false).
  assert (D : Number.div (Number.Zero false) (Number.Finite 1000)
              = Number.Zero false) by reflexivity.
  destruct (Z.eqb_spec rate 0) as [R0|R0];
    destruct (Z.eqb_spec k 0) as [K0|K0]; try lia; try reflexivity;
    rewrite D;
    assert (M : Number.mul (Number.Zero false)
                  (Number.Finite (inject_Z rate)) = Number.Zero false)
      by (unfold Number.mul; rewrite negative_of_nonneg;
          [reflexivity
          |change 0%Q with (inject_Z 0); rewrite <- Zle_Qle; lia]);
    rewrite M.
  - change (Number.add (Number.Zero false) (Number.Zero false))
      with (Number.Zero false).
    unfold Number.min. cbn [Number.le].
    destruct (Qle_bool (inject_Z rate) 0) eqn:E; [|reflexivity].
    apply Qle_bool_iff in E. change 0%Q with (inject_Z 0) in E.
    rewrite <- Zle_Qle in E. lia.
  - change (Number.add (Number.Finite (inject_Z k)) (Number.Zero false))
      with (Number.Finite (inject_Z k)).
    unfold Number.min. cbn [Number.le].
    destruct (Qle_bool (inject_Z rate) (inject_Z k)) eqn:E; [|reflexivity].
    apply Qle_bool_iff in E. rewrite <- Zle_Qle in E.
    assert (rate = k) by lia. now subst.
Qed.

Lemma whole_token_test (k : Z) :
  0 <= k < 2 ^ 53 -> Number.ge (Number.of_int k) Number.one = (1 <=? k).
Proof.
  intros Hk. rewrite (of_int_exact k) by lia.
  destruct (Z.eqb_spec k 0) as [K0|K0]; [subst; reflexivity|].
  unfold Number.ge, Number.one, Number.le.
  change 1%Q with (inject_Z 1).
  destruct (1 <=? k) eqn:E.
  - apply Qle_bool_iff. rewrite <- Zle_Qle. apply Z.leb_le. exact E.
  - apply Z.leb_gt in E. lia.
Qed.

Lemma whole_token_taken (k : Z) :
  1 <= k < 2 ^ 53 ->
  Number.sub (Number.of_int k) Number.one = Number.of_int (k - 1).
Proof.
  intros Hk. rewrite (of_int_exact k) by lia.
  destruct (Z.eqb_spec k 0) as [K0|K0]; [lia|].
  unfold Number.sub, Number.one, Number.opp, Number.add, Number.of_int.
  apply round_comp. rewrite Qred_correct.
  unfold Zminus. rewrite inject_Z_plus. reflexivity.
Qed.

Lemma burst_from (now rate : Z) (cs : list Limiter.Call) :
  Forall (Accounting.plain_at now) cs ->
  rate < 2 ^ 53 ->
  forall (s : Limiter.LogRateLimiter) (k : Z),
    Limiter.lastRefillTime s = now ->
    0 <= k <= rate ->
    Limiter.maxLogsPerSecond s = Number.of_int rate ->
    Limiter.bucketSize s = Number.of_int rate ->
    Limiter.tokens s = Number.of_int k ->
    snd (Limiter.run cs s)
      = flat_map Limiter.line_of (firstn (Z.to_nat k) cs) /\
    Limiter.droppedCount (fst (Limiter.run cs s))
      = Limiter.droppedCount s
        + Z.of_nat (List.length (skipn (Z.to_nat k) cs)).
Proof.
  intros Hall Hrate.
  induction Hall as [|c cs Hc Hcs IH]; intros s k Hlast Hk Hr Hb Htok.
  - simpl. rewrite firstn_nil, skipn_nil. simpl. split; [reflexivity | lia].
  - destruct c as [level message args t | t | ]; simpl in Hc; try tauto.
    destruct Hc as [Hlevel [Hplain Ht]]. subst t.
    pose proof (refill_same_instant now rate k s Hlast Hk Hrate Hr Hb Htok)
      as Hrefill.
    simpl Limiter.run. cbn [Limiter.step].
    rewrite (plain_log_below_error level message args now s Hlevel Hplain).
    cbv zeta. rewrite Hrefill, (whole_token_test k) by lia.
    destruct (1 <=? k) eqn:E.
    + apply Z.leb_le in E.
      rewrite (whole_token_taken k) by lia.
      set (s1 := Limiter.with_tokens _ _).
      destruct (IH s1 (k - 1) eq_refl ltac:(lia) Hr Hb eq_refl)
        as [Hout Hdrop].
      destruct (Limiter.run cs s1) as [s2 o2]. cbn [fst snd] in *.
      replace (Z.to_nat k) with (S (Z.to_nat (k - 1))) by lia.
      simpl. rewrite Hout, Hdrop. split; reflexivity.
    + apply Z.leb_gt in E. assert (k = 0) by lia. subst k.
      set (s1 := Limiter.with_dropped _ _ _).
      destruct (IH s1 0 eq_refl ltac:(lia) Hr Hb Hrefill) as [Hout Hdrop].
      destruct (Limiter.run cs s1) as [s2 o2]. cbn [fst snd] in *.
      simpl in Hout, Hdrop |- *. rewrite Hout, Hdrop.
      split; [reflexivity|]. lia.
Qed.

Lemma plain_lines_length (now : Z) (cs : list Limiter.Call) :
  Forall (Accounting.plain_at now) cs ->
  List.length (flat_map Limiter.line_of cs) = List.length cs.
Proof.
  induction 1 as [|c cs Hc Hcs IH]; simpl; [reflexivity|].
  destruct c; simpl in Hc; try tauto. simpl. now rewrite IH.
Qed.

(** Above 2^53 a token count need not change when a token is taken:
    2^54 - 1 rounds back to 2^54. *)
Example large_bucket_never_drains :
  Number.sub (Number.of_int (2 ^ 54)) Number.one = Number.of_int (2 ^ 54).
Proof. vm_compute. reflexivity. Qed.

(** X19: a burst against a full bucket.  For a whole rate r that is not
    negative and below 2^53 (so that every token count of the burst is a
    binary64 number), of n log calls below ERROR level with messages that
    are not noisy, all made at the very clock reading of the
    construction, exactly the first min(n, r) are printed, in order, and
    the other n - r are dropped and counted. *)
Theorem X19_burst_admits_rate_many :
  forall (rate start : Z) (calls : list Limiter.Call),
    0 <= rate < 2 ^ 53 ->
    Forall (Accounting.plain_at start) calls ->
    let s := Limiter.new (Some (Number.of_int rate)) start in
    let out := snd (Limiter.run calls s) in
    out = flat_map Limiter.line_of (firstn (Z.to_nat rate) calls) /\
    Z.of_nat (List.length out)
      = Z.min rate (Z.of_nat (List.length calls)) /\
    Limiter.droppedCount (fst (Limiter.run calls s))
      = Z.max 0 (Z.of_nat (List.length calls) - rate).
Proof.
  intros rate start calls Hrate Hall. cbv zeta.
  destruct (burst_from start rate calls Hall (proj2 Hrate)
              (Limiter.new (Some (Number.of_int rate)) start) rate
              eq_refl ltac:(lia) eq_refl eq_refl eq_refl)
    as [Hout Hdrop].
  split; [exact Hout|]. split.
  - rewrite Hout, (plain_lines_length start).
    + rewrite length_firstn. lia.
    + clear Hout Hdrop. revert calls Hall.
      induction (Z.to_nat rate) as [|n IHn]; intros calls Hall;
        [constructor|].
      destruct Hall as [|c cs Hc Hcs]; [constructor|].
      simpl. constructor; [exact Hc | now apply IHn].
  - rewrite Hdrop. simpl Limiter.droppedCount.
    rewrite length_skipn. lia.
Qed.

(** X19 at rate 2 with five INFO lines. *)
Lemma X19_burst_admits_rate_many_witness :
  let calls :=
    [Limiter.CLog Limiter.INFO "a" [] 10; Limiter.CLog Limiter.INFO "b" [] 10;
     Limiter.CLog Limiter.WARN "c" [] 10; Limiter.CLog Limiter.DEBUG "d" [] 10;
     Limiter.CLog Limiter.INFO "e" [] 10] in
  snd (Limiter.run calls (Limiter.new (Some (Number.of_int 2)) 10))
    = [(StdInfo, Limiter.Plain Limiter.INFO "a" []);
       (StdInfo, Limiter.Plain Limiter.INFO "b" [])] /\
  Limiter.droppedCount
    (fst (Limiter.run calls (Limiter.new (Some (Number.of_int 2)) 10))) = 3.
Proof.
  intros calls.
  assert (Hall : Forall (Accounting.plain_at 10) calls).
  { repeat (constructor;
            [split; [discriminate | split; reflexivity]|]).
    constructor. }
  assert (Hrate : 0 <= 2 < 2 ^ 53) by (split; [lia | reflexivity]).
  destruct (X19_burst_admits_rate_many 2 10 calls Hrate Hall)
    as [Hout [_ Hdrop]].
  split; [exact Hout | exact Hdrop].
Defined.

(** * The limiter: the periodic report *)

Lemma flush_frame (now : Z) (s : Limiter.LogRateLimiter) :
  let s1 := fst (Limiter.flushAggregatedMessages now s) in
  Limiter.droppedCount s1 = Limiter.droppedCount s /\
  Limiter.droppedByLevel s1 = Limiter.droppedByLevel s /\
  Limiter.lastDroppedReportTime s1 = Limiter.lastDroppedReportTime s /\
  Limiter.tokens s1 = Limiter.tokens s /\
  Limiter.lastRefillTime s1 = Limiter.lastRefillTime s.
Proof.
  cbv zeta. unfold Limiter.flushAggregatedMessages.
  destruct (_ <? _); simpl; repeat split.
Qed.

Lemma breakdown_sum (w i d : Z) :
  0 <= w -> 0 <= i -> 0 <= d ->
  let breakdown :=
    filter (fun entry : Limiter.LogLevel * Z => 0 <? snd entry)
      [(Limiter.ERROR, 0); (Limiter.WARN, w); (Limiter.INFO, i);
       (Limiter.DEBUG, d)] in
  Accounting.per_level_sum breakdown = w + i + d /\
  forall entry,
    In entry breakdown -> fst entry <> Limiter.ERROR /\ 0 < snd entry.
Proof.
  intros Hw Hi Hd. cbv zeta. simpl.
  destruct (0 <? w) eqn:Ew; destruct (0 <? i) eqn:Ei;
    destruct (0 <? d) eqn:Ed; simpl;
    rewrite ?Z.ltb_lt, ?Z.ltb_ge in *;
    (split; [lia|]);
    intros entry Hin; simpl in Hin;
    repeat match goal with
           | H : _ \/ _ |- _ => destruct H
           | H : False |- _ => contradiction
           end; subst entry; simpl; (split; [discriminate | lia]).
Qed.

(** X20: the periodic tick leaves the bucket alone.  When the report
    interval has elapsed and lines were dropped, it prints, after the
    aggregation summaries, one warning with the number of dropped lines
    and a per-level breakdown that lists only levels with drops, never
    ERROR, and adds up to that number; then all counters are zero and the
    report time is the current time.  When it has elapsed and nothing was
    dropped it prints no report and moves the report time.  When it has
    not elapsed it neither reports nor resets. *)
Theorem X20_periodic_drop_report :
  forall (now : Z) (s : Limiter.LogRateLimiter),
    Accounting.counters_ok s ->
    let flushed := snd (Limiter.flushAggregatedMessages now s) in
    let s' := fst (Limiter.reportTick now s) in
    let out := snd (Limiter.reportTick now s) in
    let due :=
      Limiter.droppedReportIntervalMs
        <= now - Limiter.lastDroppedReportTime s in
    Limiter.tokens s' = Limiter.tokens s /\
    Limiter.lastRefillTime s' = Limiter.lastRefillTime s /\
    (due -> 0 < Limiter.droppedCount s ->
     let breakdown :=
       filter (fun entry => 0 <? snd entry) (Limiter.droppedByLevel s) in
     out = flushed
           ++ [(StdWarn,
                Limiter.DroppedReport (Limiter.droppedCount s) 60 breakdown)]
     /\
     Accounting.per_level_sum breakdown = Limiter.droppedCount s /\
     (forall entry,
        In entry breakdown ->
        fst entry <> Limiter.ERROR /\ 0 < snd entry) /\
     Limiter.droppedCount s' = 0 /\
     Limiter.droppedByLevel s' = Limiter.initial_dropped /\
     Limiter.lastDroppedReportTime s' = now) /\
    (due -> Limiter.droppedCount s = 0 ->
     out = flushed /\
     Limiter.droppedByLevel s' = Limiter.droppedByLevel s /\
     Limiter.lastDroppedReportTime s' = now) /\
    (~ due ->
     out = flushed /\
     Limiter.droppedCount s' = Limiter.droppedCount s /\
     Limiter.droppedByLevel s' = Limiter.droppedByLevel s /\
     Limiter.lastDroppedReportTime s' = Limiter.lastDroppedReportTime s).
Proof.
  intros now s Hok. cbv zeta.
  pose proof (flush_frame now s) as Hf. cbv zeta in Hf.
  destruct Hf as [Hc [Hbl [Hrt [Htok Hlast]]]].
  unfold Limiter.reportTick.
  destruct (Limiter.flushAggregatedMessages now s) as [s1 flushed].
  cbn [fst snd] in *. rewrite Hrt.
  destruct (Limiter.droppedReportIntervalMs
            <=? now - Limiter.lastDroppedReportTime s) eqn:Edue.
  - apply Z.leb_le in Edue. rewrite Hc.
    destruct (0 <? Limiter.droppedCount s) eqn:Epos.
    + apply Z.ltb_lt in Epos. cbn [fst snd].
      assert (Hok1 : Accounting.counters_ok s1).
      { destruct Hok as [w [i [d H]]]. exists w, i, d.
        now rewrite Hbl, Hc. }
      destruct (reset_counters_ok s1 Hok1) as [Hshape Hzero].
      split; [simpl; exact Htok|]. split; [simpl; exact Hlast|].
      split; [|split; [intros _ H; lia | intros H; contradiction]].
      intros _ _. rewrite Hbl.
      destruct Hok as [w [i [d [Hs [Hw [Hi [Hd Hsum]]]]]]].
      destruct (breakdown_sum w i d Hw Hi Hd) as [Hbsum Hbpos].
      cbv zeta in Hbsum, Hbpos. rewrite Hs.
      split; [reflexivity|]. split; [lia|]. split; [exact Hbpos|].
      split; [exact Hzero|]. split; [exact Hshape | reflexivity].
    + apply Z.ltb_ge in Epos. cbn [fst snd].
      split; [simpl; exact Htok|]. split; [simpl; exact Hlast|].
      split; [intros _ H; lia|].
      split; [|intros H; contradiction].
      intros _ _. split; [reflexivity|]. split; [exact Hbl | reflexivity].
  - apply Z.leb_gt in Edue. cbn [fst snd].
    split; [exact Htok|]. split; [exact Hlast|].
    split; [intros H; lia|]. split; [intros H; lia|].
    intros _. repeat split; assumption.
Qed.

(** X20 after two dropped lines, a minute on. *)
Lemma X20_periodic_drop_report_witness :
  let s :=
    fst (Limiter.run
           [Limiter.CLog Limiter.INFO "a" [] 1000;
            Limiter.CLog Limiter.DEBUG "b" [] 1000]
           (Limiter.with_tokens (Limiter.new None 1000)
              (Number.Zero false))) in
  snd (Limiter.reportTick 61000 s)
    = [(StdWarn,
        Limiter.DroppedReport 2 60 [(Limiter.INFO, 1); (Limiter.DEBUG, 1)])]
  /\
  Limiter.droppedCount (fst (Limiter.reportTick 61000 s)) = 0.
Proof.
  intros s.
  assert (Hok : Accounting.counters_ok s).
  { exists 0, 1, 1. repeat split; reflexivity || lia. }
  destruct (X20_periodic_drop_report 61000 s Hok) as [_ [_ [Hdue _]]].
  cbv zeta in Hdue.
  assert (H1 : Limiter.droppedReportIntervalMs
               <= 61000 - Limiter.lastDroppedReportTime s)
    by (vm_compute; discriminate).
  assert (H2 : 0 < Limiter.droppedCount s) by reflexivity.
  destruct (Hdue H1 H2) as [Hout [_ [_ [Hzero _]]]].
  split; [exact Hout | exact Hzero].
Defined.

(** * The limiter: what the aggregation table counts *)

Lemma log_counts_under_key (key : string) (level : Limiter.LogLevel)
  (message : string) (args : list string) (now : Z)
  (s : Limiter.LogRateLimiter) :
  Limiter.key_count key (fst (Limiter.log level message args now s))
  = Limiter.key_count key s
    + (if Limiter.shouldAggregate message
          && String.eqb (Limiter.getAggregationKey message) key
       then 1 else 0).
Proof.
  destruct (Limiter.shouldAggregate message) eqn:Hnoisy.
  - rewrite (noisy_log level message args now s Hnoisy). cbn [fst andb].
    unfold Limiter.aggregateMessage, Limiter.key_count.
    destruct (String.eqb (Limiter.getAggregationKey message) key) eqn:E.
    + apply String.eqb_eq in E. subst key.
      destruct (JsMap.get String.eqb _ (Limiter.messageAggregation s));
        cbn [Limiter.messageAggregation Limiter.with_aggregation];
        rewrite (get_set_same String.eqb String.eqb_eq); reflexivity.
    + apply String.eqb_neq in E.
      destruct (JsMap.get String.eqb (Limiter.getAggregationKey message)
                  (Limiter.messageAggregation s));
        cbn [Limiter.messageAggregation Limiter.with_aggregation];
        rewrite (get_set_other String.eqb String.eqb_eq) by congruence;
        lia.
  - cbn [andb]. unfold Limiter.log. rewrite Hnoisy.
    pose proof (shouldLog_frame level now s) as [_ [_ [_ [Hagg _]]]].
    cbv zeta in Hagg.
    destruct (Limiter.shouldLog level now s) as [allowed s'].
    cbn [fst snd] in *. unfold Limiter.key_count.
    destruct allowed; cbn [fst]; rewrite Hagg; lia.
Qed.

Lemma log_prints_plain_only (level : Limiter.LogLevel) (message : string)
  (args : list string) (now : Z) (s : Limiter.LogRateLimiter)
  (line : Stream * Limiter.Line) :
  In line (snd (Limiter.log level message args now s)) ->
  line = (Limiter.stream_of level, Limiter.Plain level message args) /\
  Limiter.shouldAggregate message = false.
Proof.
  unfold Limiter.log.
  destruct (Limiter.shouldAggregate message); [intros []|].
  destruct (Limiter.shouldLog level now s) as [[|] s']; simpl;
    [|intros []].
  intros [H | []]. split; [now symmetry | reflexivity].
Qed.

(** X21: over any sequence of log calls, of any messages and levels, the
    counter kept under a key grows by exactly the number of calls whose
    message is noisy and normalises to that key; and none of those calls
    prints a line for a noisy message: every line printed is the plain
    line of a call whose message matches no pattern. *)
Theorem X21_table_counts_noisy_calls :
  forall (key : string) (calls : list Limiter.Call)
         (s : Limiter.LogRateLimiter),
    Forall Accounting.is_log calls ->
    Limiter.key_count key (fst (Limiter.run calls s))
      = Limiter.key_count key s + Accounting.noisy_under key calls /\
    forall line,
      In line (snd (Limiter.run calls s)) ->
      exists level message args,
        line = (Limiter.stream_of level, Limiter.Plain level message args) /\
        Limiter.shouldAggregate message = false.
Proof.
  intros key calls. induction calls as [|c cs IH]; intros s Hall.
  - simpl. split; [lia | intros line []].
  - inversion Hall as [|c' cs' Hc Hcs]; subst.
    destruct c as [level message args now | now | ]; simpl in Hc;
      try contradiction.
    pose proof (log_counts_under_key key level message args now s) as Hone.
    pose proof (log_prints_plain_only level message args now s) as Hline.
    simpl Limiter.run. cbn [Limiter.step].
    destruct (Limiter.log level message args now s) as [s1 o1].
    cbn [fst snd] in Hone, Hline.
    destruct (IH s1 Hcs) as [Hcount Hlines].
    destruct (Limiter.run cs s1) as [s2 o2]. cbn [fst snd] in *.
    split.
    + rewrite Hcount, Hone. simpl Accounting.noisy_under. lia.
    + intros line Hin. apply in_app_or in Hin. destruct Hin as [Hin | Hin].
      * exists level, message, args. now apply Hline.
      * now apply Hlines.
Qed.

(** X21 on a mixed sequence. *)
Lemma X21_table_counts_noisy_calls_witness :
  Limiter.key_count "health check N"
    (fst (Limiter.run
            [Limiter.CLog Limiter.INFO "health check 1" [] 10;
             Limiter.CLog Limiter.INFO "query done" [] 11;
             Limiter.CLog Limiter.ERROR "health check 22" [] 12]
            (Limiter.new None 0)))
  = 2.
Proof.
  refine (proj1 (X21_table_counts_noisy_calls "health check N" _
                   (Limiter.new None 0) _)).
  repeat constructor.
Defined.

Lemma digits_then_rest (in_run : bool) (digits rest : string) :
  Accounting.number digits = true ->
  Limiter.replace_digit_runs in_run (String.append digits rest)
  = String.append (if in_run then EmptyString else "N")
      (Limiter.replace_digit_runs true rest).
Proof.
  revert in_run. induction digits as [|c ds IH]; intros in_run Hnum;
    [discriminate|].
  simpl in Hnum. destruct ds as [|c' ds'].
  - simpl. rewrite Hnum. destruct in_run; reflexivity.
  - apply andb_true_iff in Hnum. destruct Hnum as [Hc Hrest].
    change (String.append (String c (String c' ds')) rest)
      with (String c (String.append (String c' ds') rest)).
    cbn [Limiter.replace_digit_runs]. rewrite Hc.
    destruct in_run; rewrite (IH true Hrest); reflexivity.
Qed.

(** X22: two messages that differ only in one number get the same
    aggregation key, however many digits each number has; so lines such
    as "health check 7" and "health check 1204" are counted together. *)
Theorem X22_key_ignores_numbers :
  forall (before after n1 n2 : string),
    Accounting.number n1 = true ->
    Accounting.number n2 = true ->
    Limiter.getAggregationKey
      (String.append before (String.append n1 after))
    = Limiter.getAggregationKey
        (String.append before (String.append n2 after)).
Proof.
  intros before after n1 n2 H1 H2. unfold Limiter.getAggregationKey.
  do 2 f_equal.
  generalize false as in_run.
  induction before as [|c before IH]; intros in_run.
  - simpl. now rewrite !digits_then_rest.
  - simpl. destruct (Limiter.is_digit c); [destruct in_run|];
      now rewrite IH.
Qed.

(** X22 on two health-check lines. *)
Lemma X22_key_ignores_numbers_witness :
  Limiter.getAggregationKey "health check 7 ok"
  = Limiter.getAggregationKey "health check 1204 ok".
Proof.
  exact (X22_key_ignores_numbers "health check " " ok" "7" "1204"
           eq_refl eq_refl).
Defined.

(** * The limiter: where and how the patterns match *)

Lemma strip_prefix_ci_suffix (p s rest extra : string) :
  Limiter.strip_prefix_ci p s = Some rest ->
  Limiter.strip_prefix_ci p (String.append s extra)
    = Some (String.append rest extra).
Proof.
  revert s. induction p as [|a p IH]; intros s; simpl.
  - intros H. inversion H. reflexivity.
  - destruct s as [|b s]; [discriminate|]. simpl.
    destruct (Ascii.eqb (Limiter.fold_case a) (Limiter.fold_case b));
      [apply IH | discriminate].
Qed.

Lemma match_here_suffix (r : Limiter.Re) (extra : string) :
  forall s rest,
    In rest (Limiter.match_here r s) ->
    In (String.append rest extra)
      (Limiter.match_here r (String.append s extra)).
Proof.
  induction r as [l | a IHa b IHb | a IHa b IHb]; intros s rest; simpl.
  - destruct (Limiter.strip_prefix_ci l s) as [rest'|] eqn:E; [|intros []].
    intros [H | []]. subst rest'.
    rewrite (strip_prefix_ci_suffix _ _ _ extra E). now left.
  - intros H. apply in_flat_map in H. destruct H as [mid [Hmid Hrest]].
    apply in_flat_map. exists (String.append mid extra). split; auto.
  - intros H. apply in_app_or in H. apply in_or_app.
    destruct H; [left | right]; auto.
Qed.

Lemma test_suffix (r : Limiter.Re) (s extra : string) :
  Limiter.test r s = true ->
  Limiter.test r (String.append s extra) = true.
Proof.
  assert (Hhere : forall s0,
    Limiter.matches_here r s0 = true ->
    Limiter.matches_here r (String.append s0 extra) = true).
  { intros s0. unfold Limiter.matches_here.
    destruct (Limiter.match_here r s0) as [|rest l] eqn:E; [discriminate|].
    intros _.
    pose proof (match_here_suffix r extra s0 rest) as H.
    rewrite E in H. specialize (H (or_introl eq_refl)).
    destruct (Limiter.match_here r (String.append s0 extra));
      [contradiction | reflexivity]. }
  induction s as [|c s IH].
  - simpl. rewrite orb_false_r. intros H.
    specialize (Hhere EmptyString H). simpl in Hhere.
    destruct extra; simpl; rewrite Hhere; reflexivity.
  - cbn [Limiter.test String.append]. intros H.
    apply orb_true_iff in H. apply orb_true_iff.
    destruct H as [H | H]; [left | right; auto].
    exact (Hhere (String c s) H).
Qed.

Lemma test_prefix (r : Limiter.Re) (extra s : string) :
  Limiter.test r s = true ->
  Limiter.test r (String.append extra s) = true.
Proof.
  intros H. induction extra as [|c extra IH]; [exact H|].
  cbn [String.append Limiter.test]. rewrite IH. apply orb_true_r.
Qed.

Lemma fold_case_idempotent (c : ascii) :
  Limiter.fold_case (Limiter.fold_case c) = Limiter.fold_case c.
Proof.
  destruct c as [[] [] [] [] [] [] [] []]; reflexivity.
Qed.

Lemma strip_prefix_ci_lower (p s : string) :
  Limiter.strip_prefix_ci p (Accounting.lower s)
  = option_map Accounting.lower (Limiter.strip_prefix_ci p s).
Proof.
  revert s. induction p as [|a p IH]; intros s; simpl; [reflexivity|].
  destruct s as [|b s]; simpl; [reflexivity|].
  rewrite fold_case_idempotent.
  destruct (Ascii.eqb (Limiter.fold_case a) (Limiter.fold_case b));
    [apply IH | reflexivity].
Qed.

Lemma match_here_lower (r : Limiter.Re) :
  forall s,
    Limiter.match_here r (Accounting.lower s)
    = map Accounting.lower (Limiter.match_here r s).
Proof.
  induction r as [l | a IHa b IHb | a IHa b IHb]; intros s; simpl.
  - rewrite strip_prefix_ci_lower.
    destruct (Limiter.strip_prefix_ci l s); reflexivity.
  - rewrite IHa. induction (Limiter.match_here a s) as [|m ms IHm];
      simpl; [reflexivity|].
    now rewrite IHb, IHm, map_app.
  - now rewrite IHa, IHb, map_app.
Qed.

Lemma test_lower (r : Limiter.Re) (s : string) :
  Limiter.test r (Accounting.lower s) = Limiter.test r s.
Proof.
  assert (Hhere : forall s0,
    Limiter.matches_here r (Accounting.lower s0)
    = Limiter.matches_here r s0).
  { intros s0. unfold Limiter.matches_here. rewrite match_here_lower.
    destruct (Limiter.match_here r s0); reflexivity. }
  induction s as [|c s IH].
  - reflexivity.
  - cbn [Accounting.lower Limiter.test].
    change (String (Limiter.fold_case c) (Accounting.lower s))
      with (Accounting.lower (String c s)).
    now rewrite Hhere, IH.
Qed.

(** X23: the noisy patterns match anywhere and in any letter case: a
    message that contains a noisy message is noisy, whatever comes before
    and after it, and a message is classified exactly as its lower-cased
    form. *)
Theorem X23_patterns_match_anywhere :
  forall (before message after : string),
    (Limiter.shouldAggregate message = true ->
     Limiter.shouldAggregate
       (String.append before (String.append message after)) = true) /\
    Limiter.shouldAggregate (Accounting.lower message)
      = Limiter.shouldAggregate message.
Proof.
  intros before message after. unfold Limiter.shouldAggregate. split.
  - intros H. apply existsb_exists in H. destruct H as [r [Hr Ht]].
    apply existsb_exists. exists r. split; [exact Hr|].
    apply test_prefix, test_suffix. exact Ht.
  - induction Limiter.aggregationPatterns as [|r rs IH]; simpl;
      [reflexivity|].
    now rewrite test_lower, IH.
Qed.

(** X23 on a line with a timestamp prefix and capitals. *)
Lemma X23_patterns_match_anywhere_witness :
  Limiter.shouldAggregate
    (String.append "[worker 3] "
       (String.append "Participant Connected" ": alice"))
  = true.
Proof.
  exact (proj1 (X23_patterns_match_anywhere "[worker 3] "
                  "Participant Connected" ": alice") eq_refl).
Defined.

(** * The API cache *)

Lemma cache_get_fresh_entry {D : Type} (key : string) (value : D)
  (ttl : option Z) (now : Z) (c : Cache.SimpleCache) :
  JsMap.get String.eqb key (Cache.set key value ttl now c)
  = Some (Cache.mkEntry value now
            (match ttl with Some t => t | None => 5000 end)).
Proof.
  unfold Cache.set. apply (get_set_same String.eqb String.eqb_eq).
Qed.

(** X24: a value stored with [set] is returned by [get] under the same
    key for as long as the clock has not advanced by more than the TTL
    (5000 ms when none is given), and such a read leaves the cache as it
    is; storing under a key that is already present replaces the old
    value, and other keys are not affected by the [set]. *)
Theorem X24_cache_set_then_get :
  forall (D : Type) (key : string) (value : D) (ttl : option Z)
         (now later : Z) (c : @Cache.SimpleCache D),
    later - now <= match ttl with Some t => t | None => 5000 end ->
    Cache.get key later (Cache.set key value ttl now c)
      = (Some value, Cache.set key value ttl now c) /\
    forall other time,
      other <> key ->
      fst (Cache.get other time (Cache.set key value ttl now c))
        = fst (Cache.get other time c).
Proof.
  intros D key value ttl now later c Hfresh. split.
  - unfold Cache.get. rewrite cache_get_fresh_entry.
    cbn [Cache.ttl Cache.timestamp Cache.data].
    assert (E : (match ttl with Some t => t | None => 5000 end
                 <? later - now) = false) by (apply Z.ltb_ge; exact Hfresh).
    now rewrite E.
  - intros other time Hne. unfold Cache.get, Cache.set.
    rewrite (get_set_other String.eqb String.eqb_eq) by exact Hne.
    destruct (JsMap.get String.eqb other c) as [entry|]; [|reflexivity].
    destruct (_ <? _); reflexivity.
Qed.

(** X24 with the default TTL, read four seconds later. *)
Lemma X24_cache_set_then_get_witness :
  fst (Cache.get "tasks:all" 5000
         (Cache.set "tasks:all" 42 None 1000 Cache.new)) = Some 42.
Proof.
  assert (Hfresh : 5000 - 1000 <= 5000) by lia.
  pose proof (X24_cache_set_then_get Z "tasks:all" 42 None 1000 5000
                Cache.new Hfresh) as [Hget _].
  rewrite Hget. reflexivity.
Defined.

(** X25: once the clock has advanced by more than the TTL, [get] returns
    null and deletes the entry: after that read the key is absent, so a
    read at any other clock reading, even an earlier one, returns null as
    well.  An absent key reads as null without changing the cache. *)
Theorem X25_cache_entry_expires :
  forall (D : Type) (key : string) (value : D) (ttl : option Z)
         (now later : Z) (c : @Cache.SimpleCache D),
    match ttl with Some t => t | None => 5000 end < later - now ->
    let read := Cache.get key later (Cache.set key value ttl now c) in
    fst read = None /\
    JsMap.get String.eqb key (snd read) = None /\
    (forall time, Cache.get key time (snd read) = (None, snd read)) /\
    (forall other,
       other <> key ->
       JsMap.get String.eqb other (snd read) = JsMap.get String.eqb other c).
Proof.
  intros D key value ttl now later c Hold. cbv zeta.
  assert (Hread :
    Cache.get key later (Cache.set key value ttl now c)
    = (None, JsMap.delete String.eqb key (Cache.set key value ttl now c))).
  { unfold Cache.get. rewrite cache_get_fresh_entry.
    cbn [Cache.ttl Cache.timestamp Cache.data].
    assert (E : (match ttl with Some t => t | None => 5000 end
                 <? later - now) = true) by (apply Z.ltb_lt; exact Hold).
    now rewrite E. }
  rewrite Hread. cbn [fst snd].
  split; [reflexivity|]. split; [apply get_delete_same|]. split.
  - intros time. unfold Cache.get. now rewrite get_delete_same.
  - intros other Hne.
    rewrite (get_delete_other String.eqb String.eqb_eq) by exact Hne.
    unfold Cache.set.
    now rewrite (get_set_other String.eqb String.eqb_eq).
Qed.

(** X25 with the five-second TTL the tasks route uses, read after six. *)
Lemma X25_cache_entry_expires_witness :
  fst (Cache.get "tasks" 7000 (Cache.set "tasks" 42 (Some 5000) 1000
                                 Cache.new)) = None.
Proof.
  assert (Hold : 5000 < 7000 - 1000) by lia.
  exact (proj1 (X25_cache_entry_expires Z "tasks" 42 (Some 5000) 1000 7000
                  Cache.new Hold)).
Defined.

Lemma cache_delete_as_filter {D : Type} (k : string)
  (m : @Cache.SimpleCache D) :
  JsMap.delete String.eqb k m
  = filter (fun kv => negb (String.eqb k (fst kv))) m.
Proof.
  induction m as [|[k' v'] m IH]; simpl; [reflexivity|].
  destruct (String.eqb k k'); simpl; [exact IH | now rewrite IH].
Qed.

Lemma invalidate_loop {D : Type} (pattern : string) (ks : list string) :
  forall m : @Cache.SimpleCache D,
    fold_left
      (fun cache key =>
         if Cache.includes pattern key
         then JsMap.delete String.eqb key cache
         else cache)
      ks m
    = filter
        (fun kv =>
           negb (existsb
                   (fun k => Cache.includes pattern k
                             && String.eqb k (fst kv))
                   ks))
        m.
Proof.
  induction ks as [|k ks IH]; intros m; simpl.
  - induction m as [|kv m IHm]; simpl; [reflexivity | now rewrite <- IHm].
  - rewrite IH. destruct (Cache.includes pattern k); simpl.
    + rewrite cache_delete_as_filter, filter_twice.
      apply filter_ext. intros kv. now rewrite negb_orb.
    + reflexivity.
Qed.

Lemma get_of_key_filter {V : Type} (p : string -> bool) (k : string)
  (m : list (string * V)) :
  JsMap.get String.eqb k (filter (fun kv => p (fst kv)) m)
  = if p k then JsMap.get String.eqb k m else None.
Proof.
  induction m as [|[k' v'] m IH]; simpl; [now destruct (p k)|].
  destruct (p k') eqn:Ek'; simpl.
  - destruct (String.eqb k k') eqn:E.
    + apply String.eqb_eq in E. subst k'. now rewrite Ek'.
    + exact IH.
  - destruct (String.eqb k k') eqn:E.
    + apply String.eqb_eq in E. subst k'. rewrite Ek' in IH |- *.
      exact IH.
    + exact IH.
Qed.

(** X26: [invalidate] removes exactly the entries whose key contains the
    pattern and keeps all others, with their values and in their order:
    afterwards a key that contains the pattern is absent and any other
    key reads as before.  An empty pattern empties the cache. *)
Theorem X26_cache_invalidate :
  forall (D : Type) (pattern : string) (c : @Cache.SimpleCache D),
    Cache.invalidate pattern c
      = filter (fun kv => negb (Cache.includes pattern (fst kv))) c /\
    (forall key,
       JsMap.get String.eqb key (Cache.invalidate pattern c)
       = if Cache.includes pattern key
         then None
         else JsMap.get String.eqb key c) /\
    Cache.invalidate EmptyString c = [].
Proof.
  intros D pattern c.
  assert (Hfilter : forall pat,
    Cache.invalidate pat c
    = filter (fun kv => negb (Cache.includes pat (fst kv))) c).
  { intros pat. unfold Cache.invalidate. rewrite invalidate_loop.
    apply filter_ext_in. intros kv Hkv. f_equal.
    destruct (Cache.includes pat (fst kv)) eqn:E.
    - apply existsb_exists. exists (fst kv). split.
      + unfold JsMap.keys. now apply in_map.
      + now rewrite E, String.eqb_refl.
    - apply not_true_is_false. intros H. apply existsb_exists in H.
      destruct H as [k [_ Hk]]. apply andb_true_iff in Hk.
      destruct Hk as [Hinc Heq]. apply String.eqb_eq in Heq. subst k.
      congruence. }
  split; [apply Hfilter|]. split.
  - intros key. rewrite Hfilter.
    rewrite (get_of_key_filter (fun k => negb (Cache.includes pattern k))).
    now destruct (Cache.includes pattern key).
  - rewrite Hfilter. clear Hfilter.
    induction c as [|[k v] c IH]; [reflexivity|].
    cbn [filter fst].
    assert (E : Cache.includes EmptyString k = true)
      by (destruct k; reflexivity).
    rewrite E. exact IH.
Qed.

(** X26 on a cache with two task lists and one other entry. *)
Lemma X26_cache_invalidate_witness :
  JsMap.keys
    (Cache.invalidate "tasks:"
       (Cache.set "user:1" 3 None 0
          (Cache.set "tasks:q:milk" 2 None 0
             (Cache.set "tasks:all" 1 None 0 Cache.new))))
  = ["user:1"].
Proof.
  rewrite (proj1 (X26_cache_invalidate Z "tasks:" _)). reflexivity.
Defined.

(** * The cache key of a task filter *)

Lemma ascii_compare_lt_trans (a b c : ascii) :
  Ascii.compare a b = Lt -> Ascii.compare b c = Lt ->
  Ascii.compare a c = Lt.
Proof.
  unfold Ascii.compare. rewrite !N.compare_lt_iff. apply N.lt_trans.
Qed.

Lemma ascii_compare_refl (a : ascii) : Ascii.compare a a = Eq.
Proof. unfold Ascii.compare. apply N.compare_refl. Qed.

Lemma string_leb_trans (s1 s2 s3 : string) :
  String.leb s1 s2 = true -> String.leb s2 s3 = true ->
  String.leb s1 s3 = true.
Proof.
  unfold String.leb. revert s2 s3.
  induction s1 as [|c1 s1 IH]; intros [|c2 s2] [|c3 s3]; simpl;
    try reflexivity; try discriminate.
  destruct (Ascii.compare c1 c2) eqn:E12; try discriminate;
    destruct (Ascii.compare c2 c3) eqn:E23; try discriminate.
  - apply Ascii.compare_eq_iff in E12. apply Ascii.compare_eq_iff in E23.
    subst c2 c3. rewrite ascii_compare_refl. apply IH.
  - apply Ascii.compare_eq_iff in E12. subst c2. now rewrite E23.
  - apply Ascii.compare_eq_iff in E23. subst c3. now rewrite E12.
  - now rewrite (ascii_compare_lt_trans _ _ _ E12 E23).
Qed.

Lemma insert_commutes (x y : string) (l : list string) :
  Cache.insert x (Cache.insert y l) = Cache.insert y (Cache.insert x l).
Proof.
  induction l as [|h t IH]; simpl.
  - destruct (String.leb x y) eqn:Exy; destruct (String.leb y x) eqn:Eyx;
      try reflexivity.
    + now rewrite (String.leb_antisym _ _ Exy Eyx).
    + destruct (String.leb_total x y); congruence.
  - destruct (String.leb x h) eqn:Exh; destruct (String.leb y h) eqn:Eyh;
      simpl; rewrite ?Exh, ?Eyh.
    + destruct (String.leb x y) eqn:Exy; destruct (String.leb y x) eqn:Eyx;
        try reflexivity.
      * now rewrite (String.leb_antisym _ _ Exy Eyx).
      * destruct (String.leb_total x y); congruence.
    + assert (Eyx : String.leb y x = false).
      { apply not_true_is_false. intros H.
        rewrite (string_leb_trans _ _ _ H Exh) in Eyh. discriminate. }
      now rewrite Eyx.
    + assert (Exy : String.leb x y = false).
      { apply not_true_is_false. intros H.
        rewrite (string_leb_trans _ _ _ H Eyh) in Exh. discriminate. }
      now rewrite Exy.
    + now rewrite IH.
Qed.

Lemma sort_of_permutation (l1 l2 : list string) :
  Permutation l1 l2 -> Cache.sort l1 = Cache.sort l2.
Proof.
  induction 1 as [|x l l' H IH | x y l | l l' l'' H1 IH1 H2 IH2]; simpl.
  - reflexivity.
  - now rewrite IH.
  - apply insert_commutes.
  - congruence.
Qed.

Lemma insert_is_permutation (x : string) (l : list string) :
  Permutation (Cache.insert x l) (x :: l).
Proof.
  induction l as [|h t IH]; simpl; [apply Permutation_refl|].
  destruct (String.leb x h); [apply Permutation_refl|].
  eapply perm_trans; [apply perm_skip; exact IH | apply perm_swap].
Qed.

Lemma insert_keeps_sorted (x : string) (l : list string) :
  Sorted (fun a b => String.leb a b = true) l ->
  Sorted (fun a b => String.leb a b = true) (Cache.insert x l).
Proof.
  induction 1 as [|h t Ht IH Hhd]; simpl.
  - repeat constructor.
  - destruct (String.leb x h) eqn:E.
    + constructor; [constructor; assumption | constructor; exact E].
    + constructor; [exact IH|].
      assert (Ehx : String.leb h x = true)
        by (destruct (String.leb_total x h); congruence).
      destruct Hhd as [|b t' Hb]; simpl.
      * constructor. exact Ehx.
      * destruct (String.leb x b); constructor; assumption.
Qed.

(** The model of the sort is a sort: its result is an ascending
    rearrangement of its argument. *)
Lemma sort_is_sorted_permutation (l : list string) :
  Permutation (Cache.sort l) l /\
  Sorted (fun a b => String.leb a b = true) (Cache.sort l).
Proof.
  induction l as [|x l [IHp IHs]]; simpl.
  - split; constructor.
  - split.
    + eapply perm_trans; [apply insert_is_permutation|].
      now apply perm_skip.
    + now apply insert_keeps_sorted.
Qed.

(** X27: the cache key of a filter does not depend on the order in which
    the tags are listed: two filters that agree on query, priority,
    schedule and completion and whose tag lists are rearrangements of one
    another get the same key. *)
Theorem X27_key_ignores_tag_order :
  forall (f : Cache.TaskFilter) (tags1 tags2 : list string),
    Permutation tags1 tags2 ->
    Cache.generateTasksCacheKey
      (Some (Cache.mkFilter (Cache.query f) (Cache.priority f)
               (Cache.scheduled f) (Cache.completed f) (Some tags1)))
    = Cache.generateTasksCacheKey
        (Some (Cache.mkFilter (Cache.query f) (Cache.priority f)
                 (Cache.scheduled f) (Cache.completed f) (Some tags2))).
Proof.
  intros f tags1 tags2 Hperm. unfold Cache.generateTasksCacheKey.
  cbn [Cache.query Cache.priority Cache.scheduled Cache.completed
       Cache.tags].
  destruct tags1 as [|t1 ts1].
  - apply Permutation_nil in Hperm. subst tags2. reflexivity.
  - destruct tags2 as [|t2 ts2].
    + apply Permutation_sym, Permutation_nil in Hperm. discriminate.
    + now rewrite (sort_of_permutation _ _ Hperm).
Qed.

(** X27 on two tags. *)
Lemma X27_key_ignores_tag_order_witness :
  Cache.generateTasksCacheKey
    (Some (Cache.mkFilter None (Some 2) None None (Some ["work"; "home"])))
  = Cache.generateTasksCacheKey
      (Some (Cache.mkFilter None (Some 2) None None (Some ["home"; "work"]))).
Proof.
  exact (X27_key_ignores_tag_order
           (Cache.mkFilter None (Some 2) None None None)
           ["work"; "home"] ["home"; "work"] (perm_swap _ _ _)).
Defined.

Example key_of_a_full_filter :
  Cache.generateTasksCacheKey
    (Some (Cache.mkFilter (Some "milk") (Some 2) None (Some false)
             (Some ["work"; "home"])))
  = "tasks:q:milk:p:2:c:false:t:home,work".
Proof. reflexivity. Qed.

Lemma invalidate_lookup {D : Type} (pattern key : string)
  (c : @Cache.SimpleCache D) :
  JsMap.get String.eqb key (Cache.invalidate pattern c)
  = if Cache.includes pattern key then None else JsMap.get String.eqb key c.
Proof.
  unfold Cache.invalidate. rewrite invalidate_loop.
  assert (Hfilter :
    filter
      (fun kv =>
         negb (existsb
                 (fun k => Cache.includes pattern k && String.eqb k (fst kv))
                 (JsMap.keys c)))
      c
    = filter (fun kv => negb (Cache.includes pattern (fst kv))) c).
  { apply filter_ext_in. intros kv Hkv. f_equal.
    destruct (Cache.includes pattern (fst kv)) eqn:E.
    - apply existsb_exists. exists (fst kv). split.
      + unfold JsMap.keys. now apply in_map.
      + now rewrite E, String.eqb_refl.
    - apply not_true_is_false. intros H. apply existsb_exists in H.
      destruct H as [k [_ Hk]]. apply andb_true_iff in Hk.
      destruct Hk as [Hinc Heq]. apply String.eqb_eq in Heq. subst k.
      congruence. }
  rewrite Hfilter.
  rewrite (get_of_key_filter (fun k => negb (Cache.includes pattern k))).
  now destruct (Cache.includes pattern key).
Qed.

Lemma constrained_key_has_prefix (f : Cache.TaskFilter) :
  Cache.constrains f = true ->
  Cache.includes "tasks:" (Cache.generateTasksCacheKey (Some f)) = true.
Proof.
  unfold Cache.constrains, Cache.generateTasksCacheKey.
  destruct (Cache.nonempty (Cache.query f));
    destruct (Cache.priority f);
    destruct (Cache.nonempty (Cache.scheduled f));
    destruct (Cache.completed f);
    destruct (Cache.tags f) as [[|t ts]|];
    intros H; try discriminate H; reflexivity.
Qed.

Lemma unconstrained_key (f : Cache.TaskFilter) :
  Cache.constrains f = false ->
  Cache.generateTasksCacheKey (Some f) = "tasks".
Proof.
  unfold Cache.constrains, Cache.generateTasksCacheKey.
  destruct (Cache.nonempty (Cache.query f));
    destruct (Cache.priority f);
    destruct (Cache.nonempty (Cache.scheduled f));
    destruct (Cache.completed f);
    destruct (Cache.tags f) as [[|t ts]|];
    intros H; try discriminate H; reflexivity.
Qed.

(** X28: which cached task lists [invalidate('tasks:')] reaches.  The key
    of an absent filter is "tasks:all" and the key of a filter with at
    least one effective property starts with "tasks:", so both are
    removed.  The key of a filter object without any effective property
    (no query, priority, schedule or completion and no tags) is "tasks",
    which does not contain "tasks:": a list cached under it is still
    returned after the invalidation, until its TTL runs out. *)
Theorem X28_invalidation_misses_the_bare_key :
  forall (D : Type) (f : Cache.TaskFilter) (value : D) (ttl : option Z)
         (now later : Z) (c : @Cache.SimpleCache D),
    later - now <= match ttl with Some t => t | None => 5000 end ->
    let key := Cache.generateTasksCacheKey (Some f) in
    let after :=
      Cache.invalidate "tasks:" (Cache.set key value ttl now c) in
    (Cache.constrains f = true -> fst (Cache.get key later after) = None) /\
    (Cache.constrains f = false ->
     key = "tasks" /\ fst (Cache.get key later after) = Some value) /\
    fst (Cache.get (Cache.generateTasksCacheKey None) later
           (Cache.invalidate "tasks:"
              (Cache.set (Cache.generateTasksCacheKey None) value ttl now c)))
      = None.
Proof.
  intros D f value ttl now later c Hfresh. cbv zeta.
  assert (E : (match ttl with Some t => t | None => 5000 end
               <? later - now) = false) by (apply Z.ltb_ge; exact Hfresh).
  split; [|split].
  - intros Hc. unfold Cache.get. rewrite invalidate_lookup.
    now rewrite (constrained_key_has_prefix f Hc).
  - intros Hc. rewrite (unconstrained_key f Hc). split; [reflexivity|].
    unfold Cache.get. rewrite invalidate_lookup.
    change (Cache.includes "tasks:" "tasks") with false. cbv iota.
    rewrite cache_get_fresh_entry.
    cbn [Cache.ttl Cache.timestamp Cache.data]. now rewrite E.
  - unfold Cache.get. rewrite invalidate_lookup. reflexivity.
Qed.

(** X28 on the filter object the tasks route builds for a request without
    query parameters. *)
Lemma X28_invalidation_misses_the_bare_key_witness :
  let f := Cache.mkFilter None None None None None in
  let key := Cache.generateTasksCacheKey (Some f) in
  key = "tasks" /\
  fst (Cache.get key 3000
         (Cache.invalidate "tasks:"
            (Cache.set key 7 (Some 5000) 1000 Cache.new)))
  = Some 7.
Proof.
  intros f key.
  assert (Hfresh : 3000 - 1000 <= 5000) by lia.
  destruct (X28_invalidation_misses_the_bare_key Z f 7 (Some 5000) 1000
              3000 Cache.new Hfresh) as [_ [Hbare _]].
  exact (Hbare eq_refl).
Defined.
